(** * Herding-Cats-Rust maintenance scripts

    A shallow embedding of the one-shot patch scripts of the repository
    (add_logs.py, fix_build.py, fix_conflicts.py, fix_imports.py,
    fix_macro_final.py, fix_macro_ident.py, fix_macro_path.py,
    fix_modules_final.py, fix_slint.py, fix_tool_windows.py,
    patch_theme_listener.py, patch_theme_listener_logs.py,
    refactor_listviews.py, refactor_modules.py, remove_logs.py,
    rewrite_macro.py) and the properties of their text transformations.

    A Python [str] is a sequence of Unicode code points: a text is a list
    of code points, each an [N].  Python integers are unbounded: indices
    and the brace depth are [nat] or [Z] without wrap-around. *)

From Stdlib Require Import String Ascii.
From Stdlib Require Import List NArith ZArith Lia Bool.
Import ListNotations.

(* ================================================================== *)
(** * Part I: definitions *)
(* ================================================================== *)

(** ** Texts and the [str] methods the scripts call *)

Module Text.

Definition char := N.
Definition text := list char.

(** An ASCII literal of the source, as code points. *)
Definition lit (s : string) : text := map N_of_ascii (list_ascii_of_string s).
Arguments lit s%_string.

Definition LF : char := 10%N.
Definition CR : char := 13%N.
(** The double quote, spelled by its code point. *)
Definition dq : text := [34%N].

Definition char_eqb (a b : char) : bool := N.eqb a b.

Fixpoint text_eqb (a b : text) : bool :=
  match a, b with
  | [], [] => true
  | x :: a', y :: b' => char_eqb x y && text_eqb a' b'
  | _, _ => false
  end.

(** [s.startswith(p)] *)
Fixpoint startswith (s p : text) {struct p} : bool :=
  match p with
  | [] => true
  | a :: p' =>
    match s with
    | [] => false
    | b :: s' => char_eqb a b && startswith s' p'
    end
  end.

(** [p in s] *)
Fixpoint contains (p s : text) : bool :=
  startswith s p ||
  match s with
  | [] => false
  | _ :: s' => contains p s'
  end.

(** The lowest index at which [p] occurs in [s], if any. *)
Fixpoint find_index (p s : text) : option nat :=
  if startswith s p then Some 0
  else match s with
       | [] => None
       | _ :: s' => option_map S (find_index p s')
       end.

(** [s.find(p)]: the lowest index, or -1. *)
Definition py_find (p s : text) : Z :=
  match find_index p s with
  | Some i => Z.of_nat i
  | None => (-1)%Z
  end.

(** [s.replace(old, new)] for a non-empty [old]: every occurrence, leftmost
    first, occurrences not overlapping.  [skip] counts the characters of the
    occurrence just replaced that are still to be passed over. *)
Fixpoint replace_from (old new : text) (skip : nat) (s : text) : text :=
  match s with
  | [] => []
  | c :: s' =>
    match skip with
    | S k => replace_from old new k s'
    | O =>
      if startswith s old
      then new ++ replace_from old new (List.length old - 1) s'
      else c :: replace_from old new 0 s'
    end
  end.

(** [s.replace(old, new)]; with an empty [old] Python puts [new] before
    every character and at the end. *)
Definition replace (old new s : text) : text :=
  match old with
  | [] => new ++ flat_map (fun c => c :: new) s
  | _ :: _ => replace_from old new 0 s
  end.

(** [s.split(sep)] for a non-empty [sep]; [cur] is the piece being read. *)
Fixpoint split_from (sep : text) (skip : nat) (cur : text) (s : text)
  : list text :=
  match s with
  | [] => [cur]
  | c :: s' =>
    match skip with
    | S k => split_from sep k cur s'
    | O =>
      if startswith s sep
      then cur :: split_from sep (List.length sep - 1) [] s'
      else split_from sep 0 (cur ++ [c]) s'
    end
  end.

Definition split (sep s : text) : list text := split_from sep 0 [] s.

(** [sep.join(parts)] *)
Fixpoint join (sep : text) (parts : list text) : text :=
  match parts with
  | [] => []
  | [p] => p
  | p :: rest => p ++ sep ++ join sep rest
  end.

(** [str.isspace] on one character, which is also the regex class [\s] of a
    [str] pattern. *)
Definition is_space (c : char) : bool :=
  ((9 <=? c) && (c <=? 13) || (28 <=? c) && (c <=? 32) ||
   (c =? 133) || (c =? 160) || (c =? 5760) ||
   (8192 <=? c) && (c <=? 8202) || (c =? 8232) || (c =? 8233) ||
   (c =? 8239) || (c =? 8287) || (c =? 12288))%N.

Fixpoint lstrip (s : text) : text :=
  match s with
  | c :: s' => if is_space c then lstrip s' else s
  | [] => []
  end.

(** [s.strip()] *)
Definition strip (s : text) : text := rev (lstrip (rev (lstrip s))).

(** [str.lower] on the ASCII letters, all that the tool names hold. *)
Definition lower (s : text) : text :=
  map (fun c => if ((65 <=? c) && (c <=? 90))%N then (c + 32)%N else c) s.

(** [f.readlines()]: the lines with their line feed, the last one possibly
    without. *)
Fixpoint readlines_from (cur : text) (s : text) : list text :=
  match s with
  | [] => match cur with [] => [] | _ :: _ => [cur] end
  | c :: s' =>
    if char_eqb c LF then (cur ++ [c]) :: readlines_from [] s'
    else readlines_from (cur ++ [c]) s'
  end.

Definition readlines (s : text) : list text := readlines_from [] s.

End Text.

Import Text.

(** ** Regular expressions of the scripts

    The scripts call [re.sub] with patterns made of literal text and one
    class repeated: the matcher of each pattern is written out as a
    function that gives, at a position, the length of the match there. *)

Module Regex.

(** [re.sub(pattern, repl, s)]: the matches are taken leftmost first and do
    not overlap; [m bol s] is the length of the match of the pattern at the
    head of [s], where [bol] tells whether the position is the start of the
    text or follows a line feed (what [^] tests under [re.MULTILINE]).
    [skip] counts the characters of the last match still to be passed over.
    No pattern of the scripts matches the empty string. *)
Fixpoint sub_from (m : bool -> text -> option nat) (repl : text)
  (bol : bool) (skip : nat) (s : text) : text :=
  match s with
  | [] => []
  | c :: s' =>
    match skip with
    | S k => sub_from m repl (char_eqb c LF) k s'
    | O =>
      match m bol s with
      | Some (S n) => repl ++ sub_from m repl (char_eqb c LF) n s'
      | _ => c :: sub_from m repl (char_eqb c LF) 0 s'
      end
    end
  end.

Definition sub (m : bool -> text -> option nat) (repl s : text) : text :=
  sub_from m repl true 0 s.

(** The longest prefix of characters of a class. *)
Fixpoint span (cls : char -> bool) (s : text) : nat :=
  match s with
  | c :: s' => if cls c then S (span cls s') else 0
  | [] => 0
  end.

(** [\w] on the ASCII range: letters, digits and the underscore. *)
Definition ascii_word (c : char) : bool :=
  ((48 <=? c) && (c <=? 57) || (65 <=? c) && (c <=? 90) ||
   (c =? 95) || (97 <=? c) && (c <=? 122))%N.

Section Word.
(** [str.isalnum] beyond ASCII is a table of the Unicode database, not of
    the repository: it is a parameter. *)
Variable unicode_alnum : char -> bool.

(** [\w] of a [str] pattern. *)
Definition is_word (c : char) : bool :=
  if (c <? 128)%N then ascii_word c else unicode_alnum c.

(** The pattern [pre \w+ post] for literal [pre] and [post], where [post]
    starts with a character outside [\w]: the greedy [\w+] can only end at
    the end of the run of word characters. *)
Definition match_word (pre post : text) (_ : bool) (s : text) : option nat :=
  if startswith s pre then
    let s1 := skipn (List.length pre) s in
    let n := span is_word s1 in
    if (0 <? n) && startswith (skipn n s1) post
    then Some (List.length pre + n + List.length post)
    else None
  else None.

End Word.

End Regex.

(** ** The text-mode file of [open(file_path, 'r')] and [open(file_path, 'w')]

    The scripts open the file in text mode with the default [newline=None].
    What is on disk is taken after decoding, as code points: the codec is
    assumed to give back what it was given. *)

Module TextIO.

(** [os.linesep]: a line feed on POSIX, carriage return and line feed on
    Windows. *)
Definition posix : text := [LF].
Definition windows : text := [CR; LF].

(** The files are opened without [encoding] and without [errors]: the
    codec is the locale's and its error handler is ['strict'].  A codec is
    given here by the characters that it can encode; the disk is given by
    the characters that its bytes decode to.  UTF-8 encodes every code
    point but the surrogates. *)
Definition utf8 (c : char) : bool :=
  ((c <? 55296) || (57343 <? c) && (c <? 1114112))%N.

(** The newline translation of [f.write]: every line feed becomes
    [os.linesep]. *)
Definition translate (linesep : text) (T : text) : text :=
  flat_map (fun c => if char_eqb c LF then linesep else [c]) T.

(** [f.write(T)]: the text, its line feeds translated, goes through the
    codec; [None] is [UnicodeEncodeError], raised when the text holds a
    character that the codec cannot encode. *)
Definition save (encodable : char -> bool) (linesep : text) (T : text)
  : option text :=
  let written := translate linesep T in
  if forallb encodable written then Some written else None.

(** [f.read()]: universal newlines, a carriage return with or without a
    line feed after it is read as a line feed. *)
Fixpoint load (disk : text) : text :=
  match disk with
  | [] => []
  | c :: rest =>
    if char_eqb c CR then
      LF :: match rest with
            | d :: rest' => if char_eqb d LF then load rest' else load rest
            | [] => []
            end
    else c :: load rest
  end.

End TextIO.

(** ** The script runs: one file, the console, and [exit] *)

Module Script.

(** [file] is the text of the one file the script opens, as [f.read()]
    returns it and as [f.write] receives it; [console] holds the printed
    lines, oldest first. *)
Record world := World { file : text; console : list text }.

Inductive result (A : Type) : Type :=
| Done (a : A)
| Exited (code : Z).
Arguments Done {A} a.
Arguments Exited {A} code.

Definition script (A : Type) : Type := world -> result A * world.

Definition ret {A : Type} (a : A) : script A := fun w => (Done a, w).

Definition bind {A B : Type} (m : script A) (k : A -> script B) : script B :=
  fun w =>
    match m w with
    | (Done a, w') => k a w'
    | (Exited code, w') => (Exited code, w')
    end.

(** [with open(file_path, 'r') as f: content = f.read()] *)
Definition read_file : script text := fun w => (Done (file w), w).

(** [with open(file_path, 'w') as f: f.write(content)] *)
Definition write_file (content : text) : script unit :=
  fun w => (Done tt, {| file := content; console := console w |}).

Definition print (line : text) : script unit :=
  fun w => (Done tt, {| file := file w; console := console w ++ [line] |}).

Definition exit {A : Type} (code : Z) : script A := fun w => (Exited code, w).

(** A script started on a file, with an empty console. *)
Definition run {A : Type} (m : script A) (content : text) : result A * world :=
  m {| file := content; console := [] |}.

(** The text a script leaves in the file. *)
Definition written {A : Type} (m : script A) (content : text) : text :=
  file (snd (run m content)).

End Script.

Declare Scope script_scope.
Delimit Scope script_scope with script.
Notation "x <- m ;; k" := (Script.bind m (fun x => k))
  (at level 61, m at next level, right associativity) : script_scope.
Notation "m ;; k" := (Script.bind m (fun _ => k))
  (at level 61, right associativity) : script_scope.

(** ** refactor_modules.py *)

Module RefactorModules.

(** *** The brace-depth loop (lines 83-92) *)

Definition open_brace : char := 123%N.
Definition close_brace : char := 125%N.

(** The loop over [enumerate(part)]: [depth] and the index [j] are the
    loop's variables; the result is [end_index], -1 when the loop ends
    without a [break]. *)
Fixpoint scan (depth j : Z) (part : text) : Z :=
  match part with
  | [] => (-1)%Z
  | ch :: rest =>
    if char_eqb ch open_brace then scan (depth + 1) (j + 1) rest
    else if char_eqb ch close_brace then
      if (depth - 1 =? 0)%Z then j else scan (depth - 1) (j + 1) rest
    else scan depth (j + 1) rest
  end.

(** [depth = 1], [end_index = -1], then the loop. *)
Definition end_index (part : text) : Z := scan 1 0 part.

(** The running depth of the claim: 1, plus one for each open brace and
    minus one for each close brace among the first [k] characters. *)
Definition brace_weight (c : char) : Z :=
  if char_eqb c open_brace then 1%Z
  else if char_eqb c close_brace then (-1)%Z else 0%Z.

Fixpoint weight (s : text) : Z :=
  match s with
  | [] => 0%Z
  | c :: s' => (brace_weight c + weight s')%Z
  end.

Definition depth_after (part : text) (k : nat) : Z :=
  (1 + weight (firstn k part))%Z.

(** A brace of either kind. *)
Definition is_brace (c : char) : bool :=
  char_eqb c open_brace || char_eqb c close_brace.

(** Whether the running depth, started at [d], is 0 after some character
    of [s]. *)
Fixpoint closes (d : Z) (s : text) : bool :=
  match s with
  | [] => false
  | c :: s' =>
    (d + brace_weight c =? 0)%Z || closes (d + brace_weight c) s'
  end.

(** *** The whole script *)

Definition file_sep : text := lit "slint::slint! {".

(** [tools]: the component names and their module names. *)
Definition tools : list (text * text) :=
  [ (lit "Hierarchy", lit "hierarchy");
    (lit "Codex", lit "codex");
    (lit "Brainstorming", lit "brainstorming");
    (lit "Analysis", lit "analysis");
    (lit "Plot", lit "plot");
    (lit "Notes", lit "notes");
    (lit "Research", lit "research");
    (lit "Structure", lit "structure") ].

(** The f-string of line 106. *)
Definition block (mod_name slint_content : text) : text :=
  lit "pub mod " ++ mod_name ++ lit " {
    slint::slint! {
" ++ slint_content ++ lit "
    }
}
".

Section Run.
Variable unicode_alnum : char -> bool.
Local Open Scope script_scope.

(** Lines 44-48: [import \{ SlintThemeColors as \w+ \}]. *)
Definition revert_import (part : text) : text :=
  Regex.sub
    (Regex.match_word unicode_alnum (lit "import { SlintThemeColors as ") (lit " }"))
    (lit "import { SlintThemeColors }") part.

(** Lines 52-56: [callback set_theme\(\w+\);]. *)
Definition revert_callback (part : text) : text :=
  Regex.sub
    (Regex.match_word unicode_alnum (lit "callback set_theme(") (lit ");"))
    (lit "callback set_theme(SlintThemeColors);") part.

(** The text the brace-depth loop scans. *)
Definition reverted (part : text) : text :=
  revert_callback (revert_import part).

(** Lines 94-112: the module is built when the loop found the closing
    brace, and the separator and the part are put back otherwise. *)
Definition wrap (tool_name mod_name part new_content : text)
  : Script.script text :=
  let end_index := end_index part in
  if negb (end_index =? -1)%Z then
    let slint_content := firstn (Z.to_nat end_index) part in
    let rest := skipn (Z.to_nat end_index + 1) part in
    Script.ret (new_content ++ block mod_name slint_content ++ rest)
  else
    Script.print (lit "Error: Could not find closing brace for " ++ tool_name) ;;
    Script.ret (new_content ++ file_sep ++ part).

(** The body of the loop of line 38, for the part of index [i]. *)
Definition wrap_part (i : nat) (part new_content : text)
  : Script.script text :=
  match nth_error tools i with
  | Some (tool_name, mod_name) =>
    wrap tool_name mod_name (reverted part) new_content
  | None => Script.ret (new_content ++ file_sep ++ part)
  end.

Fixpoint wrap_loop (i : nat) (parts : list text) (new_content : text)
  : Script.script text :=
  match parts with
  | [] => Script.ret new_content
  | part :: rest =>
    new_content <- wrap_part i part new_content ;;
    wrap_loop (S i) rest new_content
  end.

(** Lines 122-126. *)
Definition update_enum (content : text) : text :=
  fold_left
    (fun content '(tool_name, mod_name) =>
       replace (tool_name ++ lit "(" ++ tool_name ++ lit "ToolWindow)")
               (tool_name ++ lit "(" ++ mod_name ++ lit "::" ++ tool_name
                          ++ lit "ToolWindow)")
               content)
    tools content.

(** Lines 130-146.  Both patterns are literal text (their only escapes are
    the parentheses) and the replacements hold no backslash: [re.sub] is
    [str.replace] there. *)
Definition update_calls (content : text) : text :=
  fold_left
    (fun content '(tool_name, mod_name) =>
       let content :=
         replace
           (lit "ToolWindowHandle::" ++ tool_name
              ++ lit "(w) => apply_theme!(w, colors)")
           (lit "ToolWindowHandle::" ++ tool_name
              ++ lit "(w) => apply_theme!(w, colors, " ++ mod_name
              ++ lit "::SlintThemeColors)")
           content in
       let var_name := lower tool_name ++ lit "_window" in
       replace
         (lit "apply_theme!(&" ++ var_name ++ lit ", &colors);")
         (lit "apply_theme!(&" ++ var_name ++ lit ", &colors, " ++ mod_name
            ++ lit "::SlintThemeColors);")
         content)
    tools content.

Definition refactor_modules : Script.script unit :=
  content <- Script.read_file ;;
  let content :=
    replace (lit "($window:expr, $colors:expr, $theme_type:ident) => {{")
            (lit "($window:expr, $colors:expr, $theme_type:path) => {{")
            content in
  let parts := split file_sep content in
  new_content <- wrap_loop 0 (tl parts) (hd [] parts) ;;
  let content := update_calls (update_enum new_content) in
  Script.write_file content.

End Run.

End RefactorModules.

(** ** add_logs.py *)

Module AddLogs.
Local Open Scope script_scope.

(** The emoji of the log lines, by code point. *)
Definition rocket : text := [128640%N].
Definition palette : text := [127912%N].
Definition magnifier : text := [128269%N].
Definition crane : text := [127959%N; 65039%N].

Definition target1 : text :=
  lit "    fn open_hierarchy_window(&self) -> Result<()> {
        println!(" ++ dq ++ rocket ++ lit " Opening Hierarchy Tool Window" ++ dq ++ lit ");

        // Get current theme colors
        let colors = get_current_theme_colors();

        // Check if already open in this thread
        let is_open = ACTIVE_TOOL_WINDOWS.with(|windows| {".

Definition replacement1 : text :=
  lit "    fn open_hierarchy_window(&self) -> Result<()> {
        println!(" ++ dq ++ rocket ++ lit " [open_hierarchy_window] Opening Hierarchy Tool Window" ++ dq ++ lit ");

        // Get current theme colors
        println!(" ++ dq ++ palette ++ lit " [open_hierarchy_window] Getting theme colors..." ++ dq ++ lit ");
        let colors = get_current_theme_colors();
        println!(" ++ dq ++ palette ++ lit " [open_hierarchy_window] Theme colors acquired." ++ dq ++ lit ");

        // Check if already open in this thread
        println!(" ++ dq ++ magnifier ++ lit " [open_hierarchy_window] Checking ACTIVE_TOOL_WINDOWS..." ++ dq ++ lit ");
        let is_open = ACTIVE_TOOL_WINDOWS.with(|windows| {".

Definition target2 : text :=
  lit "        // Create Slint window for Hierarchy tool
        let hierarchy_window = hierarchy::HierarchyToolWindow::new()?;
        
        // Apply theme
        apply_theme!(&hierarchy_window, &colors, hierarchy);".

Definition replacement2 : text :=
  lit "        // Create Slint window for Hierarchy tool
        println!(" ++ dq ++ crane ++ lit " [open_hierarchy_window] Creating Slint window..." ++ dq ++ lit ");
        let hierarchy_window = hierarchy::HierarchyToolWindow::new()?;
        println!(" ++ dq ++ crane ++ lit " [open_hierarchy_window] Slint window created." ++ dq ++ lit ");
        
        // Apply theme
        println!(" ++ dq ++ palette ++ lit " [open_hierarchy_window] Applying theme..." ++ dq ++ lit ");
        apply_theme!(&hierarchy_window, &colors, hierarchy);
        println!(" ++ dq ++ palette ++ lit " [open_hierarchy_window] Theme applied." ++ dq ++ lit ");".

(** [if target in content: content = content.replace(...); print(applied)
    else: print(not_found)] *)
Definition rule (target replacement applied not_found content : text)
  : Script.script text :=
  if contains target content then
    Script.print applied ;;
    Script.ret (replace target replacement content)
  else
    Script.print not_found ;;
    Script.ret content.

Definition add_logs : Script.script unit :=
  content <- Script.read_file ;;
  content <- rule target1 replacement1
               (lit "Applied replacement 1") (lit "Target 1 not found!") content ;;
  content <- rule target2 replacement2
               (lit "Applied replacement 2") (lit "Target 2 not found!") content ;;
  Script.write_file content.

End AddLogs.

(** ** fix_macro_path.py and fix_macro_ident.py *)

Module FixMacro.
Local Open Scope script_scope.

Definition header_ty : text :=
  lit "($window:expr, $colors:expr, $theme_type:ty) => {{".
Definition header_path : text :=
  lit "($window:expr, $colors:expr, $theme_type:path) => {{".
Definition header_ident : text :=
  lit "($window:expr, $colors:expr, $theme_type:ident) => {{".

(** fix_macro_path.py *)
Definition fix_macro_path : Script.script unit :=
  content <- Script.read_file ;;
  let content := replace header_ty header_path content in
  Script.write_file content.

(** fix_macro_ident.py *)
Definition fix_macro_ident : Script.script unit :=
  content <- Script.read_file ;;
  let content := replace header_path header_ident content in
  Script.write_file content.

End FixMacro.

(** ** fix_tool_windows.py *)

Module FixToolWindows.
Local Open Scope script_scope.

Section Run.
(** Lines 20-284 edit the two halves of the file in memory and join them
    into [final_content]; they print nothing and never leave the script.
    They are taken as one function of [content_without_macro] and
    [slint_content]. *)
Variable edits : text -> text -> text.

Definition fix_tool_windows : Script.script unit :=
  content <- Script.read_file ;;
  let start_idx := py_find (lit "slint::slint! {") content in
  if (start_idx =? -1)%Z then
    Script.print (lit "Could not find slint! macro") ;;
    Script.exit 1
  else
    let slint_content := skipn (Z.to_nat start_idx) content in
    let content_without_macro := firstn (Z.to_nat start_idx) content in
    let final_content := edits content_without_macro slint_content in
    Script.write_file final_content ;;
    Script.print (lit "Done!").

End Run.

(** A run that ends by itself, not by [exit]. *)
Definition completes (r : Script.result unit * Script.world) : Prop :=
  fst r = Script.Done tt.

(** The claim on this script: whatever the edits and the file, the run is
    not cut short. *)
Definition never_exits : Prop :=
  forall (edits : text -> text -> text) (content : text),
    completes (Script.run (fix_tool_windows edits) content).

End FixToolWindows.

(** ** refactor_listviews.py *)

Module RefactorListviews.
Local Open Scope script_scope.

(** A quoted string of the target file. *)
Definition q (s : string) : text := dq ++ lit s ++ dq.
Arguments q s%_string.

Definition hierarchy_replacement : text :=
  lit "ListView {
            height: 400px;
            for item in [
                { text: " ++ q "Chapter 1: Introduction" ++ lit " },
                { text: " ++ q "Chapter 2: Background" ++ lit " },
                { text: " ++ q "Chapter 3: Main Story" ++ lit " },
                { text: " ++ q "Chapter 4: Climax" ++ lit " },
                { text: " ++ q "Chapter 5: Resolution" ++ lit " },
            ] : VerticalBox {
                padding: 5px;
                Rectangle {
                    height: 30px;
                    background: Theme.secondary-bg;
                    border-radius: 4px;
                    Text {
                        text: item.text;
                        font-size: 12px;
                        vertical-alignment: center;
                    }
                }
            }
        }".

Definition original_hierarchy : text :=
  lit "        ListView {
            height: 400px;
            model: [
                { text: " ++ q "Chapter 1: Introduction" ++ lit " },
                { text: " ++ q "Chapter 2: Background" ++ lit " },
                { text: " ++ q "Chapter 3: Main Story" ++ lit " },
                { text: " ++ q "Chapter 4: Climax" ++ lit " },
                { text: " ++ q "Chapter 5: Resolution" ++ lit " },
            ];
            delegate := VerticalBox {
                padding: 5px;
                Rectangle {
                    height: 30px;
                    background: Theme.secondary-bg;
                    border-radius: 4px;
                    Text {
                        text: root.current_item.text;
                        font-size: 12px;
                        vertical-alignment: center;
                    }
                }
            }
        }".

Definition anchor : text := lit "export component StructureTool".

(** Lines 125-129: the five replacements on the part after the anchor. *)
Definition rewrite_structure (structure_part : text) : text :=
  let structure_part := replace (lit "model: [") (lit "for item in [") structure_part in
  let structure_part := replace (lit "];") (lit "]:") structure_part in
  let structure_part :=
    replace (lit "delegate := Rectangle {") (lit "Rectangle {") structure_part in
  let structure_part := replace (lit "root.current_item") (lit "item") structure_part in
  let structure_part := replace (lit "margin: 4px;") [] structure_part in
  structure_part.

(** Lines 121-131: the step scoped to StructureTool. *)
Definition structure_step (content : text) : text :=
  let parts := split anchor content in
  if 1 <? List.length parts then
    let structure_part := nth 1 parts [] in
    let structure_part := rewrite_structure structure_part in
    nth 0 parts [] ++ anchor ++ structure_part
  else content.

(** The script.  The loop of lines 91-117 only fills [new_lines] and
    rebinds its own [line]; neither is read afterwards, and [content] is
    not touched there. *)
Definition refactor_listviews : Script.script unit :=
  content <- Script.read_file ;;
  let content := replace original_hierarchy hierarchy_replacement content in
  let content := structure_step content in
  Script.write_file content ;;
  Script.print (lit "Refactored ListViews in writing_tools.slint").

(** A file with the hierarchy list of line 76 and then the anchor
    twice. *)
Definition hierarchy_then_twice : text :=
  original_hierarchy ++
  lit " export component StructureTool a export component StructureTool b".

End RefactorListviews.

(** ** fix_build.py *)

Module FixBuild.
Local Open Scope script_scope.

(** The index of the first element with [p], as the loops that [break] at
    the first line they look for. *)
Fixpoint first_index {A : Type} (p : A -> bool) (l : list A) : option nat :=
  match l with
  | [] => None
  | x :: l' => if p x then Some 0 else option_map S (first_index p l')
  end.

(** [for i in range(start, len(lines)): if p(lines[i]): ...; break] *)
Definition first_from (p : text -> bool) (start : nat) (lines : list text)
  : option nat :=
  option_map (Nat.add start) (first_index p (skipn start lines)).

(** [lines[i] = v] for an index in range. *)
Fixpoint set_line (i : nat) (v : text) (lines : list text) : list text :=
  match lines, i with
  | [], _ => []
  | _ :: rest, O => v :: rest
  | l :: rest, S i' => l :: set_line i' v rest
  end.

(** [lines[i:i] = ins] *)
Definition insert_at (i : nat) (ins lines : list text) : list text :=
  firstn i lines ++ ins ++ skipn i lines.

(** Lines 28-33, on the lines from [body_start] on. *)
Fixpoint close_body (lines : list text) : list text :=
  match lines with
  | [] => []
  | l :: rest =>
    let l :=
      if contains (lit "$window.invoke_set_theme(slint_colors);") l
      then replace (lit ";") [] l else l in
    if text_eqb (strip l) (lit "};")
    then replace (lit "};") (lit "}};") l :: rest
    else l :: close_body rest
  end.

(** Lines 10-33. *)
Definition fix_macro (lines : list text) : list text :=
  match first_from (contains (lit "macro_rules! apply_theme")) 0 lines with
  | Some macro_start =>
    match first_from (contains (lit "=> {")) macro_start lines with
    | Some body_start =>
      let lines :=
        set_line body_start
          (replace (lit "=> {") (lit "=> {{") (nth body_start lines []))
          lines in
      firstn body_start lines ++ close_body (skipn body_start lines)
    | None => lines
    end
  | None => lines
  end.

Definition std_widgets : text := lit "from " ++ dq ++ lit "std-widgets.slint" ++ dq ++ lit ";".

Definition theme_import : text :=
  lit "    import { Theme } from " ++ dq ++ lit "../styles.slint" ++ dq ++ lit ";
".

Definition insertion : list text :=
  [ theme_import;
    lit "    struct SlintThemeColors {
";
    lit "        primary-bg: color,
";
    lit "        secondary-bg: color,
";
    lit "        accent: color,
";
    lit "        text-primary: color,
";
    lit "        text-secondary: color,
";
    lit "        border: color,
";
    lit "        menu-bg: color,
";
    lit "        toolbar-bg: color,
";
    lit "        status-bg: color,
";
    lit "        editor-bg: color,
";
    lit "        title-bg: color,
";
    lit "        ribbon-bg: color,
";
    lit "        dropdown-bg: color,
";
    lit "    }
" ].

(** Lines 36-70. *)
Definition first_block (lines : list text) : list text :=
  match first_from (contains (lit "slint::slint! {")) 0 lines with
  | Some slint_start =>
    match first_from (contains std_widgets) slint_start lines with
    | Some import_line => insert_at (import_line + 1) insertion lines
    | None => lines
    end
  | None => lines
  end.

(** Line 73-76: the indices of the lines that open a block. *)
Fixpoint indices (p : text -> bool) (i : nat) (lines : list text) : list nat :=
  match lines with
  | [] => []
  | l :: rest => if p l then i :: indices p (S i) rest else indices p (S i) rest
  end.

(** Lines 79-88: the indices were taken before the loop and are not moved
    by its insertions. *)
Definition other_blocks (lines : list text) : list text :=
  let slint_blocks := indices (contains (lit "slint::slint! {")) 0 lines in
  fold_left
    (fun lines block_start =>
       match first_from (contains std_widgets) block_start lines with
       | Some import_line => insert_at (import_line + 1) [theme_import] lines
       | None => lines
       end)
    (tl slint_blocks) lines.

Definition fix_build : Script.script unit :=
  content <- Script.read_file ;;
  let lines := readlines content in
  let lines := fix_macro lines in
  let lines := first_block lines in
  let lines := other_blocks lines in
  Script.write_file (concat lines).

(** The line after which [first_block] inserts, if it finds one. *)
Definition import_line (lines : list text) : option nat :=
  match first_from (contains (lit "slint::slint! {")) 0 lines with
  | Some slint_start => first_from (contains std_widgets) slint_start lines
  | None => None
  end.

(** The declaration that the second line of [insertion] opens. *)
Definition struct_head : text := lit "struct SlintThemeColors {".

End FixBuild.

(** ** fix_conflicts.py *)

Module FixConflicts.
Local Open Scope script_scope.

Definition file_sep : text := lit "slint::slint! {".

Definition tools : list (text * text) :=
  [ (lit "Hierarchy", lit "HierarchyThemeColors");
    (lit "Codex", lit "CodexThemeColors");
    (lit "Brainstorming", lit "BrainstormingThemeColors");
    (lit "Analysis", lit "AnalysisThemeColors");
    (lit "Plot", lit "PlotThemeColors");
    (lit "Notes", lit "NotesThemeColors");
    (lit "Research", lit "ResearchThemeColors");
    (lit "Structure", lit "StructureThemeColors") ].

Definition theme_types : text :=
  lit " from " ++ dq ++ lit "../theme_types.slint" ++ dq ++ lit ";".

(** Lines 17-29. *)
Definition fix_macro (content : text) : text :=
  let content :=
    replace (lit "($window:expr, $colors:expr) => {{")
            (lit "($window:expr, $colors:expr, $theme_type:ty) => {{")
            content in
  let content :=
    replace (lit "let slint_colors = SlintThemeColors {")
            (lit "let slint_colors = <$theme_type> {")
            content in
  replace (lit "}};") (lit "}}") content.

(** The body of the loop of line 75; both branches put the separator and
    the part back. *)
Definition rename_part (i : nat) (part new_content : text) : text :=
  match nth_error tools i with
  | Some (tool_name, theme_type) =>
    let part :=
      replace (lit "import { SlintThemeColors }" ++ theme_types)
              (lit "import { SlintThemeColors as " ++ theme_type ++ lit " }"
                 ++ theme_types)
              part in
    let part :=
      replace (lit "callback set_theme(SlintThemeColors);")
              (lit "callback set_theme(" ++ theme_type ++ lit ");")
              part in
    new_content ++ file_sep ++ part
  | None => new_content ++ file_sep ++ part
  end.

Fixpoint rename_loop (i : nat) (parts : list text) (new_content : text) : text :=
  match parts with
  | [] => new_content
  | part :: rest => rename_loop (S i) rest (rename_part i part new_content)
  end.

(** Lines 104-112. *)
Definition update_arms (content : text) : text :=
  fold_left
    (fun content '(tool_name, theme_type) =>
       let pattern :=
         lit "ToolWindowHandle::" ++ tool_name
           ++ lit "(w) => apply_theme!(w, colors)" in
       let replacement :=
         lit "ToolWindowHandle::" ++ tool_name
           ++ lit "(w) => apply_theme!(w, colors, " ++ theme_type ++ lit ")" in
       let content := replace (pattern ++ lit ";") replacement content in
       replace pattern replacement content)
    tools content.

(** Lines 129-136. *)
Definition update_calls (content : text) : text :=
  fold_left
    (fun content '(tool_name, theme_type) =>
       let var_name := lower tool_name ++ lit "_window" in
       replace (lit "apply_theme!(&" ++ var_name ++ lit ", &colors);")
               (lit "apply_theme!(&" ++ var_name ++ lit ", &colors, "
                  ++ theme_type ++ lit ");")
               content)
    tools content.

Definition fix_conflicts : Script.script unit :=
  content <- Script.read_file ;;
  let content := fix_macro content in
  let parts := split file_sep content in
  let content := rename_loop 0 (tl parts) (hd [] parts) in
  let content := update_arms content in
  let content := update_calls content in
  Script.write_file content.

(** The invocations that [update_arms] and [update_calls] look for. *)
Definition arm_pattern (tool_name : text) : text :=
  lit "ToolWindowHandle::" ++ tool_name ++ lit "(w) => apply_theme!(w, colors)".
Definition call_pattern (tool_name : text) : text :=
  lit "apply_theme!(&" ++ lower tool_name ++ lit "_window, &colors);".

(** The replacements of [update_arms] and of [update_calls], in the order
    in which the script makes them. *)
Definition arm_steps : list (text * text) :=
  flat_map
    (fun '(tool_name, theme_type) =>
       let replacement :=
         lit "ToolWindowHandle::" ++ tool_name
           ++ lit "(w) => apply_theme!(w, colors, " ++ theme_type ++ lit ")" in
       [ (arm_pattern tool_name ++ lit ";", replacement);
         (arm_pattern tool_name, replacement) ])
    tools.

Definition call_steps : list (text * text) :=
  map (fun '(tool_name, theme_type) =>
         (call_pattern tool_name,
          lit "apply_theme!(&" ++ lower tool_name ++ lit "_window, &colors, "
            ++ theme_type ++ lit ");"))
      tools.

End FixConflicts.

(** ** The apply_theme macro of the end-to-end scenario *)

Module MacroScenario.

(** The macro of the scenario, on one line. *)
Definition macro_one_line : text :=
  lit "macro_rules! apply_theme { ($window:expr, $colors:expr) => { BODY }; }".

(** The macro of the scenario with a body of its own, on one line. *)
Definition macro_with (body : text) : text :=
  lit "macro_rules! apply_theme { ($window:expr, $colors:expr) => { "
  ++ body ++ lit " }; }".

(** The texts that fix_build.py and fix_conflicts.py look for in the file,
    the name of the macro apart. *)
Definition searched : list text :=
  [ lit "=> {";
    lit "$window.invoke_set_theme(slint_colors);";
    lit "slint::slint! {";
    lit "let slint_colors = SlintThemeColors {";
    lit "}};" ] ++
  map fst (FixConflicts.arm_steps ++ FixConflicts.call_steps).

(** The macro as fix_tool_windows.py writes it (lines 101-120 of the
    script, in [helper_code]). *)
Definition macro_written : text :=
  lit "macro_rules! apply_theme {
    ($window:expr, $colors:expr) => {
        let slint_colors = SlintThemeColors {
            primary_bg: hex_to_color(&$colors.primary_bg),
            secondary_bg: hex_to_color(&$colors.secondary_bg),
            accent: hex_to_color(&$colors.accent),
            text_primary: hex_to_color(&$colors.text_primary),
            text_secondary: hex_to_color(&$colors.text_secondary),
            border: hex_to_color(&$colors.border),
            menu_bg: hex_to_color(&$colors.menu_bg),
            toolbar_bg: hex_to_color(&$colors.toolbar_bg),
            status_bg: hex_to_color(&$colors.status_bg),
            editor_bg: hex_to_color(&$colors.editor_bg),
            title_bg: hex_to_color(&$colors.title_bg),
            ribbon_bg: hex_to_color(&$colors.ribbon_bg),
            dropdown_bg: hex_to_color(&$colors.dropdown_bg),
        };
        $window.invoke_set_theme(slint_colors);
    };
}
".

(** The macro of the scenario laid out over lines, its body one line. *)
Definition macro_lines : text :=
  lit "macro_rules! apply_theme {
    ($window:expr, $colors:expr) => {
        BODY
    };
}
".

End MacroScenario.

(** ** remove_logs.py *)

Module RemoveLogs.
Local Open Scope script_scope.

Definition println : text := lit "println!".
Definition semicolon : char := 59%N.

(** [[\r\n]] *)
Definition is_eol (c : char) : bool := char_eqb c CR || char_eqb c LF.

(** [.*?;] at the head of [s]: the lazy [.*?] stops at the first semicolon,
    and [.] does not match a line feed.  The result counts the semicolon. *)
Fixpoint to_semicolon (s : text) : option nat :=
  match s with
  | [] => None
  | c :: s' =>
    if char_eqb c semicolon then Some 1
    else if char_eqb c LF then None
    else option_map S (to_semicolon s')
  end.

(** The pattern [^\s*println!.*?;[\r\n]*] under [re.MULTILINE], at the head
    of [s].  [println!] starts with a character outside [\s] and nothing
    follows [[\r\n]*]: both greedy runs are the longest ones. *)
Definition match_println (bol : bool) (s : text) : option nat :=
  if bol then
    let n := Regex.span is_space s in
    let s1 := skipn n s in
    if startswith s1 println then
      let s2 := skipn (List.length println) s1 in
      match to_semicolon s2 with
      | Some k =>
        Some (n + List.length println + k + Regex.span is_eol (skipn k s2))
      | None => None
      end
    else None
  else None.

(** Line 18. *)
Definition strip_println (content : text) : text :=
  Regex.sub match_println [] content.

Definition remove_logs : Script.script unit :=
  content <- Script.read_file ;;
  let new_content := strip_println content in
  Script.write_file new_content ;;
  Script.print
    (lit "Removed println! statements from src/ui/tools/individual_tool_windows.rs").

(** The lines the amended claim is about: one line, not starting with a
    carriage return, with a character that is not whitespace, and either
    not starting with [println!] after its indentation or without a
    semicolon. *)
Definition kept_line (L : text) : bool :=
  negb (existsb (char_eqb LF) L) &&
  match L with
  | c :: _ => negb (is_eol c)
  | [] => false
  end &&
  match lstrip L with
  | [] => false
  | _ :: _ =>
    negb (startswith (lstrip L) println) ||
    negb (existsb (char_eqb semicolon) (lstrip L))
  end.

(** Whether the position after [pre] starts a line, when the position
    before it does or not as [bol] tells. *)
Definition bol_after (bol : bool) (pre : text) : bool :=
  fold_left (fun _ c => char_eqb c LF) pre bol.

(** Four lines: ["a"], a line of one space, a [println!] line, ["b"]. *)
Definition blank_before_println : text :=
  lit "a" ++ LF :: lit " " ++ LF :: lit "println!(x);" ++ LF :: lit "b" ++ [LF].

(** [erased bol s out]: [out] is [s] without some spans, each of which
    starts at the start of a line and is made of whitespace (line breaks
    too), [println!], characters other than the line feed and the semicolon,
    a semicolon, and carriage returns and line feeds.  [bol] tells whether
    [s] starts at the start of a line. *)
Inductive erased : bool -> text -> text -> Prop :=
| erased_nil (bol : bool) : erased bol [] []
| erased_keep (bol : bool) (c : char) (s out : text) :
    erased (char_eqb c LF) s out -> erased bol (c :: s) (c :: out)
| erased_span (ws body eols s out : text) :
    forallb is_space ws = true ->
    existsb (char_eqb LF) body = false ->
    existsb (char_eqb semicolon) body = false ->
    forallb is_eol eols = true ->
    erased (bol_after true (ws ++ println ++ body ++ semicolon :: eols)) s out ->
    erased true (ws ++ println ++ body ++ semicolon :: eols ++ s) out.

(** What may follow a line: the end of the text, or a line feed. *)
Definition line_end (tail : text) : Prop :=
  tail = [] \/ exists post, tail = LF :: post.

End RemoveLogs.

(** ** Occurrences of a pattern around a replacement *)

Module Overlap.

(** [s.endswith(p)] *)
Definition endswith (s p : text) : bool :=
  (List.length p <=? List.length s) &&
  startswith (skipn (List.length s - List.length p) s) p.

(** The characters of [p] between its first and its last. *)
Definition inner (p : text) : text :=
  firstn (List.length p - 2) (skipn 1 p).

(** [apart p N]: putting [N] into a text cannot make an occurrence of [p]:
    [p] does not occur in [N], [N] does not occur inside [p] with characters
    of [p] on both sides, no proper non-empty suffix of [p] starts [N], and
    no proper non-empty prefix of [p] ends [N]. *)
Definition apart (p N : text) : bool :=
  negb (contains p N) &&
  ((List.length p <=? S (List.length N)) || negb (contains N (inner p))) &&
  forallb
    (fun k => negb (startswith N (skipn k p)) && negb (endswith N (firstn k p)))
    (seq 1 (List.length p - 1)).

(** [borderless p]: no proper non-empty suffix of [p] starts [p], so two
    occurrences of [p] never overlap. *)
Definition borderless (p : text) : bool :=
  forallb (fun k => negb (startswith p (skipn k p)))
    (seq 1 (List.length p - 1)).

(** [seams p a b]: no occurrence of [p] can go over the end of [a] or over
    the start of [b], whatever stands between the two: no proper non-empty
    prefix of [p] ends [a], and no proper non-empty suffix of [p] starts
    [b]. *)
Definition seams (p a b : text) : bool :=
  forallb
    (fun k => negb (endswith a (firstn k p)) && negb (startswith b (skipn k p)))
    (seq 1 (List.length p - 1)).

(** The number of places of [s] at which [q] occurs. *)
Fixpoint occurrences (q s : text) : nat :=
  match s with
  | [] => 0
  | _ :: s' => (if startswith s q then 1 else 0) + occurrences q s'
  end.

(** The occurrences of [q] in the lines, taken line by line. *)
Definition occurrences_in (q : text) (lines : list text) : nat :=
  list_sum (map (occurrences q) lines).

(** [untouched q t n]: where [t] starts with a span of [n] characters, no
    occurrence of [q] starts in the span, and none starts before it and
    ends in it or after it. *)
Definition untouched (q t : text) (n : nat) : Prop :=
  (forall i, i < n -> startswith (skipn i t) q = false) /\
  (forall u, u <> [] -> List.length u < List.length q ->
     startswith (u ++ t) q = false).

End Overlap.

(** ** fix_macro_final.py *)

Module FixMacroFinal.
Local Open Scope script_scope.

Definition angle_old : text := lit "let slint_colors = <$theme_type> {".
Definition angle_new : text := lit "let slint_colors = $theme_type {".
Definition invoke : text := lit "$window.invoke_set_theme(slint_colors)".
Definition semicolon : char := 59%N.

(** Lines 11-14. *)
Definition fix_angle (content : text) : text :=
  replace angle_old angle_new content.

(** Lines 23-26. *)
Definition fix_semicolon (content : text) : text :=
  replace invoke (invoke ++ [semicolon]) content.

Definition fix_macro_final : Script.script unit :=
  content <- Script.read_file ;;
  let content := fix_angle content in
  let content := fix_semicolon content in
  Script.write_file content.

End FixMacroFinal.

(** ** patch_theme_listener.py and patch_theme_listener_logs.py *)

Module PatchThemeListener.
Local Open Scope script_scope.

Definition target_block : text :=
  lit "    pub fn new(db_state: Arc<RwLock<DatabaseAppState>>) -> Self {
        Self {
            db_state,
            app_state: Arc::new(Mutex::new(AppState::default())),
            tool_windows: Arc::new(Mutex::new(std::collections::HashMap::new())),
            window_states: Arc::new(Mutex::new(std::collections::HashMap::new())),
        }
    }".

Definition replacement_block : text :=
  lit "    pub fn new(db_state: Arc<RwLock<DatabaseAppState>>) -> Self {
        let manager = Self {
            db_state,
            app_state: Arc::new(Mutex::new(AppState::default())),
            tool_windows: Arc::new(Mutex::new(std::collections::HashMap::new())),
            window_states: Arc::new(Mutex::new(std::collections::HashMap::new())),
        };

        // Register theme change listener
        // This ensures that when the theme changes in the main app,
        // all open tool windows are updated immediately.
        crate::ui::theme_manager::get_theme_manager().on_theme_change(|theme| {
            let colors = theme.colors.clone();
            let _ = slint::invoke_from_event_loop(move || {
                ACTIVE_TOOL_WINDOWS.with(|windows| {
                    for window in windows.borrow().values() {
                        window.apply_theme(&colors);
                    }
                });
            });
        });

        manager
    }".

(** The replacement of patch_theme_listener_logs.py, with its three
    [log::info!] lines. *)
Definition palette : text := [127912%N].

Definition replacement_block_logs : text :=
  lit "    pub fn new(db_state: Arc<RwLock<DatabaseAppState>>) -> Self {
        let manager = Self {
            db_state,
            app_state: Arc::new(Mutex::new(AppState::default())),
            tool_windows: Arc::new(Mutex::new(std::collections::HashMap::new())),
            window_states: Arc::new(Mutex::new(std::collections::HashMap::new())),
        };

        // Register theme change listener
        // This ensures that when the theme changes in the main app,
        // all open tool windows are updated immediately.
        crate::ui::theme_manager::get_theme_manager().on_theme_change(|theme| {
            let colors = theme.colors.clone();
            log::info!(" ++ dq ++ palette ++ lit " [IndividualToolWindowManager] Theme change detected. Scheduling update on main thread." ++ dq ++ lit ");
            let _ = slint::invoke_from_event_loop(move || {
                ACTIVE_TOOL_WINDOWS.with(|windows| {
                    let windows_map = windows.borrow();
                    log::info!(" ++ dq ++ palette ++ lit " [IndividualToolWindowManager] Updating {} active tool windows." ++ dq ++ lit ", windows_map.len());
                    for (tool_type, window) in windows_map.iter() {
                        log::info!(" ++ dq ++ palette ++ lit " [IndividualToolWindowManager] Applying theme to {:?}" ++ dq ++ lit ", tool_type);
                        window.apply_theme(&colors);
                    }
                });
            });
        });

        manager
    }".

(** The loop that ends both scripts: the [n] lines from the first line
    that holds ['pub fn new'] are printed as one text, if there is such a
    line. *)
Fixpoint snippet (n : nat) (lines : list text) : Script.script unit :=
  match lines with
  | [] => Script.ret tt
  | line :: rest =>
    if contains (lit "pub fn new") line
    then Script.print (concat (firstn n lines))
    else snippet n rest
  end.

Definition not_found (n : nat) (lines : list text) : Script.script unit :=
  Script.print (lit "Target block not found. Could not patch file.") ;;
  Script.print (lit "Snippet around expected location:") ;;
  snippet n lines.

(** patch_theme_listener.py.  The loop of lines 22-29 assigns
    [start_index] and does nothing else. *)
Definition patch_theme_listener : Script.script unit :=
  content0 <- Script.read_file ;;
  let lines := readlines content0 in
  let content := concat lines in
  if contains target_block content then
    let new_content := replace target_block replacement_block content in
    Script.write_file new_content ;;
    Script.print (lit "Successfully patched individual_tool_windows.rs")
  else not_found 10 lines.

(** patch_theme_listener_logs.py; [target_block_existing] is the
    replacement of the script above. *)
Definition patch_theme_listener_logs : Script.script unit :=
  content0 <- Script.read_file ;;
  let lines := readlines content0 in
  let content := concat lines in
  if contains target_block content then
    let new_content := replace target_block replacement_block_logs content in
    Script.write_file new_content ;;
    Script.print
      (lit "Successfully patched individual_tool_windows.rs with logging")
  else if contains replacement_block content then
    Script.print
      (lit "Found existing patch without logs. Updating to include logs.") ;;
    let new_content :=
      replace replacement_block replacement_block_logs content in
    Script.write_file new_content ;;
    Script.print (lit "Successfully updated patch with logging")
  else not_found 20 lines.

End PatchThemeListener.

(** ** rewrite_macro.py *)

Module RewriteMacro.
Local Open Scope script_scope.

Definition macro_name : text := lit "macro_rules! apply_theme".

(** The loop of lines 12-17.  [macro_start] is [None] for -1; the result
    is [macro_start] and [macro_end] when the loop ends by its [break], and
    [None] when it ends with [macro_end = -1]. *)
Fixpoint find_macro (i : nat) (macro_start : option nat) (lines : list text)
  : option (nat * nat) :=
  match lines with
  | [] => None
  | line :: rest =>
    let macro_start :=
      if contains macro_name line then Some i else macro_start in
    match macro_start with
    | Some ms =>
      if text_eqb (strip line) (lit "}") && (ms <? i)
      then Some (ms, i)
      else find_macro (S i) macro_start rest
    | None => find_macro (S i) macro_start rest
    end
  end.

Definition new_macro : list text :=
  [ lit "macro_rules! apply_theme {
";
    lit "    ($window:expr, $colors:expr, $theme_type:path) => {{
";
    lit "        let slint_colors = $theme_type {
";
    lit "            primary_bg: hex_to_color(&$colors.primary_bg),
";
    lit "            secondary_bg: hex_to_color(&$colors.secondary_bg),
";
    lit "            accent: hex_to_color(&$colors.accent),
";
    lit "            text_primary: hex_to_color(&$colors.text_primary),
";
    lit "            text_secondary: hex_to_color(&$colors.text_secondary),
";
    lit "            border: hex_to_color(&$colors.border),
";
    lit "            menu_bg: hex_to_color(&$colors.menu_bg),
";
    lit "            toolbar_bg: hex_to_color(&$colors.toolbar_bg),
";
    lit "            status_bg: hex_to_color(&$colors.status_bg),
";
    lit "            editor_bg: hex_to_color(&$colors.editor_bg),
";
    lit "            title_bg: hex_to_color(&$colors.title_bg),
";
    lit "            ribbon_bg: hex_to_color(&$colors.ribbon_bg),
";
    lit "            dropdown_bg: hex_to_color(&$colors.dropdown_bg),
";
    lit "        };
";
    lit "        $window.invoke_set_theme(slint_colors);
";
    lit "    }};
";
    lit "}
" ].

(** Lines 19-47: the lines from [macro_start] to [macro_end] are replaced
    and the file is written, only when both were found. *)
Definition rewrite_macro : Script.script unit :=
  content <- Script.read_file ;;
  let lines := readlines content in
  match find_macro 0 None lines with
  | Some (macro_start, macro_end) =>
    let lines :=
      firstn macro_start lines ++ new_macro ++ skipn (macro_end + 1) lines in
    Script.write_file (concat lines)
  | None => Script.ret tt
  end.

(** A line with its line feed at its end and nowhere else. *)
Definition closed_line (l : text) : bool :=
  text_eqb (skipn (Regex.span (fun c => negb (char_eqb c LF)) l) l) [LF].

(** A non-empty text without line feed. *)
Definition open_line (l : text) : bool :=
  match l with
  | [] => false
  | _ :: _ => forallb (fun c => negb (char_eqb c LF)) l
  end.

(** The lines of a text: closed lines, the last one closed or open. *)
Fixpoint line_list (lines : list text) : bool :=
  match lines with
  | [] => true
  | [l] => closed_line l || open_line l
  | l :: rest => closed_line l && line_list rest
  end.

End RewriteMacro.

(** ** Chains of literal replacements *)

Module Chain.
Import Overlap.

(** [content = content.replace(old, new)] for each step in turn. *)
Definition replace_all (steps : list (text * text)) (s : text) : text :=
  fold_left (fun s '(old, new) => replace old new s) steps s.

Definition nonempty (old : text) : bool :=
  match old with
  | [] => false
  | _ :: _ => true
  end.

(** No step of [steps] can make an occurrence of [p]. *)
Definition stays_out (p : text) (steps : list (text * text)) : bool :=
  forallb (fun '(old, new) => nonempty old && apart p new) steps.

(** A step of [steps] replaces [p] by a text [apart] from it, and no later
    step can make an occurrence of [p]. *)
Fixpoint taken_out (p : text) (steps : list (text * text)) : bool :=
  match steps with
  | [] => false
  | (old, new) :: rest =>
    (text_eqb old p && apart p new && stays_out p rest) || taken_out p rest
  end.

(** Every step leaves the occurrences of [p] alone, or replaces [p] by a
    text in which it occurs. *)
Definition survives (p : text) (steps : list (text * text)) : bool :=
  forallb
    (fun '(old, new) =>
       nonempty old && (apart p old || (text_eqb old p && contains p new)))
    steps.

(** No step makes the text shorter. *)
Definition widens (steps : list (text * text)) : bool :=
  forallb
    (fun '(old, new) => nonempty old && (List.length old <=? List.length new))
    steps.

(** No step makes the text shorter, the steps before the one for [p] leave
    its occurrences alone, and that one replaces [p] by a longer text. *)
Fixpoint grows_at (p : text) (steps : list (text * text)) : bool :=
  match steps with
  | [] => false
  | (old, new) :: rest =>
    nonempty old && (List.length old <=? List.length new) &&
    ((text_eqb old p && (List.length old <? List.length new) && widens rest)
     || (apart p old && grows_at p rest))
  end.

(** Every step puts as many braces of each kind as it takes. *)
Definition keeps_braces (steps : list (text * text)) : bool :=
  forallb
    (fun '(old, new) =>
       nonempty old &&
       text_eqb (filter RefactorModules.is_brace old)
                (filter RefactorModules.is_brace new))
    steps.

End Chain.

(** ** fix_modules_final.py *)

Module FixModulesFinal.
Local Open Scope script_scope.

Definition tools : list (text * text) :=
  [ (lit "Hierarchy", lit "hierarchy");
    (lit "Codex", lit "codex");
    (lit "Brainstorming", lit "brainstorming");
    (lit "Analysis", lit "analysis");
    (lit "Plot", lit "plot");
    (lit "Notes", lit "notes");
    (lit "Research", lit "research");
    (lit "Structure", lit "structure") ].

Definition header_path : text :=
  lit "($window:expr, $colors:expr, $theme_type:path) => {{".
Definition header_ident : text :=
  lit "($window:expr, $colors:expr, $mod_name:ident) => {{".
Definition colors_path : text := lit "let slint_colors = $theme_type {".
Definition colors_ident : text :=
  lit "let slint_colors = $mod_name::SlintThemeColors {".

(** Lines 12-23. *)
Definition update_macro (content : text) : text :=
  let content := replace header_path header_ident content in
  replace colors_path colors_ident content.

(** The two patterns of the loop body, lines 42 and 49.  Their only escapes
    are the parentheses and the replacements hold no backslash: [re.sub] is
    [str.replace] there. *)
Definition arm_pattern (mod_name : text) : text :=
  lit "apply_theme!(w, colors, " ++ mod_name ++ lit "::SlintThemeColors)".
Definition arm_replacement (mod_name : text) : text :=
  lit "apply_theme!(w, colors, " ++ mod_name ++ lit ")".
Definition call_pattern (tool_name mod_name : text) : text :=
  let var_name := lower tool_name ++ lit "_window" in
  lit "apply_theme!(&" ++ var_name ++ lit ", &colors, " ++ mod_name
    ++ lit "::SlintThemeColors);".
Definition call_replacement (tool_name mod_name : text) : text :=
  let var_name := lower tool_name ++ lit "_window" in
  lit "apply_theme!(&" ++ var_name ++ lit ", &colors, " ++ mod_name ++ lit ");".

(** Lines 39-52. *)
Definition update_calls (content : text) : text :=
  fold_left
    (fun content '(tool_name, mod_name) =>
       let content :=
         replace (arm_pattern mod_name) (arm_replacement mod_name) content in
       replace (call_pattern tool_name mod_name)
               (call_replacement tool_name mod_name) content)
    tools content.

Definition constructor (tool_name : text) : text :=
  tool_name ++ lit "ToolWindow::new()".

(** Lines 57-61. *)
Definition qualify (content : text) : text :=
  fold_left
    (fun content '(tool_name, mod_name) =>
       replace (constructor tool_name)
               (mod_name ++ lit "::" ++ constructor tool_name) content)
    tools content.

Definition fix_modules_final : Script.script unit :=
  content <- Script.read_file ;;
  let content := update_macro content in
  let content := update_calls content in
  let content := qualify content in
  Script.write_file content.

(** The replacements of the script, in the order in which it makes them. *)
Definition macro_steps : list (text * text) :=
  [ (header_path, header_ident); (colors_path, colors_ident) ].

Definition call_steps : list (text * text) :=
  flat_map
    (fun '(tool_name, mod_name) =>
       [ (arm_pattern mod_name, arm_replacement mod_name);
         (call_pattern tool_name mod_name,
          call_replacement tool_name mod_name) ])
    tools.

Definition qualify_steps : list (text * text) :=
  map (fun '(tool_name, mod_name) =>
         (constructor tool_name, mod_name ++ lit "::" ++ constructor tool_name))
      tools.

Definition steps : list (text * text) :=
  macro_steps ++ call_steps ++ qualify_steps.

End FixModulesFinal.

(** ** fix_slint.py *)

Module FixSlint.
Local Open Scope script_scope.

Definition plus_sign : text := [10133%N].
Definition inbox : text := [128229%N].
Definition magnifier : text := [128269%N].
Definition bar_chart : text := [128202%N].
Definition rising_chart : text := [128200%N].
Definition outbox : text := [128228%N].

Definition controls : text := lit "// Research Controls".
Definition box : text := lit "HorizontalBox".
Definition open_brace : char := 123%N.
Definition slash : char := 47%N.
Definition component : text := lit "export component StructureTool".

(** [// Research Controls\s+HorizontalBox\s*\{] at the head of [s].  Each
    run of whitespace is greedy and is followed by a character outside
    [\s]: it is the longest run.  The result is the length of the match. *)
Definition match_head (s : text) : option nat :=
  if startswith s controls then
    let s1 := skipn (List.length controls) s in
    let n1 := Regex.span is_space s1 in
    let s2 := skipn n1 s1 in
    if (0 <? n1) && startswith s2 box then
      let s3 := skipn (List.length box) s2 in
      let n2 := Regex.span is_space s3 in
      match skipn n2 s3 with
      | c :: _ =>
        if char_eqb c open_brace
        then Some (List.length controls + n1 + List.length box + n2 + 1)
        else None
      | [] => None
      end
    else None
  else None.

(** [research_pattern]: after the head, the lazy [[\s\S]*?] ends at the
    first [export component StructureTool]. *)
Definition match_research (_ : bool) (s : text) : option nat :=
  match match_head s with
  | Some h =>
    match find_index component (skipn h s) with
    | Some k => Some (h + k + List.length component)
    | None => None
    end
  | None => None
  end.

Definition research_replacement : text :=
  lit "// Research Controls
                    HorizontalBox {
                        ToolbarButton { text: " ++ dq ++ plus_sign ++ lit " Add Source" ++ dq ++ lit "; }
                        ToolbarButton { text: " ++ dq ++ inbox ++ lit " Import" ++ dq ++ lit "; }
                        ToolbarButton { text: " ++ dq ++ magnifier ++ lit " Find Sources" ++ dq ++ lit "; }
                    }

                    HorizontalBox {
                        ToolbarButton { text: " ++ dq ++ bar_chart ++ lit " Research Plan" ++ dq ++ lit "; }
                        ToolbarButton { text: " ++ dq ++ rising_chart ++ lit " Progress" ++ dq ++ lit "; }
                        ToolbarButton { text: " ++ dq ++ outbox ++ lit " Citation" ++ dq ++ lit "; }
                    }

                    StandardButton {
                        kind: close;
                    }
                }
            }
        }
    }
}

// Structure Tool Window Component
export component StructureTool".

Definition fix_slint : Script.script unit :=
  content <- Script.read_file ;;
  let content := Regex.sub match_research research_replacement content in
  Script.write_file content ;;
  Script.print (lit "Fixed writing_tools.slint").

End FixSlint.

(** ** Patterns of characters and dots *)

Module Pattern.

(** A character of a pattern: itself, or the dot, which stands for any
    character but the line feed. *)
Inductive item : Type :=
| Lit (c : char)
| Dot.

Definition literal (t : text) : list item := map Lit t.

Fixpoint match_items (p : list item) (s : text) : bool :=
  match p, s with
  | [], _ => true
  | _ :: _, [] => false
  | Lit a :: p', c :: s' => char_eqb c a && match_items p' s'
  | Dot :: p', c :: s' => negb (char_eqb c LF) && match_items p' s'
  end.

(** A pattern of characters and dots at the head of [s]. *)
Definition match_line (p : list item) (_ : bool) (s : text) : option nat :=
  if match_items p s then Some (List.length p) else None.

(** [q] can be read at the head of a text that matches [p], as far as the
    two go together. *)
Fixpoint compatible (p : list item) (q : text) : bool :=
  match p, q with
  | [], _ => true
  | _ :: _, [] => true
  | Lit a :: p', c :: q' => char_eqb c a && compatible p' q'
  | Dot :: p', _ :: q' => compatible p' q'
  end.

(** No occurrence of [q] in a text shares a character with a match of [p]:
    [q] cannot start inside the match, and cannot start before it and end
    inside or after it. *)
Definition clear_of (q : text) (p : list item) : bool :=
  forallb (fun i => negb (compatible (skipn i p) q)) (seq 0 (List.length p)) &&
  forallb (fun e => negb (compatible p (skipn e q)))
    (seq 1 (List.length q - 1)).

End Pattern.

(** ** fix_imports.py *)

Module FixImports.
Local Open Scope script_scope.
Import Pattern.

Definition close_brace : char := 125%N.

Definition struct_head : text := lit "    struct SlintThemeColors {".

(** [    struct SlintThemeColors \{[^}]+\}\n] at the head of [s]: the run
    of [[^}]+] is greedy and can only end before a close brace. *)
Definition match_struct (_ : bool) (s : text) : option nat :=
  if startswith s struct_head then
    let s1 := skipn (List.length struct_head) s in
    let n := Regex.span (fun c => negb (char_eqb c close_brace)) s1 in
    if (0 <? n) && startswith (skipn n s1) [close_brace; LF]
    then Some (List.length struct_head + n + 2)
    else None
  else None.

(** ["../styles.slint";\n] as the patterns have it: the dots are not
    escaped. *)
Definition from_styles : list item :=
  literal dq ++ [Dot; Dot] ++ literal (lit "/styles") ++ [Dot]
    ++ literal (lit "slint" ++ dq ++ lit ";" ++ [LF]).

Definition theme_head : text := lit "    import { Theme } from ".
Definition colors_head : text := lit "    import { SlintThemeColors } from ".
Definition both_head : text :=
  lit "    import { Theme, SlintThemeColors } from ".

Definition std_widgets : text :=
  lit "    import { Button, TextEdit, ScrollView, HorizontalBox, VerticalBox } from "
    ++ dq ++ lit "std-widgets.slint" ++ dq ++ lit ";".

Definition replacement : text :=
  lit "    import { Button, TextEdit, ScrollView, HorizontalBox, VerticalBox } from "
    ++ dq ++ lit "std-widgets.slint" ++ dq ++ lit ";
    import { Theme } from " ++ dq ++ lit "../styles.slint" ++ dq ++ lit ";
    import { SlintThemeColors } from " ++ dq ++ lit "../theme_types.slint"
    ++ dq ++ lit ";".

(** Lines 16-28. *)
Definition remove_imports (content : text) : text :=
  let content := Regex.sub match_struct [] content in
  let content :=
    Regex.sub (match_line (literal theme_head ++ from_styles)) [] content in
  let content :=
    Regex.sub (match_line (literal colors_head ++ from_styles)) [] content in
  Regex.sub (match_line (literal both_head ++ from_styles)) [] content.

Definition fix_imports : Script.script unit :=
  content <- Script.read_file ;;
  let content := remove_imports content in
  let content := replace std_widgets replacement content in
  Script.write_file content.

(** The texts without which no pattern of [remove_imports] matches. *)
Definition heads : list text :=
  [struct_head; theme_head; colors_head; both_head].

(** The import that the script adds last. *)
Definition colors_import : text :=
  lit "import { SlintThemeColors } from " ++ dq ++ lit "../theme_types.slint"
    ++ dq ++ lit ";".

(** Every close brace of [q] is followed, in [q], by a character that is
    not the line feed. *)
Fixpoint guarded (q : text) : bool :=
  match q with
  | [] => true
  | c :: q' =>
    (if char_eqb c close_brace
     then match q' with
          | d :: _ => negb (char_eqb d LF)
          | [] => false
          end
     else true) && guarded q'
  end.

(** The same for the matches of [match_struct]: [q] holds a close brace,
    none of them followed by a line feed or at its end, does not start with
    a line feed, and cannot start before the match. *)
Definition clear_of_struct (q : text) : bool :=
  existsb (fun c => char_eqb c close_brace) q && guarded q &&
  match q with
  | c :: _ => negb (char_eqb c LF)
  | [] => false
  end &&
  forallb (fun e => negb (compatible (literal struct_head) (skipn e q)))
    (seq 1 (List.length q - 1)).

End FixImports.

(** ** The first match of a pattern that does not look at line starts *)

Module Matches.

(** Where the first match of [m] in [s] starts, and its length. *)
Fixpoint first_match (m : text -> option nat) (s : text)
  : option (nat * nat) :=
  match s with
  | [] => None
  | _ :: s' =>
    match m s with
    | Some (S n) => Some (0, S n)
    | _ =>
      match first_match m s' with
      | Some (i, n) => Some (S i, n)
      | None => None
      end
    end
  end.

End Matches.

(** ** fix_tool_windows.py, lines 20-284 *)

Module ToolWindowEdits.
Local Open Scope script_scope.

Definition rocket : text := [128640%N].
Definition warning_sign : text := [9888%N; 65039%N].

Definition imports_to_add : text :=
  lit "use std::cell::RefCell;
use std::collections::HashMap;
use slint::ComponentHandle;
use crate::ui::theme_manager::{get_current_theme_colors, ThemeColors};".

(** Lines 26-27. *)
Definition add_imports (content_without_macro : text) : text :=
  if contains (lit "use slint::ComponentHandle;") content_without_macro
  then content_without_macro
  else replace (lit "use tokio::sync::RwLock;")
               (lit "use tokio::sync::RwLock;" ++ [LF] ++ imports_to_add)
               content_without_macro.

Definition slint_struct : text :=
  lit "
    export struct SlintThemeColors {
        primary-bg: color,
        secondary-bg: color,
        accent: color,
        text-primary: color,
        text-secondary: color,
        border: color,
        menu-bg: color,
        toolbar-bg: color,
        status-bg: color,
        editor-bg: color,
        title-bg: color,
        ribbon-bg: color,
        dropdown-bg: color,
    }
".

Definition callback_code : text :=
  lit "
        callback close_requested();
        callback set_theme(SlintThemeColors);
        set_theme(c) => {
            Theme.primary-bg = c.primary-bg;
            Theme.secondary-bg = c.secondary-bg;
            Theme.accent = c.accent;
            Theme.text-primary = c.text-primary;
            Theme.text-secondary = c.text-secondary;
            Theme.border = c.border;
            Theme.menu-bg = c.menu-bg;
            Theme.toolbar-bg = c.toolbar-bg;
            Theme.status-bg = c.status-bg;
            Theme.editor-bg = c.editor-bg;
            Theme.title-bg = c.title-bg;
            Theme.ribbon-bg = c.ribbon-bg;
            Theme.dropdown-bg = c.dropdown-bg;
        }
".

Definition theme_import : text :=
  lit "import { Theme } from " ++ dq ++ lit "../styles.slint" ++ dq ++ lit ";".
Definition close_requested : text := lit "callback close_requested();".

(** Lines 49-80. *)
Definition edit_slint (slint_content : text) : text :=
  let slint_content :=
    replace theme_import (theme_import ++ slint_struct) slint_content in
  let slint_content :=
    replace close_requested (strip callback_code) slint_content in
  let slint_content :=
    replace (lit "background: #2d3748;") (lit "background: Theme.menu-bg;")
      slint_content in
  let slint_content :=
    replace (lit "background: #4a5568;") (lit "background: Theme.status-bg;")
      slint_content in
  let slint_content :=
    replace (lit "background: #ffffff;") (lit "background: Theme.primary-bg;")
      slint_content in
  replace (lit "color: white;") (lit "color: Theme.text-primary;")
    slint_content.

Definition helper_code : text :=
  lit "
fn hex_to_color(hex: &str) -> slint::Color {
    let hex = hex.trim_start_matches('#');
    if let Ok(val) = u32::from_str_radix(hex, 16) {
        let r = ((val >> 16) & 0xFF) as u8;
        let g = ((val >> 8) & 0xFF) as u8;
        let b = (val & 0xFF) as u8;
        slint::Color::from_rgb_u8(r, g, b)
    } else {
        slint::Color::from_rgb_u8(255, 255, 255)
    }
}

// Macro to apply theme to any window via invoke_set_theme
macro_rules! apply_theme {
    ($window:expr, $colors:expr) => {
        let slint_colors = SlintThemeColors {
            primary_bg: hex_to_color(&$colors.primary_bg),
            secondary_bg: hex_to_color(&$colors.secondary_bg),
            accent: hex_to_color(&$colors.accent),
            text_primary: hex_to_color(&$colors.text_primary),
            text_secondary: hex_to_color(&$colors.text_secondary),
            border: hex_to_color(&$colors.border),
            menu_bg: hex_to_color(&$colors.menu_bg),
            toolbar_bg: hex_to_color(&$colors.toolbar_bg),
            status_bg: hex_to_color(&$colors.status_bg),
            editor_bg: hex_to_color(&$colors.editor_bg),
            title_bg: hex_to_color(&$colors.title_bg),
            ribbon_bg: hex_to_color(&$colors.ribbon_bg),
            dropdown_bg: hex_to_color(&$colors.dropdown_bg),
        };
        $window.invoke_set_theme(slint_colors);
    };
}

enum ToolWindowHandle {
    Hierarchy(HierarchyToolWindow),
    Codex(CodexToolWindow),
    Brainstorming(BrainstormingToolWindow),
    Analysis(AnalysisToolWindow),
    Plot(PlotToolWindow),
    Notes(NotesToolWindow),
    Research(ResearchToolWindow),
    Structure(StructureToolWindow),
}

impl ToolWindowHandle {
    fn hide(&self) -> Result<(), slint::PlatformError> {
        match self {
            ToolWindowHandle::Hierarchy(w) => w.hide(),
            ToolWindowHandle::Codex(w) => w.hide(),
            ToolWindowHandle::Brainstorming(w) => w.hide(),
            ToolWindowHandle::Analysis(w) => w.hide(),
            ToolWindowHandle::Plot(w) => w.hide(),
            ToolWindowHandle::Notes(w) => w.hide(),
            ToolWindowHandle::Research(w) => w.hide(),
            ToolWindowHandle::Structure(w) => w.hide(),
        }
    }

    fn show(&self) -> Result<(), slint::PlatformError> {
        match self {
            ToolWindowHandle::Hierarchy(w) => w.show(),
            ToolWindowHandle::Codex(w) => w.show(),
            ToolWindowHandle::Brainstorming(w) => w.show(),
            ToolWindowHandle::Analysis(w) => w.show(),
            ToolWindowHandle::Plot(w) => w.show(),
            ToolWindowHandle::Notes(w) => w.show(),
            ToolWindowHandle::Research(w) => w.show(),
            ToolWindowHandle::Structure(w) => w.show(),
        }
    }
    
    fn apply_theme(&self, colors: &ThemeColors) {
        match self {
            ToolWindowHandle::Hierarchy(w) => apply_theme!(w, colors),
            ToolWindowHandle::Codex(w) => apply_theme!(w, colors),
            ToolWindowHandle::Brainstorming(w) => apply_theme!(w, colors),
            ToolWindowHandle::Analysis(w) => apply_theme!(w, colors),
            ToolWindowHandle::Plot(w) => apply_theme!(w, colors),
            ToolWindowHandle::Notes(w) => apply_theme!(w, colors),
            ToolWindowHandle::Research(w) => apply_theme!(w, colors),
            ToolWindowHandle::Structure(w) => apply_theme!(w, colors),
        }
    }
}

thread_local! {
    static ACTIVE_TOOL_WINDOWS: RefCell<HashMap<ToolType, ToolWindowHandle>> = RefCell::new(HashMap::new());
}
".

Definition manager_doc : text :=
  lit "/// Individual tool window manager for each writing tool".

(** Lines 179-182. *)
Definition add_helpers (content_without_macro : text) : text :=
  if contains (lit "static ACTIVE_TOOL_WINDOWS") content_without_macro
  then content_without_macro
  else replace manager_doc (helper_code ++ [LF] ++ manager_doc)
         content_without_macro.

Definition tools : list (text * text * text) :=
  [ (lit "Hierarchy", lit "hierarchy", lit "Hierarchy");
    (lit "Codex", lit "codex", lit "Codex");
    (lit "Brainstorming", lit "brainstorming", lit "Brainstorming");
    (lit "Analysis", lit "analysis", lit "Analysis");
    (lit "Plot", lit "plot", lit "Plot");
    (lit "Notes", lit "notes", lit "Notes");
    (lit "Research", lit "research", lit "Research");
    (lit "Structure", lit "structure", lit "Structure") ].

(** The texts of a pattern, after the first one: each comes after a run of
    [\s+].  It starts with a character outside [\s], so that the greedy run
    is the longest one. *)
Fixpoint match_rest (segs : list text) (s : text) : option nat :=
  match segs with
  | [] => Some 0
  | seg :: segs' =>
    let n := Regex.span is_space s in
    let s1 := skipn n s in
    if (0 <? n) && startswith s1 seg then
      match match_rest segs' (skipn (List.length seg) s1) with
      | Some k => Some (n + List.length seg + k)
      | None => None
      end
    else None
  end.

(** A pattern made of literal texts with [\s+] between them, at the head of
    [s]. *)
Definition match_segments (segs : list text) (_ : bool) (s : text)
  : option nat :=
  match segs with
  | [] => None
  | seg :: segs' =>
    if startswith s seg then
      match match_rest segs' (skipn (List.length seg) s) with
      | Some k => Some (List.length seg + k)
      | None => None
      end
    else None
  end.

(** [re.sub(pattern, repl, s, count=1)], behind [if re.search(pattern, s)]. *)
Definition sub_first (m : bool -> text -> option nat) (repl s : text) : text :=
  match Matches.first_match (m true) s with
  | Some (i, n) => firstn i s ++ repl ++ skipn (i + n) s
  | None => s
  end.

(** Lines 198-207. *)
Definition pattern1 (tool_name tool_var : text) : list text :=
  [ lit "fn open_" ++ tool_var ++ lit "_window(&self) -> Result<()> {";
    lit "println!(" ++ dq ++ rocket ++ lit " Opening " ++ tool_name ++ lit " Tool Window" ++ dq ++ lit ");";
    lit "// Create Slint window for " ++ tool_name ++ lit " tool";
    lit "let " ++ tool_var ++ lit "_window = " ++ tool_name ++ lit "ToolWindow::new()?;";
    lit "// Set up callbacks";
    tool_var ++ lit "_window.on_close_requested(move || {";
    lit "// Simple close action for now";
    lit "});" ].

(** Lines 209-248. *)
Definition replacement1 (tool_name tool_var tool_type : text) : text :=
  lit "    /// Open " ++ tool_name ++ lit " tool window
    fn open_" ++ tool_var ++ lit "_window(&self) -> Result<()> {
        println!(" ++ dq ++ rocket ++ lit " Opening " ++ tool_name ++ lit " Tool Window" ++ dq ++ lit ");

        // Get current theme colors
        let colors = get_current_theme_colors();

        // Check if already open in this thread
        let is_open = ACTIVE_TOOL_WINDOWS.with(|windows| {
            if let Some(window) = windows.borrow().get(&ToolType::" ++ tool_type ++ lit ") {
                println!(" ++ dq ++ warning_sign ++ lit " " ++ tool_name ++ lit " tool window already open - showing it" ++ dq ++ lit ");
                let _ = window.show();
                // Also update theme on existing window
                window.apply_theme(&colors);
                true
            } else {
                false
            }
        });

        if is_open {
            return Ok(());
        }

        // Create Slint window for " ++ tool_name ++ lit " tool
        let " ++ tool_var ++ lit "_window = " ++ tool_name ++ lit "ToolWindow::new()?;
        
        // Apply theme
        apply_theme!(&" ++ tool_var ++ lit "_window, &colors);

        // Set up callbacks
        let window_weak = " ++ tool_var ++ lit "_window.as_weak();
        " ++ tool_var ++ lit "_window.on_close_requested(move || {
            ACTIVE_TOOL_WINDOWS.with(|windows| {
                windows.borrow_mut().remove(&ToolType::" ++ tool_type ++ lit ");
            });
            if let Some(window) = window_weak.upgrade() {
                window.hide().unwrap();
            }
        });".

(** Lines 253-259. *)
Definition pattern2 (tool_var tool_type : text) : list text :=
  [ lit "// Show the window";
    tool_var ++ lit "_window.run()?;";
    lit "// Store weak reference";
    lit "let mut windows = self.tool_windows.lock().unwrap();";
    lit "windows.insert(ToolType::" ++ tool_type ++ lit ", true);" ].

(** Lines 261-271. *)
Definition replacement2 (tool_name tool_var tool_type : text) : text :=
  lit "        // Show the window (non-blocking)
        " ++ tool_var ++ lit "_window.show()?;

        // Store handle to keep it alive
        ACTIVE_TOOL_WINDOWS.with(|windows| {
            windows.borrow_mut().insert(ToolType::" ++ tool_type ++ lit ", ToolWindowHandle::" ++ tool_name ++ lit "(" ++ tool_var ++ lit "_window));
        });

        // Store weak reference
        let mut windows = self.tool_windows.lock().unwrap();
        windows.insert(ToolType::" ++ tool_type ++ lit ", true);".

(** Lines 197-274. *)
Definition update_methods (content_without_macro : text) : text :=
  fold_left
    (fun content_without_macro '(tool_name, tool_var, tool_type) =>
       let content_without_macro :=
         sub_first (match_segments (pattern1 tool_name tool_var))
           (replacement1 tool_name tool_var tool_type)
           content_without_macro in
       sub_first (match_segments (pattern2 tool_var tool_type))
         (replacement2 tool_name tool_var tool_type)
         content_without_macro)
    tools content_without_macro.

(** The highest index at which [p] occurs in [s], if any. *)
Fixpoint rfind_index (p s : text) : option nat :=
  match s with
  | [] => if startswith [] p then Some 0 else None
  | _ :: s' =>
    match rfind_index p s' with
    | Some i => Some (S i)
    | None => if startswith s p then Some 0 else None
    end
  end.

(** [s.rfind(p)]: the highest index, or -1. *)
Definition py_rfind (p s : text) : Z :=
  match rfind_index p s with
  | Some i => Z.of_nat i
  | None => (-1)%Z
  end.

(** [s.find(p, start)]: a negative [start] counts from the end of [s], and
    not below its start; past the end nothing is found. *)
Definition py_find_from (p : text) (start : Z) (s : text) : Z :=
  let len := Z.of_nat (List.length s) in
  let start := if (start <? 0)%Z then Z.max 0 (start + len) else start in
  if (len <? start)%Z then (-1)%Z
  else match find_index p (skipn (Z.to_nat start) s) with
       | Some i => (start + Z.of_nat i)%Z
       | None => (-1)%Z
       end.

(** Lines 280-284. *)
Definition assemble (content_without_macro slint_content : text) : text :=
  let last_import_idx := py_rfind (lit "use ") content_without_macro in
  let end_of_import_line :=
    (py_find_from (lit ";") last_import_idx content_without_macro + 1)%Z in
  firstn (Z.to_nat end_of_import_line) content_without_macro
    ++ [LF; LF] ++ slint_content ++ [LF; LF]
    ++ skipn (Z.to_nat end_of_import_line) content_without_macro.

(** Lines 20-284, as a function of the two halves of the file. *)
Definition edits (content_without_macro slint_content : text) : text :=
  let content_without_macro := add_imports content_without_macro in
  let slint_content := edit_slint slint_content in
  let content_without_macro := add_helpers content_without_macro in
  let content_without_macro := update_methods content_without_macro in
  assemble content_without_macro slint_content.

Definition fix_tool_windows : Script.script unit :=
  FixToolWindows.fix_tool_windows edits.

Definition slint_macro : text := lit "slint::slint! {".

(** The argument of the callback that [callback_code] declares. *)
Definition theme_argument : text := lit "(SlintThemeColors)".

(** The replacements of [edit_slint] after the first two. *)
Definition color_steps : list (text * text) :=
  [ (lit "background: #2d3748;", lit "background: Theme.menu-bg;");
    (lit "background: #4a5568;", lit "background: Theme.status-bg;");
    (lit "background: #ffffff;", lit "background: Theme.primary-bg;");
    (lit "color: white;", lit "color: Theme.text-primary;") ].

(** The replacements of [edit_slint], in order. *)
Definition slint_steps : list (text * text) :=
  (theme_import, theme_import ++ slint_struct)
    :: (close_requested, strip callback_code) :: color_steps.

(** No occurrence of [q] shares a character with a match of the texts
    [segs] with whitespace between them: [q] is not empty, holds no
    whitespace, and is clear of each text. *)
Definition clear_of_segments (q : text) (segs : list text) : bool :=
  Chain.nonempty q && forallb (fun c => negb (is_space c)) q &&
  forallb (fun seg => Pattern.clear_of q (Pattern.literal seg)) segs.

End ToolWindowEdits.

(* ================================================================== *)
(** * Part II: lemmas and theorems *)
(* ================================================================== *)

(** ** The [str] methods *)

Lemma char_eqb_eq (a b : char) : char_eqb a b = true <-> a = b.
Proof. apply N.eqb_eq. Qed.

Lemma char_eqb_refl (a : char) : char_eqb a a = true.
Proof. apply N.eqb_refl. Qed.

Lemma startswith_app (p r : text) : startswith (p ++ r) p = true.
Proof.
  induction p as [|a p IH]; simpl; [reflexivity|].
  now rewrite char_eqb_refl, IH.
Qed.

Lemma startswith_inv (s p : text) :
  startswith s p = true -> s = p ++ skipn (List.length p) s.
Proof.
  revert s. induction p as [|a p IH]; intros s H; simpl in *; [reflexivity|].
  destruct s as [|b s]; [discriminate|].
  apply andb_true_iff in H as [Hab Hs].
  apply char_eqb_eq in Hab. subst b. simpl. f_equal. now apply IH.
Qed.

Lemma startswith_spec (s p : text) :
  startswith s p = true <-> exists r, s = p ++ r.
Proof.
  split.
  - intros H. eexists. now apply startswith_inv.
  - intros [r ->]. apply startswith_app.
Qed.

Lemma contains_startswith (p s : text) :
  startswith s p = true -> contains p s = true.
Proof. intros H. destruct s; simpl in *; now rewrite H. Qed.

Lemma contains_cons (p : text) (c : char) (s : text) :
  contains p (c :: s) = startswith (c :: s) p || contains p s.
Proof. reflexivity. Qed.

Lemma contains_spec (p s : text) :
  contains p s = true <-> exists a b, s = a ++ p ++ b.
Proof.
  split.
  - induction s as [|c s IH]; intros H.
    + simpl in H. rewrite orb_false_r in H.
      apply startswith_spec in H as [r Hr]. now exists [], r.
    + rewrite contains_cons in H. apply orb_true_iff in H as [H|H].
      * apply startswith_spec in H as [r Hr]. now exists [], r.
      * destruct (IH H) as (a & b & ->). now exists (c :: a), b.
  - intros (a & b & ->). induction a as [|c a IH].
    + simpl app. apply contains_startswith, startswith_app.
    + simpl app. rewrite contains_cons, IH. apply orb_true_r.
Qed.

Lemma find_index_None (p s : text) :
  find_index p s = None <-> contains p s = false.
Proof.
  induction s as [|c s IH]; simpl.
  - destruct (startswith [] p); simpl; split; congruence.
  - destruct (startswith (c :: s) p); simpl; [split; congruence|].
    rewrite <- IH. destruct (find_index p s); simpl; split; congruence.
Qed.

Lemma find_index_Some (p s : text) (i : nat) :
  find_index p s = Some i ->
  startswith (skipn i s) p = true /\ i <= List.length s /\
  forall j, j < i -> startswith (skipn j s) p = false.
Proof.
  revert i. induction s as [|c s IH]; intros i; simpl.
  - destruct (startswith [] p) eqn:E; [|discriminate].
    intros [= <-]. simpl. repeat split; [assumption|lia..].
  - destruct (startswith (c :: s) p) eqn:E.
    + intros [= <-]. simpl. repeat split; [assumption|lia..].
    + destruct (find_index p s) as [k|]; simpl; [|discriminate].
      intros [= <-]. destruct (IH k eq_refl) as (H1 & H2 & H3).
      simpl. repeat split; [assumption|lia|].
      intros [|j] Hj; simpl; [assumption|]. apply H3. lia.
Qed.

(** The text splits around the first occurrence. *)
Lemma find_index_split (p s : text) (i : nat) :
  find_index p s = Some i ->
  s = firstn i s ++ p ++ skipn (i + List.length p) s.
Proof.
  intros H. apply find_index_Some in H as (H & _ & _).
  apply startswith_inv in H. rewrite skipn_skipn in H.
  rewrite <- (firstn_skipn i s) at 1. f_equal.
  now rewrite (Nat.add_comm i).
Qed.

Lemma find_index_contains (p s : text) (i : nat) :
  find_index p s = Some i -> contains p s = true.
Proof.
  intros H. destruct (contains p s) eqn:E; [reflexivity|].
  apply find_index_None in E. congruence.
Qed.

Lemma contains_find_index (p s : text) :
  contains p s = true -> exists i, find_index p s = Some i.
Proof.
  intros H. destruct (find_index p s) as [i|] eqn:E; [now exists i|].
  apply find_index_None in E. congruence.
Qed.

(** *** [replace] *)

Lemma replace_from_nil (old new : text) (k : nat) :
  replace_from old new k [] = [].
Proof. now destruct k. Qed.

Lemma replace_from_skip (old new : text) (k : nat) (s : text) :
  replace_from old new k s = replace_from old new 0 (skipn k s).
Proof.
  revert k. induction s as [|c s IH]; intros [|k]; try reflexivity.
  simpl skipn. simpl replace_from at 1. apply IH.
Qed.

(** The two equations of [replace_from] at skip 0. *)
Lemma replace_from_hit (old new : text) (s : text) :
  old <> [] -> startswith s old = true ->
  replace_from old new 0 s =
  new ++ replace_from old new 0 (skipn (List.length old) s).
Proof.
  intros Hold H. destruct s as [|c s].
  - destruct old; [congruence|discriminate].
  - simpl replace_from. rewrite H, replace_from_skip. do 2 f_equal.
    destruct old as [|o old]; [congruence|]. simpl. now rewrite Nat.sub_0_r.
Qed.

Lemma replace_from_miss (old new : text) (c : char) (s : text) :
  startswith (c :: s) old = false ->
  replace_from old new 0 (c :: s) = c :: replace_from old new 0 s.
Proof. intros H. simpl. now rewrite H. Qed.

Lemma replace_from_absent (old new s : text) :
  contains old s = false -> replace_from old new 0 s = s.
Proof.
  induction s as [|c s IH]; intros H; [reflexivity|].
  rewrite contains_cons in H. apply orb_false_iff in H as [H1 H2].
  rewrite replace_from_miss by assumption. f_equal. now apply IH.
Qed.

(** A rule whose target is absent is the identity. *)
Lemma replace_absent (old new s : text) :
  contains old s = false -> replace old new s = s.
Proof.
  intros H. destruct old as [|o old].
  - destruct s; discriminate.
  - now apply replace_from_absent.
Qed.

Lemma replace_from_first (old new s : text) (i : nat) :
  old <> [] -> find_index old s = Some i ->
  replace_from old new 0 s =
  firstn i s ++ new ++ replace_from old new 0 (skipn (i + List.length old) s).
Proof.
  intros Hold. revert i. induction s as [|c s IH]; intros i H.
  - simpl in H. destruct (startswith [] old) eqn:E; [|discriminate].
    destruct old; [congruence|discriminate].
  - simpl in H. destruct (startswith (c :: s) old) eqn:E.
    + injection H as <-. now rewrite replace_from_hit.
    + destruct (find_index old s) as [k|] eqn:F; [|discriminate].
      injection H as <-. rewrite replace_from_miss by assumption.
      rewrite (IH k eq_refl). reflexivity.
Qed.

Lemma replace_first (old new s : text) (i : nat) :
  old <> [] -> find_index old s = Some i ->
  replace old new s =
  firstn i s ++ new ++ replace old new (skipn (i + List.length old) s).
Proof.
  intros Hold H. destruct old as [|o old]; [congruence|].
  now apply replace_from_first.
Qed.

(** A rule whose target is present leaves its replacement in the text. *)
Lemma replace_present (old new s : text) :
  old <> [] -> contains old s = true -> contains new (replace old new s) = true.
Proof.
  intros Hold H. apply contains_find_index in H as [i H].
  rewrite (replace_first old new s i Hold H).
  apply contains_spec. eauto.
Qed.

(** *** [split] *)

Lemma split_from_skip (sep : text) (k : nat) (cur s : text) :
  split_from sep k cur s = split_from sep 0 cur (skipn k s).
Proof.
  revert k cur. induction s as [|c s IH]; intros [|k] cur; try reflexivity.
  simpl skipn. simpl split_from at 1. apply IH.
Qed.

Lemma split_from_first (sep : text) (cur s : text) :
  sep <> [] ->
  split_from sep 0 cur s =
  match find_index sep s with
  | None => [cur ++ s]
  | Some i =>
    (cur ++ firstn i s) ::
    split_from sep 0 [] (skipn (i + List.length sep) s)
  end.
Proof.
  intros Hsep. revert cur. induction s as [|c s IH]; intros cur.
  - simpl. destruct (startswith [] sep) eqn:E.
    + destruct sep; [congruence|discriminate].
    + now rewrite app_nil_r.
  - simpl. destruct (startswith (c :: s) sep) eqn:E.
    + rewrite app_nil_r, split_from_skip. do 2 f_equal.
      destruct sep as [|o sep]; [congruence|]. simpl. now rewrite Nat.sub_0_r.
    + rewrite IH. destruct (find_index sep s) as [k|]; simpl.
      * now rewrite <- app_assoc.
      * now rewrite <- app_assoc.
Qed.

Lemma split_first (sep s : text) (i : nat) :
  sep <> [] -> find_index sep s = Some i ->
  split sep s = firstn i s :: split sep (skipn (i + List.length sep) s).
Proof.
  intros Hsep H. unfold split. rewrite split_from_first by assumption.
  now rewrite H.
Qed.

Lemma split_absent (sep s : text) :
  sep <> [] -> contains sep s = false -> split sep s = [s].
Proof.
  intros Hsep H. unfold split. rewrite split_from_first by assumption.
  apply find_index_None in H. now rewrite H.
Qed.

(** ** refactor_modules.py: the brace-depth loop *)

Section BraceScan.
Import RefactorModules.

Lemma brace_weight_open : brace_weight open_brace = 1%Z.
Proof. reflexivity. Qed.

Lemma brace_weight_cases (c : char) :
  (char_eqb c open_brace = true /\ brace_weight c = 1%Z) \/
  (char_eqb c open_brace = false /\ char_eqb c close_brace = true /\
   c = close_brace /\ brace_weight c = (-1)%Z) \/
  (char_eqb c open_brace = false /\ char_eqb c close_brace = false /\
   brace_weight c = 0%Z).
Proof.
  unfold brace_weight.
  destruct (char_eqb c open_brace) eqn:E1; [now left|].
  destruct (char_eqb c close_brace) eqn:E2; [|now right; right].
  right; left. apply char_eqb_eq in E2. now subst.
Qed.

Lemma weight_firstn_S (c : char) (rest : text) (k : nat) :
  weight (firstn (S k) (c :: rest)) = (brace_weight c + weight (firstn k rest))%Z.
Proof. reflexivity. Qed.

Lemma weight_firstn_0 (s : text) : weight (firstn 0 s) = 0%Z.
Proof. reflexivity. Qed.

(** The loop, started at depth [d >= 1] and index [j], stops at the first
    position where the running depth is 0, if there is one. *)
Lemma scan_balanced (part : text) :
  forall (d j : Z), (1 <= d)%Z ->
  (exists k, k < List.length part /\ (d + weight (firstn (S k) part) = 0)%Z) ->
  exists n, scan d j part = (j + Z.of_nat n)%Z /\ n < List.length part /\
    nth_error part n = Some close_brace /\
    (d + weight (firstn (S n) part) = 0)%Z /\
    forall i, i < n -> (d + weight (firstn (S i) part) <> 0)%Z.
Proof.
  induction part as [|c rest IH]; intros d j Hd (k & Hk & Hz).
  - simpl in Hk. lia.
  - assert (Hrec : (d + brace_weight c <> 0)%Z ->
      exists k', k' < List.length rest /\
        (d + brace_weight c + weight (firstn (S k') rest) = 0)%Z).
    { intros Hne. destruct k as [|k'].
      - rewrite weight_firstn_S, weight_firstn_0 in Hz. lia.
      - exists k'. split; [simpl in Hk; lia|].
        rewrite weight_firstn_S in Hz. lia. }
    assert (Hstep : (1 <= d + brace_weight c)%Z ->
      scan d j (c :: rest) = scan (d + brace_weight c) (j + 1) rest ->
      exists n, scan d j (c :: rest) = (j + Z.of_nat n)%Z /\
        n < List.length (c :: rest) /\
        nth_error (c :: rest) n = Some close_brace /\
        (d + weight (firstn (S n) (c :: rest)) = 0)%Z /\
        forall i, i < n -> (d + weight (firstn (S i) (c :: rest)) <> 0)%Z).
    { intros Hd' Heq.
      destruct (IH (d + brace_weight c)%Z (j + 1)%Z Hd' (Hrec ltac:(lia)))
        as (n & Hn1 & Hn2 & Hn3 & Hn4 & Hn5).
      exists (S n). rewrite Heq, Hn1. repeat split.
      - lia.
      - simpl. lia.
      - exact Hn3.
      - rewrite weight_firstn_S. lia.
      - intros [|i] Hi.
        + rewrite weight_firstn_S, weight_firstn_0. lia.
        + rewrite weight_firstn_S. specialize (Hn5 i ltac:(lia)). lia. }
    destruct (brace_weight_cases c) as
      [(E1 & Hw)|[(E1 & E2 & Hc & Hw)|(E1 & E2 & Hw)]].
    + apply Hstep; [lia|]. simpl. rewrite E1, Hw. reflexivity.
    + destruct (Z.eqb_spec (d - 1) 0) as [Hz0|Hz0].
      * exists 0. simpl scan. rewrite E1, E2.
        replace (d - 1 =? 0)%Z with true by (symmetry; now apply Z.eqb_eq).
        repeat split.
        -- lia.
        -- simpl. lia.
        -- simpl. now rewrite Hc.
        -- rewrite weight_firstn_S, weight_firstn_0, Hw. lia.
        -- intros i Hi. lia.
      * apply Hstep; [lia|]. simpl. rewrite E1, E2, Hw.
        replace (d - 1 =? 0)%Z with false by (symmetry; now apply Z.eqb_neq).
        reflexivity.
    + apply Hstep; [lia|]. simpl. rewrite E1, E2, Hw.
      now rewrite Z.add_0_r.
Qed.

(** The loop ends without a [break] when the running depth is never 0. *)
Lemma scan_unbalanced (part : text) :
  forall (d j : Z),
  (forall k, k < List.length part -> (d + weight (firstn (S k) part) <> 0)%Z) ->
  scan d j part = (-1)%Z.
Proof.
  induction part as [|c rest IH]; intros d j H; [reflexivity|].
  assert (H0 : (d + brace_weight c <> 0)%Z).
  { specialize (H 0 ltac:(simpl; lia)).
    rewrite weight_firstn_S, weight_firstn_0 in H. lia. }
  assert (Hrest : forall k, k < List.length rest ->
            (d + brace_weight c + weight (firstn (S k) rest) <> 0)%Z).
  { intros k Hk. specialize (H (S k) ltac:(simpl; lia)).
    rewrite weight_firstn_S in H. lia. }
  destruct (brace_weight_cases c) as
    [(E1 & Hw)|[(E1 & E2 & Hc & Hw)|(E1 & E2 & Hw)]];
    simpl; rewrite E1, ?E2.
  - rewrite Hw in Hrest. now apply IH.
  - replace (d - 1 =? 0)%Z with false by (symmetry; apply Z.eqb_neq; lia).
    rewrite Hw in Hrest. now apply IH.
  - rewrite Hw, Z.add_0_r in Hrest. now apply IH.
Qed.

(** C1.  For every text [T] and start offset [s]: when the running depth of
    the text from [s] on (initial depth 1, +1 on an open brace, -1 on a close
    brace) is 0 after some position, the brace-depth loop of
    refactor_modules.py returns the offset [j] of the first close brace that
    brings the depth to 0, and [s + j] is a valid index into [T]. *)
Theorem end_index_balanced (T : text) (s : nat) :
  (exists k, k < List.length (skipn s T) /\
             depth_after (skipn s T) (S k) = 0%Z) ->
  exists j, end_index (skipn s T) = Z.of_nat j /\
    depth_after (skipn s T) (S j) = 0%Z /\
    (forall i, i < j -> depth_after (skipn s T) (S i) <> 0%Z) /\
    nth_error T (s + j) = Some close_brace /\
    s + j < List.length T.
Proof.
  intros H. unfold end_index, depth_after in *.
  destruct (scan_balanced (skipn s T) 1 0 ltac:(lia) H)
    as (n & Hn1 & Hn2 & Hn3 & Hn4 & Hn5).
  exists n. rewrite Hn1. repeat split; try assumption.
  - rewrite nth_error_skipn in Hn3. exact Hn3.
  - rewrite length_skipn in Hn2. lia.
Qed.

(** The text ["a{b}c}d"] from offset 1: the block ends at offset 5 of the
    part, index 6 of the text. *)
Lemma end_index_balanced_witness :
  exists j, end_index (skipn 1 (lit "{a{b}c}d")) = Z.of_nat j /\
    depth_after (skipn 1 (lit "{a{b}c}d")) (S j) = 0%Z /\
    (forall i, i < j -> depth_after (skipn 1 (lit "{a{b}c}d")) (S i) <> 0%Z) /\
    nth_error (lit "{a{b}c}d") (1 + j) = Some close_brace /\
    1 + j < List.length (lit "{a{b}c}d").
Proof.
  apply (end_index_balanced (lit "{a{b}c}d") 1).
  exists 5. split; [vm_compute; lia|reflexivity].
Defined.

End BraceScan.

(** ** refactor_modules.py: the fallback of the brace-depth loop *)

Section WrapLoop.
Import RefactorModules.
Variable unicode_alnum : char -> bool.

Lemma wrap_done (tool_name mod_name part new_content : text) (w : Script.world) :
  exists t w', wrap tool_name mod_name part new_content w = (Script.Done t, w').
Proof.
  unfold wrap. destruct (negb (end_index part =? -1)%Z); cbv beta zeta.
  - eexists _, _. reflexivity.
  - eexists _, _. reflexivity.
Qed.

Lemma wrap_part_done (i : nat) (part new_content : text) (w : Script.world) :
  exists t w',
    wrap_part unicode_alnum i part new_content w = (Script.Done t, w').
Proof.
  unfold wrap_part. destruct (nth_error tools i) as [[tool_name mod_name]|].
  - apply wrap_done.
  - eexists _, _. reflexivity.
Qed.

(** The loop over the parts never leaves the script. *)
Lemma wrap_loop_done (parts : list text) :
  forall (i : nat) (new_content : text) (w : Script.world),
  exists t w',
    wrap_loop unicode_alnum i parts new_content w = (Script.Done t, w').
Proof.
  induction parts as [|part rest IH]; intros i new_content w.
  - eexists _, _. reflexivity.
  - simpl. unfold Script.bind.
    destruct (wrap_part_done i part new_content w) as (t & w' & ->).
    apply IH.
Qed.

(** Every run of the script reaches its [f.write]. *)
Lemma refactor_modules_done (w : Script.world) :
  exists w', refactor_modules unicode_alnum w = (Script.Done tt, w').
Proof.
  unfold refactor_modules, Script.bind, Script.read_file.
  match goal with
  | |- context [wrap_loop _ 0 ?ps ?nc w] =>
    destruct (wrap_loop_done ps 0 nc w) as (t & w' & ->)
  end.
  eexists. reflexivity.
Qed.

End WrapLoop.

(** ** Literal rules: add_logs.py, fix_macro_path.py, fix_macro_ident.py *)

Lemma py_find_absent (p s : text) :
  contains p s = false -> py_find p s = (-1)%Z.
Proof.
  intros H. apply find_index_None in H. unfold py_find. now rewrite H.
Qed.

Lemma py_find_present (p s : text) :
  contains p s = true ->
  exists i, find_index p s = Some i /\ py_find p s = Z.of_nat i.
Proof.
  intros H. apply contains_find_index in H as [i H].
  exists i. unfold py_find. now rewrite H.
Qed.

Section LiteralRules.
Import Script AddLogs FixMacro.

(** The guarded rule of add_logs.py in closed form: the text after the
    rule is [replace] of the text before it, and one line is printed. *)
Lemma rule_run (target replacement applied not_found content : text)
  (w : world) :
  rule target replacement applied not_found content w =
  (Done (replace target replacement content),
   {| file := file w;
      console := console w ++
        [if contains target content then applied else not_found] |}).
Proof.
  unfold rule. destruct (contains target content) eqn:E.
  - reflexivity.
  - rewrite replace_absent by assumption. reflexivity.
Qed.

(** Both rules of add_logs.py run on every input, in order. *)
Lemma add_logs_run (content : text) :
  run add_logs content =
  (Done tt,
   {| file := replace target2 replacement2
                (replace target1 replacement1 content);
      console :=
        [ if contains target1 content
          then lit "Applied replacement 1" else lit "Target 1 not found!";
          if contains target2 (replace target1 replacement1 content)
          then lit "Applied replacement 2" else lit "Target 2 not found!" ] |}).
Proof.
  unfold run, add_logs, bind, read_file. cbn [file].
  rewrite rule_run. rewrite rule_run. reflexivity.
Qed.

Lemma fix_macro_ident_run (content : text) :
  run fix_macro_ident content =
  (Done tt,
   {| file := replace header_path header_ident content; console := [] |}).
Proof. reflexivity. Qed.

Lemma fix_macro_path_run (content : text) :
  run fix_macro_path content =
  (Done tt,
   {| file := replace header_ty header_path content; console := [] |}).
Proof. reflexivity. Qed.

(** C4, as amended.  A literal rule whose target is absent from the text
    leaves the text unchanged.  add_logs.py prints its not-found line for
    that rule and goes on: with target1 absent it writes back what its
    second rule makes of the input, and exactly the input when target2 is
    absent too.  fix_macro_ident.py writes back exactly an input that lacks
    its pattern, and prints nothing. *)
Theorem absent_target_unchanged (content : text) :
  (forall target replacement,
     contains target content = false ->
     replace target replacement content = content /\
     forall applied not_found w,
       rule target replacement applied not_found content w =
       (Done content,
        {| file := file w; console := console w ++ [not_found] |})) /\
  (contains target1 content = false ->
     exists line2,
       run add_logs content =
       (Done tt,
        {| file := replace target2 replacement2 content;
           console := [lit "Target 1 not found!"; line2] |})) /\
  (contains target1 content = false -> contains target2 content = false ->
     run add_logs content =
     (Done tt,
      {| file := content;
         console := [lit "Target 1 not found!"; lit "Target 2 not found!"] |})) /\
  (contains header_path content = false ->
     replace header_path header_ident content = content /\
     run fix_macro_ident content =
     (Done tt, {| file := content; console := [] |})).
Proof.
  repeat split.
  - now apply replace_absent.
  - intros applied not_found w. rewrite rule_run, H.
    now rewrite replace_absent.
  - intros H1. eexists. rewrite add_logs_run, H1.
    rewrite (replace_absent target1) by assumption. reflexivity.
  - intros H1 H2. rewrite add_logs_run, H1.
    rewrite (replace_absent target1) by assumption.
    rewrite H2. now rewrite replace_absent.
  - now apply replace_absent.
  - rewrite fix_macro_ident_run. now rewrite replace_absent.
Qed.

End LiteralRules.

(** The input ["fn main() {}"] has none of the targets. *)
Lemma absent_target_unchanged_witness :
  replace AddLogs.target1 AddLogs.replacement1 (lit "fn main() {}")
    = lit "fn main() {}" /\
  Script.run AddLogs.add_logs (lit "fn main() {}") =
    (Script.Done tt,
     {| Script.file := lit "fn main() {}";
        Script.console :=
          [lit "Target 1 not found!"; lit "Target 2 not found!"] |}) /\
  Script.run FixMacro.fix_macro_ident (lit "fn main() {}") =
    (Script.Done tt,
     {| Script.file := lit "fn main() {}"; Script.console := [] |}).
Proof.
  destruct (absent_target_unchanged (lit "fn main() {}"))
    as (H1 & _ & H3 & H4).
  split; [|split].
  - apply (H1 AddLogs.target1 AddLogs.replacement1). reflexivity.
  - apply H3; reflexivity.
  - apply H4. reflexivity.
Defined.

(** C4 as stated fails: the input made of target2 alone lacks target1, and
    add_logs.py does not write it back: the second rule rewrites it.  And
    fix_macro_ident.py reports nothing on an input that lacks its pattern. *)
Lemma add_logs_rewrites_without_target1 :
  contains AddLogs.target1 AddLogs.target2 = false /\
  Script.run AddLogs.add_logs AddLogs.target2 =
    (Script.Done tt,
     {| Script.file := AddLogs.replacement2;
        Script.console :=
          [lit "Target 1 not found!"; lit "Applied replacement 2"] |}) /\
  AddLogs.replacement2 <> AddLogs.target2 /\
  contains FixMacro.header_path (lit "fn main() {}") = false /\
  Script.console (snd (Script.run FixMacro.fix_macro_ident (lit "fn main() {}")))
    = [].
Proof.
  split; [reflexivity|]. split; [vm_compute; reflexivity|].
  split; [|split; reflexivity].
  intros H. apply (f_equal (@List.length char)) in H.
  vm_compute in H. discriminate.
Qed.

(** ** The order of fix_macro_path.py and fix_macro_ident.py *)

Section MacroOrder.
Import Script FixMacro.

Lemma written_fix_macro_path (T : text) :
  written fix_macro_path T = replace header_ty header_path T.
Proof. reflexivity. Qed.

Lemma written_fix_macro_ident (T : text) :
  written fix_macro_ident T = replace header_path header_ident T.
Proof. reflexivity. Qed.

(** C5.  On a text that holds the [:ty] header and not the [:path] header,
    fix_macro_path.py (R1) and then fix_macro_ident.py (R2) both find their
    pattern and the text ends with the [:ident] header in it; in the order
    R2, R1 the first changes nothing, the second finds its pattern, and the
    text ends as R1 alone leaves it. *)
Theorem macro_rules_order (T : text) :
  contains header_ty T = true ->
  contains header_path T = false ->
  (contains header_path (written fix_macro_path T) = true /\
   contains header_ident
     (written fix_macro_ident (written fix_macro_path T)) = true) /\
  (written fix_macro_ident T = T /\
   contains header_ty (written fix_macro_ident T) = true /\
   written fix_macro_path (written fix_macro_ident T)
     = written fix_macro_path T).
Proof.
  intros Hty Hpath.
  rewrite !written_fix_macro_ident, !written_fix_macro_path.
  assert (H1 : contains header_path (replace header_ty header_path T) = true).
  { apply replace_present; [discriminate|assumption]. }
  rewrite (replace_absent header_path header_ident T) by assumption.
  repeat split; try assumption.
  apply replace_present; [discriminate|assumption].
Qed.

End MacroOrder.

(** A macro definition with the [:ty] header. *)
Lemma macro_rules_order_witness :
  Script.written FixMacro.fix_macro_ident
    (Script.written FixMacro.fix_macro_path
       (lit "macro_rules! apply_theme { ($window:expr, $colors:expr, $theme_type:ty) => {{ }} }"))
  = lit "macro_rules! apply_theme { ($window:expr, $colors:expr, $theme_type:ident) => {{ }} }"
  /\
  Script.written FixMacro.fix_macro_path
    (Script.written FixMacro.fix_macro_ident
       (lit "macro_rules! apply_theme { ($window:expr, $colors:expr, $theme_type:ty) => {{ }} }"))
  = Script.written FixMacro.fix_macro_path
      (lit "macro_rules! apply_theme { ($window:expr, $colors:expr, $theme_type:ty) => {{ }} }").
Proof.
  split; [vm_compute; reflexivity|].
  apply (macro_rules_order
    (lit "macro_rules! apply_theme { ($window:expr, $colors:expr, $theme_type:ty) => {{ }} }"));
    vm_compute; reflexivity.
Defined.

(** ** A missing pattern: add_logs.py goes on, fix_tool_windows.py exits *)

Section MissingPattern.
Import Script FixToolWindows.

Lemma fix_tool_windows_absent (edits : text -> text -> text) (content : text) :
  contains (lit "slint::slint! {") content = false ->
  run (fix_tool_windows edits) content =
  (Exited 1,
   {| file := content; console := [lit "Could not find slint! macro"] |}).
Proof.
  intros H. unfold run, fix_tool_windows, bind, read_file. cbn [file].
  rewrite (py_find_absent _ _ H). reflexivity.
Qed.

Lemma fix_tool_windows_present (edits : text -> text -> text) (content : text) :
  contains (lit "slint::slint! {") content = true ->
  exists i,
    find_index (lit "slint::slint! {") content = Some i /\
    run (fix_tool_windows edits) content =
    (Done tt,
     {| file := edits (firstn i content) (skipn i content);
        console := [lit "Done!"] |}).
Proof.
  intros H. destruct (py_find_present _ _ H) as (i & Hi & Hf).
  exists i. split; [assumption|].
  unfold run, fix_tool_windows, bind, read_file. cbn [file].
  rewrite Hf.
  replace (Z.of_nat i =? -1)%Z with false by (symmetry; apply Z.eqb_neq; lia).
  rewrite Nat2Z.id. reflexivity.
Qed.

(** C2, as amended.  add_logs.py attempts both its rules on every input,
    in order, prints one line for each (the not-found line for a missed
    target) and writes the file.  fix_tool_windows.py does not go on when
    its anchor ['slint::slint! {'] is missing: it prints one line and exits
    with status 1, the file not written; with the anchor present it runs to
    its end. *)
Theorem missing_pattern_policy (content : text) :
  (exists line1 line2 out,
     run AddLogs.add_logs content =
       (Done tt, {| file := out; console := [line1; line2] |}) /\
     (contains AddLogs.target1 content = false ->
        line1 = lit "Target 1 not found!") /\
     (contains AddLogs.target2
        (replace AddLogs.target1 AddLogs.replacement1 content) = false ->
        line2 = lit "Target 2 not found!")) /\
  (forall edits,
     (contains (lit "slint::slint! {") content = false ->
        run (fix_tool_windows edits) content =
        (Exited 1,
         {| file := content;
            console := [lit "Could not find slint! macro"] |})) /\
     (contains (lit "slint::slint! {") content = true ->
        exists out,
          run (fix_tool_windows edits) content =
          (Done tt, {| file := out; console := [lit "Done!"] |}))).
Proof.
  split.
  - eexists _, _, _. rewrite add_logs_run. split; [reflexivity|].
    split; intros ->; reflexivity.
  - intros edits. split.
    + apply fix_tool_windows_absent.
    + intros H. destruct (fix_tool_windows_present edits content H)
        as (i & _ & Hrun).
      eexists. exact Hrun.
Qed.

End MissingPattern.

(** C2 as stated fails: on a file without the anchor, fix_tool_windows.py
    ends the process with status 1 after its first step, whatever its later
    edits are, and writes nothing. *)
Lemma fix_tool_windows_exits :
  (forall edits,
     Script.run (FixToolWindows.fix_tool_windows edits) (lit "fn main() {}") =
     (Script.Exited 1,
      {| Script.file := lit "fn main() {}";
         Script.console := [lit "Could not find slint! macro"] |})) /\
  ~ FixToolWindows.never_exits.
Proof.
  assert (H : forall edits,
     Script.run (FixToolWindows.fix_tool_windows edits) (lit "fn main() {}") =
     (Script.Exited 1,
      {| Script.file := lit "fn main() {}";
         Script.console := [lit "Could not find slint! macro"] |})).
  { intros edits. apply fix_tool_windows_absent. reflexivity. }
  split; [exact H|].
  intros Hnever.
  specialize (Hnever (fun a b => a ++ b) (lit "fn main() {}")).
  unfold FixToolWindows.completes in Hnever. rewrite H in Hnever.
  discriminate.
Qed.

(** The same input for the amended claim. *)
Lemma missing_pattern_policy_witness :
  Script.run (FixToolWindows.fix_tool_windows (fun a b => a ++ b))
    (lit "fn main() {}") =
  (Script.Exited 1,
   {| Script.file := lit "fn main() {}";
      Script.console := [lit "Could not find slint! macro"] |}).
Proof.
  destruct (missing_pattern_policy (lit "fn main() {}")) as [_ H].
  destruct (H (fun a b => a ++ b)) as [Habs _].
  apply Habs. reflexivity.
Defined.

(** ** refactor_listviews.py: the step scoped to StructureTool *)

Lemma split_from_length (sep : text) (s : text) :
  forall (k : nat) (cur : text), 1 <= List.length (split_from sep k cur s).
Proof.
  induction s as [|c s IH]; intros k cur; simpl; [lia|].
  destruct k as [|k]; [|apply IH].
  destruct (startswith (c :: s) sep); [simpl; lia|apply IH].
Qed.

Lemma split_length (sep s : text) : 1 <= List.length (split sep s).
Proof. apply split_from_length. Qed.

Section StructureStep.
Import Script RefactorListviews.

Lemma anchor_nonempty : anchor <> [].
Proof. discriminate. Qed.

(** The step in terms of the first occurrence of the anchor. *)
Lemma structure_step_first (content : text) (i : nat) :
  find_index anchor content = Some i ->
  structure_step content =
  firstn i content ++ anchor ++
  rewrite_structure
    (nth 0 (split anchor (skipn (i + List.length anchor) content)) []).
Proof.
  intros H. unfold structure_step.
  rewrite (split_first anchor content i anchor_nonempty H).
  pose proof (split_length anchor (skipn (i + List.length anchor) content)) as Hl.
  destruct (split anchor (skipn (i + List.length anchor) content))
    as [|p1 ps] eqn:E; [simpl in Hl; lia|].
  reflexivity.
Qed.

(** C7.  On a text that contains ['export component StructureTool'], the
    step of lines 121-131 changes no character before the first occurrence
    of the anchor, and the anchor stays where it was. *)
Theorem structure_step_frame (content : text) :
  contains anchor content = true ->
  exists i,
    find_index anchor content = Some i /\
    firstn i (structure_step content) = firstn i content /\
    (forall k, k < i ->
       nth_error (structure_step content) k = nth_error content k) /\
    startswith (skipn i (structure_step content)) anchor = true.
Proof.
  intros H. apply contains_find_index in H as [i H]. exists i.
  pose proof (find_index_Some _ _ _ H) as (_ & Hle & _).
  rewrite (structure_step_first content i H).
  assert (Hlen : List.length (firstn i content) = i)
    by (rewrite length_firstn; lia).
  repeat split.
  - assumption.
  - rewrite firstn_app, Hlen, Nat.sub_diag, firstn_firstn, Nat.min_id.
    simpl. apply app_nil_r.
  - intros k Hk. rewrite nth_error_app1 by lia.
    rewrite nth_error_firstn.
    destruct (Nat.ltb_spec k i); [reflexivity|lia].
  - rewrite skipn_app, Hlen, Nat.sub_diag, skipn_all2 by lia.
    cbn [skipn app]. apply startswith_app.
Qed.

End StructureStep.

(** Two components before the anchor, one list after it. *)
Lemma structure_step_frame_witness :
  exists i,
    find_index RefactorListviews.anchor
      (lit "model: [1]; export component StructureTool { model: [2]; }")
      = Some i /\
    firstn i (RefactorListviews.structure_step
      (lit "model: [1]; export component StructureTool { model: [2]; }"))
    = firstn i
        (lit "model: [1]; export component StructureTool { model: [2]; }").
Proof.
  destruct (structure_step_frame
    (lit "model: [1]; export component StructureTool { model: [2]; }")
    eq_refl) as (i & H1 & H2 & _).
  exists i. split; assumption.
Defined.

(** ** Writing a text and reading it back *)

Section RoundTrip.
Import TextIO.

Lemma load_cons_other (c : char) (rest : text) :
  char_eqb c CR = false -> load (c :: rest) = c :: load rest.
Proof. intros H. simpl. now rewrite H. Qed.

Lemma load_crlf (rest : text) : load (CR :: LF :: rest) = LF :: load rest.
Proof. reflexivity. Qed.

(** A text without carriage return is read back as it was handed to
    [f.write], with the line separator of either platform. *)
Lemma load_translate (linesep T : text) :
  linesep = posix \/ linesep = windows ->
  existsb (char_eqb CR) T = false ->
  load (translate linesep T) = T.
Proof.
  intros Hsep. induction T as [|c T IH]; intros Hcr; [reflexivity|].
  simpl in Hcr. apply orb_false_iff in Hcr as [Hc HT].
  specialize (IH HT). unfold translate in *. simpl flat_map.
  destruct (char_eqb c LF) eqn:E.
  - apply char_eqb_eq in E. subst c.
    destruct Hsep as [-> | ->].
    + unfold posix in *. cbn [app]. rewrite load_cons_other by reflexivity.
      now rewrite IH.
    + unfold windows in *. cbn [app]. rewrite load_crlf. now rewrite IH.
  - cbn [app]. rewrite load_cons_other.
    + now rewrite IH.
    + unfold char_eqb in *. rewrite N.eqb_sym. exact Hc.
Qed.

(** What is read holds no carriage return. *)
Lemma load_no_cr (disk : text) :
  forall n, List.length disk <= n -> existsb (char_eqb CR) (load disk) = false.
Proof.
  intros n. revert disk. induction n as [|n IH]; intros disk Hn.
  - destruct disk; [reflexivity|simpl in Hn; lia].
  - destruct disk as [|c rest]; [reflexivity|]. cbn [load].
    destruct (char_eqb c CR) eqn:E.
    + cbn [existsb]. change (char_eqb CR LF) with false. cbn [orb].
      destruct rest as [|d rest']; [reflexivity|].
      destruct (char_eqb d LF); apply IH; simpl in Hn |- *; lia.
    + cbn [existsb]. unfold char_eqb in *. rewrite N.eqb_sym, E. cbn [orb].
      apply IH. simpl in Hn. lia.
Qed.

(** What is read holds the characters of the disk, and line feeds. *)
Lemma load_forallb (P : char -> bool) (disk : text) :
  P LF = true ->
  forall n, List.length disk <= n ->
  forallb P disk = true -> forallb P (load disk) = true.
Proof.
  intros HLF n. revert disk. induction n as [|n IH]; intros disk Hn Hd.
  - destruct disk; [reflexivity|simpl in Hn; lia].
  - destruct disk as [|c rest]; [reflexivity|]. cbn [load].
    cbn [forallb] in Hd. apply andb_true_iff in Hd as [Hc Hrest].
    destruct (char_eqb c CR).
    + cbn [forallb]. rewrite HLF. cbn [andb].
      destruct rest as [|d rest']; [reflexivity|].
      cbn [forallb] in Hrest. apply andb_true_iff in Hrest as [Hd Hrest'].
      destruct (char_eqb d LF); apply IH; simpl in Hn |- *; try lia;
        [exact Hrest'|now rewrite Hd, Hrest'].
    + cbn [forallb]. rewrite Hc. cbn [andb].
      apply IH; [simpl in Hn; lia|exact Hrest].
Qed.

Lemma translate_forallb (P : char -> bool) (linesep T : text) :
  forallb P linesep = true -> forallb P T = true ->
  forallb P (translate linesep T) = true.
Proof.
  intros Hsep. induction T as [|c T IH]; intros HT; [reflexivity|].
  cbn [forallb] in HT. apply andb_true_iff in HT as [Hc HT].
  unfold translate in *. cbn [flat_map]. rewrite forallb_app, (IH HT).
  destruct (char_eqb c LF); [now rewrite Hsep|].
  cbn [forallb]. now rewrite Hc.
Qed.




(** [f.write] does not raise on a text that the codec can encode. *)
Lemma save_encodable (encodable : char -> bool) (linesep T : text) :
  forallb encodable linesep = true -> forallb encodable T = true ->
  save encodable linesep T = Some (translate linesep T).
Proof.
  intros Hsep HT. unfold save.
  now rewrite (translate_forallb encodable linesep T Hsep HT).
Qed.




End RoundTrip.


(** The error of [f.write]: a lone surrogate is not written under
    UTF-8. *)
Lemma save_surrogate :
  TextIO.save TextIO.utf8 TextIO.posix [97%N; 55296%N; 98%N] = None.
Proof. reflexivity. Qed.

(** ** fix_build.py then fix_conflicts.py on the apply_theme macro *)

Section MacroSignature.
Import Script MacroScenario.

(** C6 as stated fails: on the one-line text the closing brace is not
    doubled and the result is not the text of the scenario. *)
Lemma macro_signature_one_line :
  written FixConflicts.fix_conflicts (written FixBuild.fix_build macro_one_line)
  = lit "macro_rules! apply_theme { ($window:expr, $colors:expr, $theme_type:ty) => {{ BODY }; }"
  /\
  written FixConflicts.fix_conflicts (written FixBuild.fix_build macro_one_line)
  <> lit "macro_rules! apply_theme { ($window:expr, $colors:expr, $theme_type:ty) => {{ BODY }}; }".
Proof.
  split; [vm_compute; reflexivity|].
  intros H. apply (f_equal (@List.length char)) in H.
  vm_compute in H. discriminate.
Qed.

(** On the macro of the scenario laid out over five lines, fix_build.py
    doubles both braces (the closing line is ['};'] once stripped, and
    becomes ['}};']) and fix_conflicts.py then inserts the parameter and
    takes the semicolon away: the closing line ends as ['}}']. *)
Lemma macro_laid_out :
  written FixBuild.fix_build macro_lines
  = lit "macro_rules! apply_theme {
    ($window:expr, $colors:expr) => {{
        BODY
    }};
}
"
  /\
  written FixConflicts.fix_conflicts (written FixBuild.fix_build macro_lines)
  = lit "macro_rules! apply_theme {
    ($window:expr, $colors:expr, $theme_type:ty) => {{
        BODY
    }}
}
".
Proof. repeat split; vm_compute; reflexivity. Qed.

(** On the macro as fix_tool_windows.py writes it, the first line that is
    ['};'] once stripped ends the struct literal: fix_build.py doubles that
    brace and stops, and fix_conflicts.py takes the semicolon of that line
    away; the line of [invoke_set_theme] and the closing line of the macro
    stay as they were. *)
Lemma macro_written_edits :
  contains macro_written ToolWindowEdits.helper_code = true /\
  written FixBuild.fix_build macro_written
  = lit "macro_rules! apply_theme {
    ($window:expr, $colors:expr) => {{
        let slint_colors = SlintThemeColors {
            primary_bg: hex_to_color(&$colors.primary_bg),
            secondary_bg: hex_to_color(&$colors.secondary_bg),
            accent: hex_to_color(&$colors.accent),
            text_primary: hex_to_color(&$colors.text_primary),
            text_secondary: hex_to_color(&$colors.text_secondary),
            border: hex_to_color(&$colors.border),
            menu_bg: hex_to_color(&$colors.menu_bg),
            toolbar_bg: hex_to_color(&$colors.toolbar_bg),
            status_bg: hex_to_color(&$colors.status_bg),
            editor_bg: hex_to_color(&$colors.editor_bg),
            title_bg: hex_to_color(&$colors.title_bg),
            ribbon_bg: hex_to_color(&$colors.ribbon_bg),
            dropdown_bg: hex_to_color(&$colors.dropdown_bg),
        }};
        $window.invoke_set_theme(slint_colors);
    };
}
"
  /\
  written FixConflicts.fix_conflicts (written FixBuild.fix_build macro_written)
  = lit "macro_rules! apply_theme {
    ($window:expr, $colors:expr, $theme_type:ty) => {{
        let slint_colors = <$theme_type> {
            primary_bg: hex_to_color(&$colors.primary_bg),
            secondary_bg: hex_to_color(&$colors.secondary_bg),
            accent: hex_to_color(&$colors.accent),
            text_primary: hex_to_color(&$colors.text_primary),
            text_secondary: hex_to_color(&$colors.text_secondary),
            border: hex_to_color(&$colors.border),
            menu_bg: hex_to_color(&$colors.menu_bg),
            toolbar_bg: hex_to_color(&$colors.toolbar_bg),
            status_bg: hex_to_color(&$colors.status_bg),
            editor_bg: hex_to_color(&$colors.editor_bg),
            title_bg: hex_to_color(&$colors.title_bg),
            ribbon_bg: hex_to_color(&$colors.ribbon_bg),
            dropdown_bg: hex_to_color(&$colors.dropdown_bg),
        }}
        $window.invoke_set_theme(slint_colors);
    };
}
".
Proof. repeat split; vm_compute; reflexivity. Qed.

End MacroSignature.

(** ** remove_logs.py: what the substitution keeps *)

Section SpanFacts.
Import Regex.
Variable cls : char -> bool.

Lemma span_le (x : text) : span cls x <= List.length x.
Proof.
  induction x as [|c x IH]; simpl; [lia|].
  destruct (cls c); simpl; lia.
Qed.

Lemma span_app_all (x y : text) :
  forallb cls x = true -> span cls (x ++ y) = List.length x + span cls y.
Proof.
  induction x as [|c x IH]; simpl; [reflexivity|].
  intros H. apply andb_true_iff in H as [Hc Hx]. rewrite Hc.
  now rewrite IH.
Qed.

Lemma span_app_short (x y : text) :
  forallb cls x = false -> span cls (x ++ y) = span cls x.
Proof.
  induction x as [|c x IH]; simpl; [discriminate|].
  destruct (cls c); simpl; [|reflexivity].
  intros H. now rewrite IH.
Qed.

(** A run stops where the next text starts outside the class. *)
Lemma span_app_stop (x y : text) :
  span cls y = 0 -> span cls (x ++ y) = span cls x.
Proof.
  intros Hy. destruct (forallb cls x) eqn:E.
  - rewrite span_app_all by assumption. rewrite Hy, Nat.add_0_r.
    clear Hy. induction x as [|c x IH]; simpl in *; [reflexivity|].
    apply andb_true_iff in E as [Hc Hx]. rewrite Hc. now rewrite IH.
  - now apply span_app_short.
Qed.

Lemma span_all (x : text) :
  forallb cls x = true -> span cls x = List.length x.
Proof.
  intros H. rewrite <- (app_nil_r x) at 1.
  rewrite span_app_all by assumption. simpl. lia.
Qed.

(** The text splits into the run and a rest that starts outside the class. *)
Lemma span_split (x : text) :
  forallb cls (firstn (span cls x) x) = true /\
  span cls (skipn (span cls x) x) = 0.
Proof.
  induction x as [|c x IH]; simpl; [split; reflexivity|].
  destruct (cls c) eqn:E; simpl.
  - now rewrite E.
  - now rewrite E.
Qed.

End SpanFacts.

Lemma lstrip_span (s : text) : lstrip s = skipn (Regex.span is_space s) s.
Proof.
  induction s as [|c s IH]; simpl; [reflexivity|].
  destruct (is_space c); [exact IH|reflexivity].
Qed.

(** A pattern without the character [c] matches [r ++ c :: y] at its head
    exactly when it matches [r]. *)
Lemma startswith_app_other (p r y : text) (c : char) :
  existsb (char_eqb c) p = false ->
  startswith (r ++ c :: y) p = startswith r p.
Proof.
  revert r. induction p as [|a p IH]; intros r H; [reflexivity|].
  simpl in H. apply orb_false_iff in H as [Ha Hp].
  destruct r as [|b r]; simpl.
  - unfold char_eqb in *. rewrite N.eqb_sym, Ha. reflexivity.
  - now rewrite IH.
Qed.

Section RemoveLogsFacts.
Import Regex RemoveLogs.

Lemma char_eqb_sym (a b : char) : char_eqb a b = char_eqb b a.
Proof. apply N.eqb_sym. Qed.

Lemma span_lt (cls : char -> bool) (x : text) :
  forallb cls x = false -> span cls x < List.length x.
Proof.
  induction x as [|c x IH]; simpl; [discriminate|].
  destruct (cls c); simpl; [|lia]. intros H. specialize (IH H). lia.
Qed.

Lemma skipn_app_le (k : nat) (x y : text) :
  k <= List.length x -> skipn k (x ++ y) = skipn k x ++ y.
Proof.
  intros H. rewrite skipn_app.
  replace (k - List.length x) with 0 by lia. reflexivity.
Qed.

Lemma skipn_app_plus (n : nat) (x y : text) :
  skipn (List.length x + n) (x ++ y) = skipn n y.
Proof. induction x as [|c x IH]; [reflexivity|exact IH]. Qed.

Lemma skipn_app_exact (x y : text) : skipn (List.length x) (x ++ y) = y.
Proof. induction x as [|c x IH]; [reflexivity|exact IH]. Qed.

Lemma to_semicolon_split (x : text) :
  forall k, to_semicolon x = Some k ->
  k <= List.length x /\ existsb (char_eqb LF) (firstn k x) = false.
Proof.
  induction x as [|c x IH]; intros k; cbn [to_semicolon]; [discriminate|].
  destruct (char_eqb c semicolon) eqn:E1.
  - intros [= <-]. apply char_eqb_eq in E1. subst c.
    split; [simpl; lia|reflexivity].
  - destruct (char_eqb c LF) eqn:E2; [discriminate|].
    destruct (to_semicolon x) as [k'|]; [|discriminate].
    intros [= <-]. destruct (IH k' eq_refl) as [H1 H2].
    split; [simpl; lia|]. cbn [firstn existsb]. rewrite char_eqb_sym, E2. exact H2.
Qed.

Lemma to_semicolon_app (x y : text) :
  existsb (char_eqb LF) x = true -> to_semicolon (x ++ y) = to_semicolon x.
Proof.
  induction x as [|c x IH]; cbn [existsb app to_semicolon]; [discriminate|].
  destruct (char_eqb c semicolon); [reflexivity|].
  rewrite (char_eqb_sym LF c).
  destruct (char_eqb c LF); [reflexivity|].
  cbn [orb]. intros H. now rewrite IH.
Qed.

Lemma to_semicolon_none (r tail : text) :
  existsb (char_eqb semicolon) r = false -> line_end tail ->
  to_semicolon (r ++ tail) = None.
Proof.
  intros Hr Htail. induction r as [|c r IH]; cbn [app to_semicolon].
  - destruct Htail as [-> | [post ->]]; reflexivity.
  - cbn [existsb] in Hr. apply orb_false_iff in Hr as [Hc Hr].
    rewrite char_eqb_sym, Hc.
    destruct (char_eqb c LF); [reflexivity|].
    now rewrite IH.
Qed.

Lemma println_length : List.length println = 8.
Proof. reflexivity. Qed.

Lemma println_no_LF : existsb (char_eqb LF) println = false.
Proof. reflexivity. Qed.

(** After a text that ends with a line feed, or before a line end, the
    pattern [println!] is found at the head or not as in the text alone. *)
Lemma startswith_println_line (u y : text) :
  startswith (u ++ LF :: y) println = startswith u println.
Proof. apply startswith_app_other, println_no_LF. Qed.

Lemma startswith_println_end (r tail : text) :
  line_end tail -> startswith (r ++ tail) println = startswith r println.
Proof.
  intros [-> | [post ->]].
  - now rewrite app_nil_r.
  - apply startswith_println_line.
Qed.

Lemma match_println_false (s : text) : match_println false s = None.
Proof. reflexivity. Qed.

(** The match at the head of [x] stays within [x]. *)
Lemma match_println_le (bol : bool) (x : text) (n : nat) :
  match_println bol x = Some n -> n <= List.length x.
Proof.
  unfold match_println. destruct bol; [|discriminate].
  pose proof (span_le is_space x) as H0.
  set (sp := span is_space x) in *.
  destruct (startswith (skipn sp x) println) eqn:E; [|discriminate].
  apply startswith_inv in E.
  set (s2 := skipn (List.length println) (skipn sp x)) in *.
  destruct (to_semicolon s2) as [k|] eqn:Ek; [|discriminate].
  intros [= <-].
  apply to_semicolon_split in Ek as [Hk _].
  pose proof (span_le is_eol (skipn k s2)) as He.
  rewrite length_skipn in He.
  apply (f_equal (@List.length char)) in E.
  rewrite length_app, length_skipn, println_length in E.
  change (List.length println) with 8. lia.
Qed.

Lemma kept_line_inv (L : text) :
  kept_line L = true ->
  existsb (char_eqb LF) L = false /\
  span is_eol L = 0 /\ L <> [] /\
  forallb is_space L = false /\
  (startswith (lstrip L) println = false \/
   existsb (char_eqb semicolon) (lstrip L) = false).
Proof.
  unfold kept_line. intros H.
  apply andb_true_iff in H as [H H3]. apply andb_true_iff in H as [H1 H2].
  apply negb_true_iff in H1.
  destruct L as [|c L']; [discriminate|].
  apply negb_true_iff in H2.
  repeat split.
  - exact H1.
  - simpl. now rewrite H2.
  - discriminate.
  - destruct (forallb is_space (c :: L')) eqn:E; [|reflexivity].
    rewrite lstrip_span, (span_all _ _ E), skipn_all in H3. discriminate.
  - destruct (lstrip (c :: L')); [discriminate|].
    apply orb_true_iff in H3 as [H3|H3]; apply negb_true_iff in H3; auto.
Qed.

(** At the start of a kept line, also after whitespace-only text, the
    pattern does not match. *)
Lemma kept_line_no_match (x L tail : text) :
  forallb is_space x = true -> kept_line L = true -> line_end tail ->
  match_println true (x ++ L ++ tail) = None.
Proof.
  intros Hx HL Htail.
  apply kept_line_inv in HL as (_ & _ & _ & Hsp & Hcase).
  unfold match_println.
  rewrite (span_app_all _ x _ Hx), (span_app_short _ L tail Hsp).
  rewrite skipn_app_plus.
  rewrite (skipn_app_le _ L tail (span_le _ _)), <- lstrip_span.
  rewrite (startswith_println_end _ _ Htail).
  destruct (startswith (lstrip L) println) eqn:E; [|reflexivity].
  destruct Hcase as [Hc|Hc]; [congruence|].
  apply startswith_inv in E. rewrite E in Hc |- *.
  rewrite existsb_app in Hc. apply orb_false_iff in Hc as [_ Hc].
  rewrite <- app_assoc, skipn_app_exact.
  now rewrite (to_semicolon_none _ _ Hc Htail).
Qed.

(** The match at the head of a text that ends with a line feed is the same
    when a kept line follows. *)
Lemma match_println_local (x0 L tail : text) :
  kept_line L = true -> line_end tail ->
  match_println true ((x0 ++ [LF]) ++ L ++ tail) =
  match_println true (x0 ++ [LF]).
Proof.
  intros HL Htail. set (x := x0 ++ [LF]). set (Y := L ++ tail).
  destruct (forallb is_space x) eqn:Ex.
  - unfold Y. rewrite (kept_line_no_match x L tail Ex HL Htail).
    unfold match_println. rewrite (span_all _ _ Ex), skipn_all. reflexivity.
  - pose proof (kept_line_inv L HL) as (_ & Heol & HLne & _ & _).
    assert (HeolY : span is_eol Y = 0).
    { unfold Y. destruct L as [|c L']; [congruence|].
      simpl in *. destruct (is_eol c); [discriminate|reflexivity]. }
    unfold match_println.
    rewrite (span_app_short _ x Y Ex).
    pose proof (span_lt _ _ Ex) as Hlt.
    set (n := span is_space x) in *.
    rewrite (skipn_app_le n x Y) by lia.
    assert (Hx1 : skipn n x = skipn n x0 ++ [LF]).
    { unfold x in *. rewrite length_app in Hlt. simpl in Hlt.
      apply skipn_app_le. lia. }
    rewrite Hx1. set (u := skipn n x0).
    rewrite <- app_assoc. cbn [app].
    rewrite (startswith_println_line u Y), (startswith_println_line u []).
    destruct (startswith u println) eqn:Eu; [|reflexivity].
    apply startswith_inv in Eu. set (z := skipn (List.length println) u) in *.
    rewrite Eu, <- !app_assoc, !skipn_app_exact.
    change (z ++ LF :: Y) with (z ++ [LF] ++ Y). rewrite app_assoc.
    assert (HLF : existsb (char_eqb LF) (z ++ [LF]) = true).
    { rewrite existsb_app. simpl. apply orb_true_r. }
    rewrite (to_semicolon_app _ Y HLF).
    destruct (to_semicolon (z ++ [LF])) as [k|] eqn:Ek; [|reflexivity].
    apply to_semicolon_split in Ek as [Hk _].
    rewrite (skipn_app_le k _ Y Hk).
    now rewrite (span_app_stop _ _ Y HeolY).
Qed.

Lemma bol_after_last (bol : bool) (x : text) :
  x <> [] -> bol_after bol x = true -> exists x0, x = x0 ++ [LF].
Proof.
  intros Hne H. destruct (exists_last Hne) as (x0 & c & ->).
  unfold bol_after in H. rewrite fold_left_app in H. simpl in H.
  apply char_eqb_eq in H. subst c. now exists x0.
Qed.

Lemma bol_after_cons (bol : bool) (c : char) (x : text) :
  bol_after bol (c :: x) = bol_after (char_eqb c LF) x.
Proof. reflexivity. Qed.

(** The substitution on a text that ends a line, followed by a kept line,
    is the substitution on the text, then that on the rest. *)
Lemma sub_from_prefix (L tail : text) :
  kept_line L = true -> line_end tail ->
  forall (pre : text) (bol : bool) (k : nat),
  k <= List.length pre -> bol_after bol pre = true ->
  sub_from match_println [] bol k (pre ++ L ++ tail) =
  sub_from match_println [] bol k pre ++
  sub_from match_println [] true 0 (L ++ tail).
Proof.
  intros HL Htail. induction pre as [|c pre IH]; intros bol k Hk Hbol.
  - simpl in Hk. replace k with 0 by lia. simpl in Hbol. subst bol.
    reflexivity.
  - rewrite bol_after_cons in Hbol. cbn [app].
    destruct k as [|k].
    + assert (Hm : match_println bol ((c :: pre) ++ L ++ tail) =
                   match_println bol (c :: pre)).
      { destruct bol; [|reflexivity].
        destruct (bol_after_last true (c :: pre)) as [x0 Hx0];
          [discriminate|now rewrite bol_after_cons|].
        rewrite Hx0. now apply match_println_local. }
      cbn [app] in Hm. cbn [sub_from]. rewrite Hm.
      destruct (match_println bol (c :: pre)) as [[|n]|] eqn:E.
      * cbn [app]. f_equal. apply IH; [lia|assumption].
      * apply match_println_le in E. simpl in E. cbn [app].
        apply IH; [lia|assumption].
      * cbn [app]. f_equal. apply IH; [lia|assumption].
    + cbn [sub_from]. apply IH; [simpl in Hk; lia|assumption].
Qed.

(** Within a line no match starts: the characters are kept. *)
Lemma sub_from_inside (L rest : text) :
  existsb (char_eqb LF) L = false ->
  sub_from match_println [] false 0 (L ++ rest) =
  L ++ sub_from match_println [] false 0 rest.
Proof.
  induction L as [|c L IH]; intros H; [reflexivity|].
  cbn [existsb] in H. apply orb_false_iff in H as [Hc HL].
  cbn [app sub_from]. rewrite match_println_false.
  rewrite char_eqb_sym, Hc. f_equal. now apply IH.
Qed.

Lemma sub_from_kept (L tail : text) :
  kept_line L = true -> line_end tail ->
  sub_from match_println [] true 0 (L ++ tail) =
  L ++ sub_from match_println [] false 0 tail.
Proof.
  intros HL Htail.
  pose proof (kept_line_no_match [] L tail eq_refl HL Htail) as Hm.
  apply kept_line_inv in HL as (HLF & _ & Hne & _ & _).
  destruct L as [|c L]; [congruence|].
  cbn [app] in Hm |- *. cbn [sub_from]. rewrite Hm.
  cbn [existsb] in HLF. apply orb_false_iff in HLF as [Hc HLF].
  rewrite char_eqb_sym, Hc. f_equal. now apply sub_from_inside.
Qed.

(** A kept line stays as it is: the output is the output for the text
    before the line, the line, and the output for the text after it. *)
Lemma kept_line_kept (pre L post : text) :
  bol_after true pre = true ->
  kept_line L = true ->
  strip_println (pre ++ L ++ LF :: post) =
    strip_println pre ++ L ++ LF :: strip_println post /\
  strip_println (pre ++ L) = strip_println pre ++ L.
Proof.
  intros Hpre HL. unfold strip_println, sub. split.
  - rewrite (sub_from_prefix L (LF :: post) HL) by
      (try right; eauto; lia).
    rewrite (sub_from_kept L (LF :: post) HL) by (right; eauto).
    reflexivity.
  - rewrite <- (app_nil_r L) at 1.
    rewrite (sub_from_prefix L [] HL) by (try left; auto; lia).
    rewrite (sub_from_kept L [] HL) by (now left).
    now rewrite app_nil_r.
Qed.

End RemoveLogsFacts.

(** A [log::info!] line is such a line. *)
Lemma log_info_line_kept (L : text) :
  existsb (char_eqb LF) L = false ->
  Regex.span RemoveLogs.is_eol L = 0 ->
  startswith (lstrip L) (lit "log::info!") = true ->
  RemoveLogs.kept_line L = true.
Proof.
  intros HLF Heol Hlog. apply startswith_inv in Hlog.
  unfold RemoveLogs.kept_line. rewrite HLF. cbn [negb andb].
  destruct L as [|c L'].
  - discriminate.
  - replace (RemoveLogs.is_eol c) with false.
    + cbn [negb andb]. rewrite Hlog. reflexivity.
    + simpl in Heol. destruct (RemoveLogs.is_eol c); [discriminate|reflexivity].
Qed.

(** C10 as stated fails: the line [" "] before a [println!] line is not a
    [println!] line, and it is deleted with it. *)
Lemma strip_println_drops_blank_line :
  RemoveLogs.strip_println RemoveLogs.blank_before_println
    = lit "a" ++ LF :: lit "b" ++ [LF] /\
  In (lit " ") (split [LF] RemoveLogs.blank_before_println) /\
  startswith (lstrip (lit " ")) RemoveLogs.println = false /\
  ~ In (lit " ")
       (split [LF] (RemoveLogs.strip_println RemoveLogs.blank_before_println)).
Proof.
  split; [vm_compute; reflexivity|].
  split; [vm_compute; tauto|].
  split; [reflexivity|].
  vm_compute. intros [H|[H|[H|[]]]]; discriminate.
Qed.

(** ** refactor_modules.py: a part whose braces do not close *)

Section Unbalanced.
Import RefactorModules Regex.
Variable unicode_alnum : char -> bool.

Lemma closes_spec (s : text) :
  forall d,
  closes d s = false <->
  forall k, k < List.length s -> (d + weight (firstn (S k) s) <> 0)%Z.
Proof.
  induction s as [|c s IH]; intros d.
  - split; [intros _ k Hk; simpl in Hk; lia|reflexivity].
  - cbn [closes]. rewrite orb_false_iff, IH, Z.eqb_neq. split.
    + intros [H0 Hs] [|k] Hk; rewrite weight_firstn_S.
      * rewrite weight_firstn_0. lia.
      * specialize (Hs k ltac:(simpl in Hk; lia)). lia.
    + intros H. split.
      * specialize (H 0 ltac:(simpl; lia)).
        rewrite weight_firstn_S, weight_firstn_0 in H. lia.
      * intros k Hk. specialize (H (S k) ltac:(simpl; lia)).
        rewrite weight_firstn_S in H. lia.
Qed.



(** A substitution whose matches and replacement hold the same characters
    of a class keeps these characters of the whole text. *)
Lemma filter_sub_from (p : char -> bool) (m : bool -> text -> option nat)
  (repl : text) :
  (forall bol s n, m bol s = Some (S n) ->
     S n <= List.length s /\ filter p (firstn (S n) s) = filter p repl) ->
  forall s bol k,
    filter p (sub_from m repl bol k s) = filter p (skipn k s).
Proof.
  intros Hm. induction s as [|c s IH]; intros bol k.
  - now destruct k.
  - destruct k as [|k]; cbn [sub_from skipn]; [|apply IH].
    destruct (m bol (c :: s)) as [[|n]|] eqn:E.
    + cbn [filter]. now rewrite IH.
    + destruct (Hm _ _ _ E) as [_ Hf].
      rewrite filter_app, IH, <- Hf.
      change (skipn n s) with (skipn (S n) (c :: s)).
      now rewrite <- filter_app, firstn_skipn.
    + cbn [filter]. now rewrite IH.
Qed.

(** A match of [pre \w+ post] is [pre], word characters and [post]. *)
Lemma match_word_shape (pre post : text) (bol : bool) (s : text) (n : nat) :
  match_word unicode_alnum pre post bol s = Some n ->
  exists w rest,
    s = pre ++ w ++ post ++ rest /\
    forallb (is_word unicode_alnum) w = true /\
    n = List.length pre + List.length w + List.length post.
Proof.
  unfold match_word. destruct (startswith s pre) eqn:Epre; [|discriminate].
  apply startswith_inv in Epre.
  set (s1 := skipn (List.length pre) s) in *.
  set (k := span (is_word unicode_alnum) s1).
  destruct (0 <? k); [|discriminate]. cbn [andb].
  destruct (startswith (skipn k s1) post) eqn:Epost; [|discriminate].
  intros [= <-]. apply startswith_inv in Epost.
  exists (firstn k s1), (skipn (List.length post) (skipn k s1)).
  destruct (span_split (is_word unicode_alnum) s1) as [Hw _]. fold k in Hw.
  repeat split.
  - rewrite <- Epost, firstn_skipn. exact Epre.
  - exact Hw.
  - rewrite length_firstn. pose proof (span_le (is_word unicode_alnum) s1).
    fold k in H. lia.
Qed.

(** Any word of one character or more between [pre] and [post] is found,
    when [post] starts outside [\w]: the run of word characters is the
    word. *)
Lemma match_word_found (pre post' rest w : text) (c : char) (bol : bool) :
  is_word unicode_alnum c = false ->
  w <> [] -> forallb (is_word unicode_alnum) w = true ->
  match_word unicode_alnum pre (c :: post') bol
    (pre ++ w ++ (c :: post') ++ rest) =
  Some (List.length pre + List.length w + List.length (c :: post')).
Proof.
  intros Hc Hne Hw. unfold match_word.
  rewrite startswith_app, skipn_app_exact.
  rewrite (span_app_all _ w _ Hw). cbn [app span]. rewrite Hc, Nat.add_0_r.
  rewrite skipn_app_exact.
  change (c :: post' ++ rest) with ((c :: post') ++ rest).
  rewrite startswith_app.
  destruct w as [|d w]; [congruence|]. reflexivity.
Qed.

Lemma is_word_not_brace (c : char) :
  is_word unicode_alnum c = true -> is_brace c = false.
Proof.
  intros H. unfold is_brace.
  destruct (char_eqb c open_brace) eqn:E1.
  - apply char_eqb_eq in E1. subst c. discriminate.
  - destruct (char_eqb c close_brace) eqn:E2; [|reflexivity].
    apply char_eqb_eq in E2. subst c. discriminate.
Qed.

Lemma filter_word (w : text) :
  forallb (is_word unicode_alnum) w = true -> filter is_brace w = [].
Proof.
  induction w as [|c w IH]; [reflexivity|].
  cbn [forallb filter]. intros H. apply andb_true_iff in H as [Hc Hw].
  rewrite (is_word_not_brace c Hc). now apply IH.
Qed.

Lemma filter_sub_word (pre post repl s : text) :
  filter is_brace repl = filter is_brace pre ++ filter is_brace post ->
  filter is_brace (sub (match_word unicode_alnum pre post) repl s) =
  filter is_brace s.
Proof.
  intros Hrepl. unfold sub.
  rewrite filter_sub_from; [reflexivity|].
  intros bol s0 n Hm.
  destruct (match_word_shape _ _ _ _ _ Hm) as (w & rest & -> & Hw & Hn).
  split.
  - rewrite !length_app. lia.
  - rewrite Hn, !app_assoc, <- !length_app, firstn_app, firstn_all.
    rewrite Nat.sub_diag. cbn [firstn]. rewrite app_nil_r.
    rewrite !filter_app, (filter_word w Hw), Hrepl, app_nil_r. reflexivity.
Qed.

(** The two reverts of lines 44-56 keep the braces of the part. *)
Lemma reverted_braces (part : text) :
  filter is_brace (reverted unicode_alnum part) = filter is_brace part.
Proof.
  unfold reverted, revert_callback, revert_import.
  rewrite filter_sub_word by reflexivity.
  now rewrite filter_sub_word by reflexivity.
Qed.





End Unbalanced.



(** ** remove_logs.py: what the substitution deletes *)

Section Erased.
Import Regex RemoveLogs.

Lemma to_semicolon_shape (x : text) :
  forall k, to_semicolon x = Some k ->
  exists body x3,
    x = body ++ semicolon :: x3 /\ k = S (List.length body) /\
    existsb (char_eqb LF) body = false /\
    existsb (char_eqb semicolon) body = false.
Proof.
  induction x as [|c x IH]; intros k; cbn [to_semicolon]; [discriminate|].
  destruct (char_eqb c semicolon) eqn:E1.
  - intros [= <-]. apply char_eqb_eq in E1. subst c.
    exists [], x. repeat split.
  - destruct (char_eqb c LF) eqn:E2; [discriminate|].
    destruct (to_semicolon x) as [k'|]; [|discriminate].
    intros [= <-].
    destruct (IH k' eq_refl) as (body & x3 & -> & -> & H1 & H2).
    exists (c :: body), x3. repeat split; cbn [existsb].
    + now rewrite char_eqb_sym, E2.
    + now rewrite char_eqb_sym, E1.
Qed.

(** A match is a span of the shape of [erased]. *)
Lemma match_println_shape (s : text) (n : nat) :
  match_println true s = Some n ->
  exists ws body eols rest,
    s = ws ++ println ++ body ++ semicolon :: eols ++ rest /\
    n = List.length (ws ++ println ++ body ++ semicolon :: eols) /\
    forallb is_space ws = true /\
    existsb (char_eqb LF) body = false /\
    existsb (char_eqb semicolon) body = false /\
    forallb is_eol eols = true.
Proof.
  unfold match_println.
  destruct (span_split is_space s) as [Hws _].
  pose proof (span_le is_space s) as Hle.
  set (n0 := span is_space s) in *.
  destruct (startswith (skipn n0 s) println) eqn:E; [|discriminate].
  apply startswith_inv in E.
  set (s2 := skipn (List.length println) (skipn n0 s)) in *.
  destruct (to_semicolon s2) as [k|] eqn:Ek; [|discriminate].
  intros [= <-].
  destruct (to_semicolon_shape s2 k Ek) as (body & s3 & Hs2 & -> & H1 & H2).
  destruct (span_split is_eol s3) as [Heol _].
  pose proof (span_le is_eol s3) as Hle3.
  exists (firstn n0 s), body, (firstn (span is_eol s3) s3),
         (skipn (span is_eol s3) s3).
  assert (Hskip : skipn (S (List.length body)) s2 = s3).
  { rewrite Hs2.
    change (body ++ semicolon :: s3) with (body ++ [semicolon] ++ s3).
    rewrite app_assoc.
    replace (S (List.length body)) with (List.length (body ++ [semicolon]))
      by (rewrite length_app; simpl; lia).
    apply skipn_app_exact. }
  rewrite Hskip. repeat split; try assumption.
  - rewrite firstn_skipn, <- Hs2, <- E. symmetry. apply firstn_skipn.
  - rewrite 3!length_app. cbn [List.length]. rewrite !length_firstn.
    rewrite println_length. lia.
Qed.

Lemma span_assoc (ws p body : text) (c : char) (eols rest : text) :
  (ws ++ p ++ body ++ c :: eols) ++ rest =
  ws ++ p ++ body ++ c :: eols ++ rest.
Proof. now rewrite <- !app_assoc. Qed.

Lemma sub_from_skip_all (m : bool -> text -> option nat) (repl : text)
  (x s : text) :
  forall bol,
  sub_from m repl bol (List.length x) (x ++ s) =
  sub_from m repl (bol_after bol x) 0 s.
Proof.
  induction x as [|c x IH]; intros bol; [reflexivity|].
  destruct s as [|d s']; cbn [List.length app sub_from]; apply IH.
Qed.

Lemma erased_sub_from (n : nat) :
  forall (s : text) (bol : bool), List.length s <= n ->
  erased bol s (sub_from match_println [] bol 0 s).
Proof.
  induction n as [|n IH]; intros s bol Hn.
  - destruct s; [constructor|simpl in Hn; lia].
  - destruct s as [|c s']; [constructor|]. cbn [sub_from].
    destruct (match_println bol (c :: s')) as [[|k]|] eqn:E.
    + constructor. apply IH. simpl in Hn. lia.
    + destruct bol; [|discriminate].
      change (sub_from match_println [] (char_eqb c LF) k s')
        with (sub_from match_println [] true (S k) (c :: s')).
      destruct (match_println_shape _ _ E)
        as (ws & body & eols & rest & Hs & Hk & H1 & H2 & H3 & H4).
      cbn [app].
      assert (Hlen : List.length rest <= n).
      { apply (f_equal (@List.length char)) in Hs.
        rewrite 3!length_app in Hs. cbn [List.length] in Hs, Hn.
        rewrite length_app, println_length in Hs. lia. }
      rewrite Hs, <- (span_assoc ws println body semicolon eols rest).
      rewrite Hk, sub_from_skip_all, span_assoc.
      constructor; try assumption.
      now apply IH.
    + constructor. apply IH. simpl in Hn. lia.
Qed.

(** C10, as amended.  What remove_logs.py deletes are spans that start at
    the start of a line and are made of whitespace (so also the
    whitespace-only lines before the [println!] line), [println!], the rest
    of that line up to its first semicolon, and the carriage returns and
    line feeds that follow.  A line that has a character other than
    whitespace, does not start with a carriage return, and either does not
    start with [println!] after its indentation or holds no semicolon, is
    kept as it is, in its place: the output is the output for the text
    before the line, the line, and the output for the text after it. *)
Theorem strip_println_frame (s : text) :
  erased true s (strip_println s) /\
  forall pre L post,
    bol_after true pre = true -> kept_line L = true ->
    (s = pre ++ L ++ LF :: post ->
     strip_println s = strip_println pre ++ L ++ LF :: strip_println post) /\
    (s = pre ++ L -> strip_println s = strip_println pre ++ L).
Proof.
  split.
  - apply (erased_sub_from (List.length s)). lia.
  - intros pre L post Hpre HL.
    destruct (kept_line_kept pre L post Hpre HL) as [H1 H2].
    split; intros ->; assumption.
Qed.

End Erased.

(** A [log::info!] line between two [println!] lines. *)
Lemma strip_println_frame_witness :
  RemoveLogs.strip_println
    (lit "println!(1);" ++ LF :: lit "    log::info!(x);" ++ LF ::
     lit "println!(2);" ++ [LF])
  = lit "    log::info!(x);" ++ [LF].
Proof.
  destruct (strip_println_frame
    (lit "println!(1);" ++ LF :: lit "    log::info!(x);" ++ LF ::
     lit "println!(2);" ++ [LF])) as [_ H].
  destruct (H (lit "println!(1);" ++ [LF]) (lit "    log::info!(x);")
              (lit "println!(2);" ++ [LF]) eq_refl eq_refl) as [H1 _].
  rewrite (H1 eq_refl). reflexivity.
Defined.

(** ** Occurrences of a pattern in a text that is put together *)

Section Occurrences.
Import Overlap.

Lemma startswith_nil_r (s : text) : startswith s [] = true.
Proof. reflexivity. Qed.

Lemma startswith_length (s p : text) :
  startswith s p = true -> List.length p <= List.length s.
Proof.
  intros H. apply startswith_inv in H.
  apply (f_equal (@List.length char)) in H. rewrite length_app in H. lia.
Qed.

(** A pattern found at the head of [x ++ y] is found at the head of [x],
    or [x] is a proper prefix of it and the rest is at the head of [y]. *)
Lemma startswith_app_inv (x y p : text) :
  startswith (x ++ y) p = true ->
  startswith x p = true \/
  exists p2, p = x ++ p2 /\ p2 <> [] /\ startswith y p2 = true.
Proof.
  revert p. induction x as [|c x IH]; intros p H.
  - destruct p as [|a p]; [now left|].
    right. exists (a :: p). repeat split; [discriminate|exact H].
  - destruct p as [|a p]; [now left|].
    cbn [app startswith] in H |- *.
    apply andb_true_iff in H as [Hac H].
    destruct (IH p H) as [Hx|(p2 & -> & Hne & Hy)].
    + left. now rewrite Hac, Hx.
    + right. exists p2. apply char_eqb_eq in Hac. subst a.
      repeat split; assumption.
Qed.

Lemma startswith_app_l (x y p : text) :
  startswith x p = true -> startswith (x ++ y) p = true.
Proof.
  intros H. apply startswith_inv in H. rewrite H, <- app_assoc.
  apply startswith_app.
Qed.

Lemma startswith_app_short (x y p : text) :
  startswith (x ++ y) p = true -> List.length p <= List.length x ->
  startswith x p = true.
Proof.
  intros H Hlen. destruct (startswith_app_inv x y p H)
    as [Hx|(p2 & -> & Hne & _)]; [assumption|].
  rewrite length_app in Hlen. destruct p2; [congruence|simpl in Hlen; lia].
Qed.

Lemma contains_app_l (p x y : text) :
  contains p x = true -> contains p (x ++ y) = true.
Proof.
  intros H. apply contains_spec in H as (a & b & ->).
  apply contains_spec. exists a, (b ++ y). now rewrite <- !app_assoc.
Qed.

Lemma contains_app_r (p x y : text) :
  contains p y = true -> contains p (x ++ y) = true.
Proof.
  intros H. apply contains_spec in H as (a & b & ->).
  apply contains_spec. exists (x ++ a), b. now rewrite <- !app_assoc.
Qed.

(** An occurrence in [x ++ y] is in [x], in [y], or across the two. *)
Lemma contains_app_inv (p x y : text) :
  contains p (x ++ y) = true ->
  contains p x = true \/ contains p y = true \/
  exists x' p1 p2,
    x = x' ++ p1 /\ p = p1 ++ p2 /\ p1 <> [] /\ p2 <> [] /\
    startswith y p2 = true.
Proof.
  induction x as [|c x IH]; intros H.
  - right; left. exact H.
  - cbn [app] in H. rewrite contains_cons in H.
    apply orb_true_iff in H as [H|H].
    + change (c :: x ++ y) with ((c :: x) ++ y) in H.
      destruct (startswith_app_inv _ _ _ H) as [Hx|(p2 & -> & Hne & Hy)].
      * left. now apply contains_startswith.
      * right; right. exists [], (c :: x), p2.
        repeat split; [discriminate|assumption..].
    + destruct (IH H) as [Hx|[Hy|(x' & p1 & p2 & -> & -> & H1 & H2 & Hy)]].
      * left. rewrite contains_cons, Hx. apply orb_true_r.
      * right; left. exact Hy.
      * right; right. exists (c :: x'), p1, p2. repeat split; assumption.
Qed.

Lemma apart_inv (p N : text) :
  apart p N = true ->
  contains p N = false /\
  (forall x y, p = x ++ N ++ y -> x = [] \/ y = []) /\
  forall p1 p2, p = p1 ++ p2 -> p1 <> [] -> p2 <> [] ->
    startswith N p2 = false /\ forall x', N <> x' ++ p1.
Proof.
  unfold apart. intros H.
  apply andb_true_iff in H as [H H3]. apply andb_true_iff in H as [H1 H2].
  apply negb_true_iff in H1.
  repeat split; try assumption.
  - intros x y Hp. destruct x as [|c x]; [now left|].
    destruct y as [|d y]; [now right|]. exfalso.
    destruct (exists_last (l := d :: y) ltac:(discriminate)) as (y' & e & Hy).
    rewrite Hy in Hp. clear Hy d y.
    assert (Hlen : List.length p = S (S (List.length (x ++ N ++ y')))).
    { rewrite Hp. cbn [app List.length]. rewrite !length_app.
      cbn [List.length]. lia. }
    apply orb_true_iff in H2 as [H2|H2].
    + apply Nat.leb_le in H2. rewrite Hlen, !length_app in H2. lia.
    + apply negb_true_iff in H2. unfold inner in H2.
      rewrite Hlen in H2. rewrite Hp in H2. cbn [app skipn Nat.sub] in H2.
      replace (x ++ N ++ y' ++ [e]) with ((x ++ N ++ y') ++ [e]) in H2
        by now rewrite <- !app_assoc.
      rewrite Nat.sub_0_r, firstn_app, firstn_all, Nat.sub_diag in H2.
      cbn [firstn] in H2. rewrite app_nil_r in H2.
      assert (Hc : contains N (x ++ N ++ y') = true)
        by (apply contains_spec; now exists x, y').
      congruence.
  - rewrite forallb_forall in H3.
    specialize (H3 (List.length p1)).
    rewrite H, length_app, skipn_app_exact in H3.
    destruct p1; [congruence|]. destruct p2; [congruence|].
    assert (Hin : In (List.length (c :: p1))
                     (seq 1 (List.length (c :: p1) + List.length (c0 :: p2) - 1)))
      by (apply in_seq; simpl; lia).
    apply H3, andb_true_iff in Hin as [Hin _].
    now apply negb_true_iff in Hin.
  - intros x' Heq.
    rewrite forallb_forall in H3.
    specialize (H3 (List.length p1)).
    rewrite H, length_app, firstn_app, firstn_all, Nat.sub_diag in H3.
    cbn [firstn] in H3. rewrite app_nil_r in H3.
    destruct p1; [congruence|]. destruct p2; [congruence|].
    assert (Hin : In (List.length (c :: p1))
                     (seq 1 (List.length (c :: p1) + List.length (c0 :: p2) - 1)))
      by (apply in_seq; simpl; lia).
    apply H3, andb_true_iff in Hin as [_ Hin].
    apply negb_true_iff in Hin. unfold endswith in Hin.
    rewrite Heq, length_app in Hin.
    replace (List.length x' + List.length (c :: p1) - List.length (c :: p1))
      with (List.length x' + 0) in Hin by lia.
    rewrite skipn_app_plus in Hin. cbn [skipn] in Hin.
    rewrite <- (app_nil_r (c :: p1)) in Hin at 3.
    rewrite startswith_app, andb_true_r in Hin.
    apply Nat.leb_gt in Hin. lia.
Qed.

Lemma apart_nonempty (p N : text) : apart p N = true -> p <> [].
Proof.
  intros H ->. apply apart_inv in H as (H & _). destruct N; discriminate.
Qed.

(** Between two texts without the pattern, [N] brings no occurrence. *)
Lemma apart_between (p N a b : text) :
  apart p N = true ->
  contains p a = false -> contains p b = false ->
  contains p (a ++ N ++ b) = false.
Proof.
  intros Hap Ha Hb.
  destruct (apart_inv p N Hap) as (HN & Hin & Hov).
  destruct (contains p (a ++ N ++ b)) eqn:E; [|reflexivity].
  destruct (contains_app_inv _ _ _ E)
    as [H|[H|(x' & p1 & p2 & -> & -> & H1 & H2 & Hy)]].
  - congruence.
  - destruct (contains_app_inv _ _ _ H)
      as [H'|[H'|(x' & p1 & p2 & HNeq & -> & H1 & H2 & _)]]; try congruence.
    destruct (Hov p1 p2 eq_refl H1 H2) as [_ Hno]. now apply Hno in HNeq.
  - destruct (Hov p1 p2 eq_refl H1 H2) as [Hno _].
    destruct (startswith_app_inv _ _ _ Hy) as [Hy'|(p3 & -> & H3 & _)];
      [congruence|].
    destruct (Hin p1 p3 eq_refl); congruence.
Qed.

Lemma contains_firstn (p s : text) (n : nat) :
  contains p (firstn n s) = true -> contains p s = true.
Proof.
  intros H. rewrite <- (firstn_skipn n s). now apply contains_app_l.
Qed.

Lemma contains_skipn (p s : text) (n : nat) :
  contains p (skipn n s) = true -> contains p s = true.
Proof.
  intros H. rewrite <- (firstn_skipn n s). now apply contains_app_r.
Qed.

(** The first occurrence is where [find_index] says, also when the text
    after it is another one. *)
Lemma find_index_prefix (p s y : text) (i : nat) :
  find_index p s = Some i ->
  find_index p (firstn (i + List.length p) s ++ y) = Some i.
Proof.
  revert i. induction s as [|c s IH]; intros i H.
  - simpl in H. destruct (startswith [] p) eqn:E; [|discriminate].
    injection H as <-. destruct p; [|discriminate].
    destruct y; reflexivity.
  - cbn [find_index] in H. destruct (startswith (c :: s) p) eqn:E.
    + injection H as <-. cbn [Nat.add].
      apply startswith_inv in E. rewrite E at 1.
      rewrite firstn_app, firstn_all, Nat.sub_diag. cbn [firstn].
      rewrite app_nil_r.
      destruct (p ++ y) as [|d t] eqn:Ep.
      * destruct p; [reflexivity|discriminate].
      * cbn [find_index]. rewrite <- Ep, startswith_app. reflexivity.
    + destruct (find_index p s) as [k|] eqn:F; [|discriminate].
      injection H as <-. cbn [Nat.add firstn app find_index].
      rewrite (IH k eq_refl).
      destruct (startswith (c :: firstn (k + List.length p) s ++ y) p) eqn:E2;
        [|reflexivity].
      exfalso.
      destruct (find_index_Some _ _ _ F) as (Hk & Hle & _).
      apply startswith_length in Hk. rewrite length_skipn in Hk.
      change (c :: firstn (k + List.length p) s ++ y)
        with ((c :: firstn (k + List.length p) s) ++ y) in E2.
      apply startswith_app_short in E2.
      * change (c :: firstn (k + List.length p) s)
          with (firstn (S (k + List.length p)) (c :: s)) in E2.
        apply (startswith_app_l _ (skipn (S (k + List.length p)) (c :: s))) in E2.
        rewrite firstn_skipn in E2. congruence.
      * cbn [List.length]. rewrite length_firstn. lia.
Qed.

Lemma find_index_gap (p s : text) (i : nat) :
  p <> [] -> find_index p s = Some i -> contains p (firstn i s) = false.
Proof.
  intros Hp H. destruct (contains p (firstn i s)) eqn:E; [|reflexivity].
  exfalso. apply contains_find_index in E as [j Hj].
  destruct (find_index_Some _ _ _ Hj) as (Hs & Hle & _).
  destruct (find_index_Some _ _ _ H) as (_ & Hi & Hmin).
  rewrite length_firstn in Hle.
  assert (Hlt : j < i).
  { apply startswith_length in Hs.
    rewrite length_skipn, length_firstn in Hs.
    destruct p; [congruence|simpl in Hs; lia]. }
  specialize (Hmin j Hlt).
  apply (startswith_app_l _ (skipn i s)) in Hs.
  rewrite <- (firstn_skipn i s) in Hmin.
  rewrite skipn_app in Hmin.
  replace (j - List.length (firstn i s)) with 0 in Hmin
    by (rewrite length_firstn; lia).
  cbn [skipn] in Hmin. congruence.
Qed.

(** A replacement that is [apart] from the pattern leaves none of it. *)
Lemma replace_removes (old new : text) :
  apart old new = true ->
  forall s, contains old (replace old new s) = false.
Proof.
  intros Hap. pose proof (apart_nonempty _ _ Hap) as Hne.
  assert (H : forall n s, List.length s <= n ->
                contains old (replace old new s) = false).
  { induction n as [|n IH]; intros s Hn.
    - destruct s; [|simpl in Hn; lia].
      rewrite replace_absent; destruct old; try congruence; reflexivity.
    - destruct (find_index old s) as [i|] eqn:F.
      + rewrite (replace_first old new s i Hne F).
        apply apart_between; [assumption|now apply find_index_gap|].
        apply IH. rewrite length_skipn.
        destruct (find_index_Some _ _ _ F) as (Hs & _ & _).
        apply startswith_length in Hs. rewrite length_skipn in Hs.
        destruct old; [congruence|simpl in *; lia].
      + apply find_index_None in F. now rewrite replace_absent. }
  intros s. now apply (H (List.length s)).
Qed.

(** A replacement that is [apart] from a pattern makes none of it. *)
Lemma replace_creates_none (p old new : text) :
  apart p new = true -> old <> [] ->
  forall s, contains p s = false -> contains p (replace old new s) = false.
Proof.
  intros Hap Hne.
  assert (H : forall n s, List.length s <= n -> contains p s = false ->
                contains p (replace old new s) = false).
  { induction n as [|n IH]; intros s Hn Hs.
    - destruct s; [|simpl in Hn; lia].
      destruct (contains old []) eqn:E.
      + destruct old; [congruence|discriminate].
      + now rewrite replace_absent.
    - destruct (find_index old s) as [i|] eqn:F.
      + rewrite (replace_first old new s i Hne F).
        apply apart_between; [assumption| |].
        * destruct (contains p (firstn i s)) eqn:E; [|reflexivity].
          apply contains_firstn in E. congruence.
        * apply IH.
          -- rewrite length_skipn.
             destruct (find_index_Some _ _ _ F) as (Hs' & _ & _).
             apply startswith_length in Hs'. rewrite length_skipn in Hs'.
             destruct old; [congruence|simpl in *; lia].
          -- destruct (contains p (skipn (i + List.length old) s)) eqn:E;
               [|reflexivity].
             apply contains_skipn in E. congruence.
      + apply find_index_None in F. now rewrite replace_absent. }
  intros s. now apply (H (List.length s)).
Qed.

End Occurrences.

(** ** A second run of add_logs.py, fix_macro_path.py, fix_macro_ident.py *)

Section SecondRun.
Import Script Overlap AddLogs FixMacro.

Lemma apart_target1_replacement1 : apart target1 replacement1 = true.
Proof. vm_compute. reflexivity. Qed.

Lemma apart_target1_replacement2 : apart target1 replacement2 = true.
Proof. vm_compute. reflexivity. Qed.

Lemma apart_target2_replacement2 : apart target2 replacement2 = true.
Proof. vm_compute. reflexivity. Qed.

(** X1.  add_logs.py can be run again: whatever the input, the file it
    wrote holds neither target any more, and a second run prints the two
    not-found lines and writes the same file back. *)
Theorem add_logs_second_run (content : text) :
  contains target1 (written add_logs content) = false /\
  contains target2 (written add_logs content) = false /\
  run add_logs (written add_logs content) =
  (Done tt,
   {| file := written add_logs content;
      console := [lit "Target 1 not found!"; lit "Target 2 not found!"] |}).
Proof.
  assert (Hw : written add_logs content =
               replace target2 replacement2
                 (replace target1 replacement1 content)).
  { unfold written. now rewrite add_logs_run. }
  assert (H1 : contains target1 (written add_logs content) = false).
  { rewrite Hw. apply replace_creates_none.
    - exact apart_target1_replacement2.
    - discriminate.
    - apply replace_removes, apart_target1_replacement1. }
  assert (H2 : contains target2 (written add_logs content) = false).
  { rewrite Hw. apply replace_removes, apart_target2_replacement2. }
  repeat split; try assumption.
  rewrite add_logs_run, H1.
  rewrite (replace_absent target1) by assumption.
  rewrite H2. now rewrite replace_absent.
Qed.

Lemma apart_ty_path : apart header_ty header_path = true.
Proof. vm_compute. reflexivity. Qed.

Lemma apart_path_ident : apart header_path header_ident = true.
Proof. vm_compute. reflexivity. Qed.

Lemma apart_ty_ident : apart header_ty header_ident = true.
Proof. vm_compute. reflexivity. Qed.

(** X2.  fix_macro_path.py leaves no [:ty] header and fix_macro_ident.py no
    [:path] header, on every input; each writes the same file when it is
    run again; and after the first then the second neither header is
    left. *)
Theorem macro_headers_removed (content : text) :
  contains header_ty (written fix_macro_path content) = false /\
  written fix_macro_path (written fix_macro_path content)
    = written fix_macro_path content /\
  contains header_path (written fix_macro_ident content) = false /\
  written fix_macro_ident (written fix_macro_ident content)
    = written fix_macro_ident content /\
  contains header_ty
    (written fix_macro_ident (written fix_macro_path content)) = false /\
  contains header_path
    (written fix_macro_ident (written fix_macro_path content)) = false.
Proof.
  rewrite !written_fix_macro_ident, !written_fix_macro_path.
  assert (H1 : contains header_ty (replace header_ty header_path content)
               = false) by apply replace_removes, apart_ty_path.
  assert (H2 : contains header_path (replace header_path header_ident content)
               = false) by apply replace_removes, apart_path_ident.
  repeat split.
  - exact H1.
  - now apply replace_absent.
  - exact H2.
  - now apply replace_absent.
  - apply replace_creates_none;
      [exact apart_ty_ident|discriminate|exact H1].
  - apply replace_removes, apart_path_ident.
Qed.

End SecondRun.

(** ** Lines and parts of a text *)

Lemma concat_readlines_from (s : text) :
  forall cur, concat (readlines_from cur s) = cur ++ s.
Proof.
  induction s as [|c s IH]; intros cur; cbn [readlines_from].
  - destruct cur; [reflexivity|]. cbn [concat]. now rewrite !app_nil_r.
  - destruct (char_eqb c LF).
    + cbn [concat]. rewrite IH. now rewrite <- app_assoc.
    + rewrite IH. now rewrite <- app_assoc.
Qed.

(** [''.join(f.readlines())] is [f.read()]. *)
Lemma concat_readlines (s : text) : concat (readlines s) = s.
Proof. apply concat_readlines_from. Qed.

Lemma contains_concat (p : text) (lines : list text) (line : text) :
  In line lines -> contains p line = true -> contains p (concat lines) = true.
Proof.
  intros Hin H. apply in_split in Hin as (l1 & l2 & ->).
  rewrite concat_app. cbn [concat].
  now apply contains_app_r, contains_app_l.
Qed.

(** A pattern that is not in the text is in none of its lines. *)
Lemma readlines_absent (p s : text) :
  contains p s = false ->
  forall line, In line (readlines s) -> contains p line = false.
Proof.
  intros H line Hin. destruct (contains p line) eqn:E; [|reflexivity].
  rewrite <- (concat_readlines s) in H.
  rewrite (contains_concat p _ line Hin E) in H. discriminate.
Qed.

Lemma join_cons (sep p : text) (q : text) (rest : list text) :
  join sep (p :: q :: rest) = p ++ sep ++ join sep (q :: rest).
Proof. reflexivity. Qed.

(** [sep.join(s.split(sep))] is [s]. *)
Lemma join_split (sep s : text) : sep <> [] -> join sep (split sep s) = s.
Proof.
  intros Hsep.
  assert (H : forall n s, List.length s <= n -> join sep (split sep s) = s).
  { induction n as [|n IH]; intros t Hn.
    - destruct t; [|simpl in Hn; lia].
      rewrite split_absent; [reflexivity|assumption|].
      destruct sep; [congruence|reflexivity].
    - destruct (find_index sep t) as [i|] eqn:F.
      + rewrite (split_first sep t i Hsep F).
        pose proof (split_length sep (skipn (i + List.length sep) t)) as Hl.
        destruct (split sep (skipn (i + List.length sep) t)) as [|q rest] eqn:E;
          [simpl in Hl; lia|].
        rewrite join_cons, <- E, IH.
        * symmetry. now apply find_index_split.
        * rewrite length_skipn.
          destruct (find_index_Some _ _ _ F) as (Hs & _ & _).
          apply startswith_length in Hs. rewrite length_skipn in Hs.
          destruct sep; [congruence|simpl in *; lia].
      + apply find_index_None in F. now rewrite split_absent. }
  now apply (H (List.length s)).
Qed.

Lemma contains_join (p sep : text) (parts : list text) (part : text) :
  In part parts -> contains p part = true ->
  contains p (join sep parts) = true.
Proof.
  induction parts as [|q rest IH]; intros Hin H; [destruct Hin|].
  destruct rest as [|r rest].
  - destruct Hin as [->|[]]. exact H.
  - rewrite join_cons. destruct Hin as [->|Hin].
    + now apply contains_app_l.
    + apply contains_app_r, contains_app_r. now apply IH.
Qed.

(** A pattern that is not in the text is in none of its parts. *)
Lemma split_absent_parts (p sep s : text) :
  sep <> [] -> contains p s = false ->
  forall part, In part (split sep s) -> contains p part = false.
Proof.
  intros Hsep H part Hin.
  destruct (contains p part) eqn:E; [|reflexivity].
  rewrite <- (join_split sep s Hsep) in H.
  rewrite (contains_join p sep _ part Hin E) in H. discriminate.
Qed.

(** ** patch_theme_listener.py and patch_theme_listener_logs.py *)

Section PatchTheme.
Import Script Overlap PatchThemeListener.

Lemma patch_theme_listener_run (content : text) :
  run patch_theme_listener content =
  if contains target_block content then
    (Done tt,
     {| file := replace target_block replacement_block content;
        console := [lit "Successfully patched individual_tool_windows.rs"] |})
  else not_found 10 (readlines content) {| file := content; console := [] |}.
Proof.
  unfold run, patch_theme_listener, bind, read_file. cbn [file].
  rewrite concat_readlines.
  destruct (contains target_block content); reflexivity.
Qed.

Lemma apart_target_replacement :
  apart target_block replacement_block = true.
Proof. vm_compute. reflexivity. Qed.

Lemma apart_target_logs : apart target_block replacement_block_logs = true.
Proof. vm_compute. reflexivity. Qed.

Lemma apart_replacement_logs :
  apart replacement_block replacement_block_logs = true.
Proof. vm_compute. reflexivity. Qed.

Lemma patch_theme_listener_logs_run (content : text) :
  run patch_theme_listener_logs content =
  if contains target_block content then
    (Done tt,
     {| file := replace target_block replacement_block_logs content;
        console :=
          [lit "Successfully patched individual_tool_windows.rs with logging"] |})
  else if contains replacement_block content then
    (Done tt,
     {| file := replace replacement_block replacement_block_logs content;
        console :=
          [lit "Found existing patch without logs. Updating to include logs.";
           lit "Successfully updated patch with logging"] |})
  else not_found 20 (readlines content) {| file := content; console := [] |}.
Proof.
  unfold run, patch_theme_listener_logs, bind, read_file. cbn [file].
  rewrite concat_readlines.
  destruct (contains target_block content); [reflexivity|].
  destruct (contains replacement_block content); reflexivity.
Qed.

(** X4.  Run after patch_theme_listener.py on a file that held the
    constructor block, patch_theme_listener_logs.py takes its second
    branch: it finds the patch without logs, replaces it by the patch with
    logs and prints its two lines; the file then holds the patch with logs
    and neither the first patch nor the original block. *)
Theorem patch_logs_after_patch (content : text) :
  contains target_block content = true ->
  run patch_theme_listener_logs (written patch_theme_listener content) =
    (Done tt,
     {| file := replace replacement_block replacement_block_logs
                  (replace target_block replacement_block content);
        console :=
          [lit "Found existing patch without logs. Updating to include logs.";
           lit "Successfully updated patch with logging"] |}) /\
  let final :=
    written patch_theme_listener_logs (written patch_theme_listener content) in
  contains replacement_block_logs final = true /\
  contains replacement_block final = false /\
  contains target_block final = false.
Proof.
  intros H.
  assert (Hw : written patch_theme_listener content =
               replace target_block replacement_block content).
  { unfold written. rewrite patch_theme_listener_run, H. reflexivity. }
  assert (Hgone : contains target_block
             (replace target_block replacement_block content) = false)
    by apply replace_removes, apart_target_replacement.
  assert (Hthere : contains replacement_block
             (replace target_block replacement_block content) = true)
    by (apply replace_present; [discriminate|exact H]).
  assert (Hrun :
    run patch_theme_listener_logs (written patch_theme_listener content) =
    (Done tt,
     {| file := replace replacement_block replacement_block_logs
                  (replace target_block replacement_block content);
        console :=
          [lit "Found existing patch without logs. Updating to include logs.";
           lit "Successfully updated patch with logging"] |})).
  { rewrite Hw, patch_theme_listener_logs_run, Hgone, Hthere. reflexivity. }
  split; [exact Hrun|]. cbv zeta. unfold written at 1 3 5.
  rewrite Hrun. cbn [snd file]. repeat split.
  - apply replace_present; [discriminate|exact Hthere].
  - apply replace_removes, apart_replacement_logs.
  - apply replace_creates_none;
      [exact apart_target_logs|discriminate|exact Hgone].
Qed.

End PatchTheme.

(** A file that is the constructor block. *)
Lemma patch_logs_after_patch_witness :
  Script.written PatchThemeListener.patch_theme_listener_logs
    (Script.written PatchThemeListener.patch_theme_listener
       PatchThemeListener.target_block)
  = PatchThemeListener.replacement_block_logs.
Proof.
  destruct (patch_logs_after_patch PatchThemeListener.target_block eq_refl)
    as [H _].
  unfold Script.written at 1. rewrite H. vm_compute. reflexivity.
Defined.

(** ** refactor_modules.py: the loop on every part, and the braces of the file *)

Section BraceBalance.
Import Script RefactorModules Regex.
Variable unicode_alnum : char -> bool.

Lemma closes_true (s : text) :
  forall d, closes d s = true ->
  exists k, k < List.length s /\ (d + weight (firstn (S k) s) = 0)%Z.
Proof.
  induction s as [|c s IH]; intros d H; [discriminate|].
  cbn [closes] in H. apply orb_true_iff in H as [H|H].
  - exists 0. split; [simpl; lia|].
    rewrite weight_firstn_S, weight_firstn_0. apply Z.eqb_eq in H. lia.
  - destruct (IH _ H) as (k & Hk & Hz). exists (S k).
    split; [simpl; lia|]. rewrite weight_firstn_S. lia.
Qed.

(** What the loop gives on any part. *)
Lemma end_index_cases (part : text) :
  (end_index part = (-1)%Z /\ closes 1 part = false) \/
  exists j, end_index part = Z.of_nat j /\ j < List.length part /\
            nth_error part j = Some close_brace /\ closes 1 part = true.
Proof.
  destruct (closes 1 part) eqn:E.
  - right. destruct (closes_true part 1%Z E) as (k & Hk & Hz).
    destruct (scan_balanced part 1 0 ltac:(lia) (ex_intro _ k (conj Hk Hz)))
      as (n & Hn1 & Hn2 & Hn3 & _).
    exists n. unfold end_index. rewrite Hn1. repeat split; assumption.
  - left. split; [|reflexivity].
    apply scan_unbalanced. now apply closes_spec.
Qed.

Lemma nth_error_split_at (s : text) (j : nat) (c : char) :
  nth_error s j = Some c -> s = firstn j s ++ c :: skipn (S j) s.
Proof.
  revert j. induction s as [|a s IH]; intros [|j] H; try discriminate.
  - injection H as ->. reflexivity.
  - cbn [firstn skipn app]. f_equal. now apply IH.
Qed.

(** X5.  On every part the brace-depth loop gives -1 or the index of a
    close brace of the part, and -1 exactly when the running depth never
    comes to 0; in the second case the content before the index, the brace
    and the rest after it, as the script slices them, make up the part. *)
Theorem end_index_range (part : text) :
  (end_index part = (-1)%Z /\ closes 1 part = false) \/
  (closes 1 part = true /\
   (0 <= end_index part < Z.of_nat (List.length part))%Z /\
   nth_error part (Z.to_nat (end_index part)) = Some close_brace /\
   part = firstn (Z.to_nat (end_index part)) part ++
          close_brace :: skipn (Z.to_nat (end_index part) + 1) part).
Proof.
  destruct (end_index_cases part) as [H|(j & Hj & Hlt & Hnth & Hc)].
  - now left.
  - right. rewrite Hj, Nat2Z.id, Nat.add_1_r. repeat split.
    + exact Hc.
    + lia.
    + lia.
    + exact Hnth.
    + now apply nth_error_split_at.
Qed.

Lemma weight_app (x y : text) : weight (x ++ y) = (weight x + weight y)%Z.
Proof.
  induction x as [|c x IH]; cbn [app weight]; [reflexivity|].
  rewrite IH. lia.
Qed.

Lemma weight_filter (s : text) : weight (filter is_brace s) = weight s.
Proof.
  induction s as [|c s IH]; [reflexivity|]. cbn [filter weight].
  destruct (is_brace c) eqn:E.
  - cbn [weight]. now rewrite IH.
  - rewrite IH. assert (brace_weight c = 0%Z); [|lia].
    unfold is_brace, brace_weight in *.
    apply orb_false_iff in E as [-> ->]. reflexivity.
Qed.

Lemma weight_reverted (part : text) :
  weight (reverted unicode_alnum part) = weight part.
Proof.
  rewrite <- weight_filter, reverted_braces. apply weight_filter.
Qed.

(** A literal replacement whose two texts hold the same braces keeps the
    braces of the text. *)
Lemma filter_replace_from (old new : text) :
  old <> [] -> filter is_brace old = filter is_brace new ->
  forall s k,
    filter is_brace (replace_from old new k s) = filter is_brace (skipn k s).
Proof.
  intros Hne Hf. induction s as [|c s IH]; intros k.
  - now destruct k.
  - destruct k as [|k]; cbn [replace_from skipn]; [|apply IH].
    destruct (startswith (c :: s) old) eqn:E.
    + rewrite filter_app, IH, <- Hf.
      apply startswith_inv in E.
      assert (Hs : skipn (List.length old - 1) s =
                   skipn (List.length old) (c :: s)).
      { destruct old as [|o old']; [congruence|].
        cbn [List.length skipn].
        now replace (S (List.length old') - 1) with (List.length old') by lia. }
      rewrite Hs, <- filter_app. now rewrite <- E.
    + cbn [filter]. now rewrite IH.
Qed.

Lemma weight_replace (old new s : text) :
  old <> [] -> filter is_brace old = filter is_brace new ->
  weight (replace old new s) = weight s.
Proof.
  intros Hne Hf. destruct old as [|o old]; [congruence|].
  cbn [replace]. rewrite <- weight_filter.
  rewrite (filter_replace_from (o :: old) new Hne Hf s 0).
  apply weight_filter.
Qed.

Lemma tools_no_brace (i : nat) (tool_name mod_name : text) :
  nth_error tools i = Some (tool_name, mod_name) -> weight mod_name = 0%Z.
Proof.
  do 8 (destruct i as [|i]; [intros [= <- <-]; reflexivity|]).
  destruct i; discriminate.
Qed.

Lemma weight_block (mod_name slint_content : text) :
  weight (block mod_name slint_content) =
  (weight mod_name + weight slint_content)%Z.
Proof.
  unfold block. rewrite !weight_app.
  change (weight (lit "pub mod ")) with 0%Z.
  match goal with
  | |- (_ + (_ + (weight ?a + (_ + weight ?b))))%Z = _ =>
    change (weight a) with 2%Z; change (weight b) with (-2)%Z
  end.
  lia.
Qed.

(** The body of the loop adds to [new_content] a text with the braces of
    the separator and the part, in weight. *)
Lemma wrap_part_weight (i : nat) (part new_content : text) (w : world) :
  exists t w',
    wrap_part unicode_alnum i part new_content w = (Done t, w') /\
    file w' = file w /\
    weight t = (weight new_content + 1 + weight part)%Z.
Proof.
  unfold wrap_part.
  destruct (nth_error tools i) as [[tool_name mod_name]|] eqn:Et.
  - unfold wrap.
    destruct (end_index_cases (reverted unicode_alnum part))
      as [[Hj _]|(j & Hj & Hlt & Hnth & _)]; rewrite Hj.
    + eexists _, _. split; [reflexivity|]. split; [reflexivity|].
      rewrite !weight_app, weight_reverted.
      change (weight file_sep) with 1%Z. lia.
    + replace (negb (Z.of_nat j =? -1)%Z) with true
        by (symmetry; apply negb_true_iff, Z.eqb_neq; lia).
      eexists _, _. split; [reflexivity|]. split; [reflexivity|].
      rewrite Nat2Z.id, Nat.add_1_r, !weight_app, weight_block.
      rewrite (tools_no_brace i _ _ Et).
      pose proof (nth_error_split_at _ _ _ Hnth) as Hs.
      apply (f_equal weight) in Hs.
      rewrite weight_app, weight_reverted in Hs. cbn [weight] in Hs.
      change (brace_weight close_brace) with (-1)%Z in Hs. lia.
  - eexists _, _. split; [reflexivity|]. split; [reflexivity|].
    rewrite !weight_app. change (weight file_sep) with 1%Z. lia.
Qed.

Lemma weight_join (parts : list text) (p : text) :
  weight (join file_sep (p :: parts)) =
  (weight p + fold_right (fun q acc => 1 + weight q + acc) 0 parts)%Z.
Proof.
  revert p. induction parts as [|q rest IH]; intros p.
  - cbn [join fold_right]. lia.
  - rewrite join_cons, !weight_app, IH. cbn [fold_right].
    change (weight file_sep) with 1%Z. lia.
Qed.

Lemma wrap_loop_weight (parts : list text) :
  forall (i : nat) (new_content : text) (w : world),
  exists t w',
    wrap_loop unicode_alnum i parts new_content w = (Done t, w') /\
    file w' = file w /\
    weight t =
    (weight new_content
     + fold_right (fun q acc => 1 + weight q + acc) 0 parts)%Z.
Proof.
  induction parts as [|part rest IH]; intros i new_content w.
  - eexists _, _. split; [reflexivity|]. split; [reflexivity|].
    cbn [fold_right]. lia.
  - cbn [wrap_loop]. unfold bind.
    destruct (wrap_part_weight i part new_content w)
      as (t & w' & -> & Hf & Hw).
    destruct (IH (S i) t w') as (t2 & w2 & -> & Hf2 & Hw2).
    eexists _, _. split; [reflexivity|]. split; [congruence|].
    rewrite Hw2, Hw. cbn [fold_right]. lia.
Qed.

Lemma weight_update_enum (content : text) :
  weight (update_enum content) = weight content.
Proof.
  unfold update_enum, tools. cbn [fold_left].
  repeat (rewrite weight_replace; [|discriminate|reflexivity]).
  reflexivity.
Qed.

Lemma weight_update_calls (content : text) :
  weight (update_calls content) = weight content.
Proof.
  unfold update_calls, tools. cbn [fold_left].
  repeat (rewrite weight_replace; [|discriminate|reflexivity]).
  reflexivity.
Qed.

(** X6.  refactor_modules.py keeps the balance of the braces of the file:
    on every input the file it writes has as many open braces more than
    close braces as the file it read. *)
Theorem refactor_modules_weight (content : text) :
  exists w',
    run (refactor_modules unicode_alnum) content = (Done tt, w') /\
    weight (file w') = weight content.
Proof.
  unfold run, refactor_modules, bind, read_file. cbn [file].
  set (c1 := replace _ _ content).
  assert (Hc1 : weight c1 = weight content).
  { unfold c1. apply weight_replace; [discriminate|reflexivity]. }
  pose proof (join_split file_sep c1 ltac:(discriminate)) as Hjoin.
  pose proof (split_length file_sep c1) as Hlen.
  destruct (split file_sep c1) as [|p parts]; [simpl in Hlen; lia|].
  cbn [hd tl].
  destruct (wrap_loop_weight parts 0 p {| file := content; console := [] |})
    as (t & w1 & -> & _ & Hw).
  eexists. split; [reflexivity|]. cbn [file].
  rewrite weight_update_calls, weight_update_enum, Hw, <- Hc1, <- Hjoin.
  now rewrite weight_join.
Qed.

End BraceBalance.

(** ** fix_conflicts.py and fix_build.py on a file they have nothing to do in *)

Section NothingToDo.
Import Script.

Lemma join_concat (sep p : text) (parts : list text) :
  join sep (p :: parts) = p ++ concat (map (app sep) parts).
Proof.
  revert p. induction parts as [|q rest IH]; intros p.
  - cbn [join map concat]. now rewrite app_nil_r.
  - rewrite join_cons, IH. cbn [map concat]. now rewrite <- app_assoc.
Qed.

Lemma rename_loop_absent (parts : list text) :
  forall (i : nat) (new_content : text),
  (forall part, In part parts ->
     contains (lit "import { SlintThemeColors }" ++ FixConflicts.theme_types)
              part = false /\
     contains (lit "callback set_theme(SlintThemeColors);") part = false) ->
  FixConflicts.rename_loop i parts new_content =
  new_content ++ concat (map (app FixConflicts.file_sep) parts).
Proof.
  induction parts as [|part rest IH]; intros i new_content H.
  - cbn [FixConflicts.rename_loop map concat]. now rewrite app_nil_r.
  - cbn [FixConflicts.rename_loop map concat].
    rewrite IH by (intros q Hq; apply H; now right).
    destruct (H part (or_introl eq_refl)) as [H1 H2].
    unfold FixConflicts.rename_part.
    destruct (nth_error FixConflicts.tools i) as [[tool_name theme_type]|].
    + rewrite (replace_absent _ _ part H1), (replace_absent _ _ part H2).
      now rewrite <- !app_assoc.
    + now rewrite <- !app_assoc.
Qed.

(** X7.  The second step of fix_conflicts.py (lines 54-96: split at
    ['slint::slint! {'], rewrite each part, put the separator back) gives
    back a text that holds neither the import line nor the callback line
    it rewrites, however many blocks the text has. *)
Theorem rename_loop_identity (content : text) :
  contains (lit "import { SlintThemeColors }" ++ FixConflicts.theme_types)
           content = false ->
  contains (lit "callback set_theme(SlintThemeColors);") content = false ->
  let parts := split FixConflicts.file_sep content in
  FixConflicts.rename_loop 0 (tl parts) (hd [] parts) = content.
Proof.
  intros H1 H2 parts.
  pose proof (join_split FixConflicts.file_sep content ltac:(discriminate))
    as Hjoin. fold parts in Hjoin.
  assert (Hparts : forall part, In part parts ->
     contains (lit "import { SlintThemeColors }" ++ FixConflicts.theme_types)
              part = false /\
     contains (lit "callback set_theme(SlintThemeColors);") part = false).
  { intros part Hin. split;
      apply (split_absent_parts _ FixConflicts.file_sep content);
      try assumption; discriminate. }
  pose proof (split_length FixConflicts.file_sep content) as Hlen.
  fold parts in Hlen.
  destruct parts as [|p rest]; [simpl in Hlen; lia|]. cbn [hd tl].
  rewrite rename_loop_absent by (intros q Hq; apply Hparts; now right).
  now rewrite <- join_concat.
Qed.

Lemma first_index_none {A : Type} (p : A -> bool) (l : list A) :
  (forall x, In x l -> p x = false) -> FixBuild.first_index p l = None.
Proof.
  induction l as [|x l IH]; intros H; [reflexivity|].
  cbn [FixBuild.first_index]. rewrite (H x (or_introl eq_refl)).
  rewrite IH; [reflexivity|]. intros y Hy. apply H. now right.
Qed.

Lemma indices_none (p : text -> bool) (l : list text) :
  forall i, (forall x, In x l -> p x = false) -> FixBuild.indices p i l = [].
Proof.
  induction l as [|x l IH]; intros i H; [reflexivity|].
  cbn [FixBuild.indices]. rewrite (H x (or_introl eq_refl)).
  apply IH. intros y Hy. apply H. now right.
Qed.

(** X8.  fix_build.py writes back exactly the file it read when no line
    holds ['macro_rules! apply_theme'] and none holds ['slint::slint! {']:
    reading the lines and writing them loses nothing. *)
Theorem fix_build_nothing_to_do (content : text) :
  contains (lit "macro_rules! apply_theme") content = false ->
  contains (lit "slint::slint! {") content = false ->
  run FixBuild.fix_build content =
  (Done tt, {| file := content; console := [] |}).
Proof.
  intros Hm Hs.
  pose proof (readlines_absent _ _ Hm) as Hm'.
  pose proof (readlines_absent _ _ Hs) as Hs'.
  unfold run, FixBuild.fix_build, bind, read_file, write_file. cbn [file console].
  assert (H1 : FixBuild.fix_macro (readlines content) = readlines content).
  { unfold FixBuild.fix_macro, FixBuild.first_from. cbn [skipn].
    now rewrite (first_index_none _ _ Hm'). }
  rewrite H1.
  assert (H2 : FixBuild.first_block (readlines content) = readlines content).
  { unfold FixBuild.first_block, FixBuild.first_from. cbn [skipn].
    now rewrite (first_index_none _ _ Hs'). }
  rewrite H2.
  assert (H3 : FixBuild.other_blocks (readlines content) = readlines content).
  { unfold FixBuild.other_blocks. now rewrite (indices_none _ _ 0 Hs'). }
  rewrite H3, concat_readlines. reflexivity.
Qed.

End NothingToDo.

(** A file with one block and nothing to rename in it. *)
Lemma rename_loop_identity_witness :
  FixConflicts.rename_loop 0
    (tl (split FixConflicts.file_sep (lit "use a; slint::slint! { x } fn f() {}")))
    (hd [] (split FixConflicts.file_sep (lit "use a; slint::slint! { x } fn f() {}")))
  = lit "use a; slint::slint! { x } fn f() {}".
Proof.
  apply (rename_loop_identity (lit "use a; slint::slint! { x } fn f() {}"));
    reflexivity.
Defined.

(** A file of two lines, the last one without its line feed. *)
Lemma fix_build_nothing_to_do_witness :
  Script.run FixBuild.fix_build (lit "fn main() {
}") =
  (Script.Done tt,
   {| Script.file := lit "fn main() {
}"; Script.console := [] |}).
Proof.
  apply (fix_build_nothing_to_do (lit "fn main() {
}")); reflexivity.
Defined.

(** ** What a script reads never holds a carriage return *)

Section ReadText.
Import TextIO.

(** X9.  Whatever is on disk, the text a script reads holds no carriage
    return; so a text that was read, written back unchanged and read again
    is the same text, with the line separator of either platform: the read
    undoes the newline translation of the write, and the write does not
    raise when the codec can encode the line feed, the line separator and
    the characters of the file. *)
Theorem read_text_stable (disk : text) :
  existsb (char_eqb CR) (load disk) = false /\
  load (translate posix (load disk)) = load disk /\
  load (translate windows (load disk)) = load disk /\
  (forall (encodable : char -> bool) (linesep : text),
     encodable LF = true -> forallb encodable linesep = true ->
     forallb encodable disk = true ->
     save encodable linesep (load disk) =
     Some (translate linesep (load disk))).
Proof.
  assert (H : existsb (char_eqb CR) (load disk) = false)
    by (apply (load_no_cr disk (List.length disk)); lia).
  repeat split.
  - exact H.
  - apply load_translate; [now left|exact H].
  - apply load_translate; [now right|exact H].
  - intros encodable linesep HLF Hsep Hdisk.
    apply save_encodable; [exact Hsep|].
    apply (load_forallb encodable disk HLF (List.length disk));
      [lia|exact Hdisk].
Qed.

End ReadText.

(** ** fix_macro_final.py run twice *)

Section FinalTwice.
Import Script Overlap FixMacroFinal.

Lemma written_fix_macro_final (content : text) :
  written fix_macro_final content = fix_semicolon (fix_angle content).
Proof. reflexivity. Qed.

Lemma apart_angle_invoke : apart angle_old (invoke ++ [semicolon]) = true.
Proof. vm_compute. reflexivity. Qed.

(** The semicolon fix applied twice to a text with the call. *)
Lemma fix_semicolon_twice (content : text) (i : nat) :
  find_index invoke content = Some i ->
  exists rest,
    fix_semicolon (fix_semicolon content) =
    firstn i content ++ (invoke ++ [semicolon; semicolon]) ++ rest.
Proof.
  intros F. unfold fix_semicolon.
  assert (Hne : invoke <> []) by discriminate.
  pose proof (find_index_Some _ _ _ F) as (_ & Hle & _).
  assert (Hlen : List.length (firstn i content) = i)
    by (rewrite length_firstn; lia).
  set (t' := replace invoke (invoke ++ [semicolon])
               (skipn (i + List.length invoke) content)).
  assert (Ht : replace invoke (invoke ++ [semicolon]) content =
               firstn (i + List.length invoke) content ++ semicolon :: t').
  { rewrite (replace_first _ _ _ i Hne F). fold t'.
    rewrite (find_index_split _ _ _ F) at 2.
    rewrite firstn_app, Hlen.
    replace (i + List.length invoke - i) with (List.length invoke) by lia.
    rewrite firstn_app, firstn_all, Nat.sub_diag. cbn [firstn].
    rewrite app_nil_r, (firstn_all2 (firstn i content)) by lia.
    now rewrite <- !app_assoc. }
  assert (F2 : find_index invoke
                 (replace invoke (invoke ++ [semicolon]) content) = Some i)
    by (rewrite Ht; now apply find_index_prefix).
  rewrite (replace_first _ _ _ i Hne F2).
  assert (Hpre : firstn i (replace invoke (invoke ++ [semicolon]) content)
                 = firstn i content).
  { rewrite Ht, firstn_app, firstn_firstn.
    replace (Nat.min i (i + List.length invoke)) with i by lia.
    replace (i - List.length (firstn (i + List.length invoke) content))
      with 0 by (rewrite length_firstn; lia).
    cbn [firstn]. apply app_nil_r. }
  assert (Hpost : skipn (i + List.length invoke)
                    (replace invoke (invoke ++ [semicolon]) content)
                  = semicolon :: t').
  { rewrite Ht. rewrite skipn_app.
    rewrite skipn_all2 by (rewrite length_firstn; lia).
    replace (i + List.length invoke
             - List.length (firstn (i + List.length invoke) content))
      with 0; [reflexivity|].
    rewrite length_firstn.
    pose proof (find_index_split _ _ _ F) as Hs.
    apply (f_equal (@List.length char)) in Hs.
    rewrite !length_app, Hlen in Hs. lia. }
  rewrite Hpre, Hpost.
  exists (replace invoke (invoke ++ [semicolon]) t').
  reflexivity.
Qed.

(** X10.  fix_macro_final.py is not to be run twice: its semicolon fix
    finds its own result.  On a file that holds the call
    [$window.invoke_set_theme(slint_colors)] and not the angle-bracket
    form, the first run leaves the call in the file and the second run
    makes the first call end with two semicolons. *)
Theorem fix_macro_final_twice (content : text) :
  contains angle_old content = false ->
  contains invoke content = true ->
  contains invoke (written fix_macro_final content) = true /\
  contains (invoke ++ [semicolon; semicolon])
    (written fix_macro_final (written fix_macro_final content)) = true.
Proof.
  intros Ha Hi.
  assert (H1 : written fix_macro_final content = fix_semicolon content).
  { rewrite written_fix_macro_final. unfold fix_angle.
    now rewrite replace_absent. }
  assert (H2 : contains angle_old (fix_semicolon content) = false).
  { apply replace_creates_none;
      [exact apart_angle_invoke|discriminate|exact Ha]. }
  split.
  - rewrite H1. unfold fix_semicolon.
    apply contains_find_index in Hi as [i F].
    assert (Hne : invoke <> []) by discriminate.
    rewrite (replace_first _ _ _ i Hne F).
    apply contains_spec. exists (firstn i content). eexists.
    rewrite <- !app_assoc. reflexivity.
  - rewrite H1, written_fix_macro_final. unfold fix_angle.
    rewrite (replace_absent _ _ _ H2).
    apply contains_find_index in Hi as [i F].
    destruct (fix_semicolon_twice content i F) as [rest ->].
    apply contains_spec. now exists (firstn i content), rest.
Qed.

End FinalTwice.

(** The last statement of the macro, as fix_build.py leaves it. *)
Lemma fix_macro_final_twice_witness :
  contains (lit "$window.invoke_set_theme(slint_colors);;")
    (Script.written FixMacroFinal.fix_macro_final
       (Script.written FixMacroFinal.fix_macro_final
          (lit "        $window.invoke_set_theme(slint_colors)"))) = true.
Proof.
  apply (fix_macro_final_twice
    (lit "        $window.invoke_set_theme(slint_colors)") eq_refl eq_refl).
Defined.

(** ** rewrite_macro.py *)

Section Lines.
Import Regex RewriteMacro.

Lemma text_eqb_eq (a b : text) : text_eqb a b = true <-> a = b.
Proof.
  revert b. induction a as [|x a IH]; intros [|y b]; cbn [text_eqb];
    try (split; [discriminate|discriminate]); [split; reflexivity|].
  rewrite andb_true_iff, char_eqb_eq, IH. split.
  - intros [-> ->]. reflexivity.
  - intros [= -> ->]. now split.
Qed.

Lemma readlines_from_body (b y : text) :
  forallb (fun c => negb (char_eqb c LF)) b = true ->
  forall cur,
  readlines_from cur (b ++ LF :: y) =
  (cur ++ b ++ [LF]) :: readlines_from [] y.
Proof.
  induction b as [|c b IH]; intros H cur.
  - reflexivity.
  - cbn [forallb] in H. apply andb_true_iff in H as [Hc Hb].
    apply negb_true_iff in Hc. cbn [app readlines_from]. rewrite Hc.
    rewrite (IH Hb). now rewrite <- app_assoc.
Qed.

Lemma readlines_from_open (l : text) :
  forallb (fun c => negb (char_eqb c LF)) l = true ->
  forall cur,
  readlines_from cur l =
  match cur ++ l with [] => [] | _ :: _ => [cur ++ l] end.
Proof.
  induction l as [|c l IH]; intros H cur.
  - cbn [readlines_from]. rewrite app_nil_r. reflexivity.
  - cbn [forallb] in H. apply andb_true_iff in H as [Hc Hl].
    apply negb_true_iff in Hc. cbn [readlines_from]. rewrite Hc.
    rewrite (IH Hl), <- app_assoc. reflexivity.
Qed.

Lemma closed_line_inv (l : text) :
  closed_line l = true ->
  exists b, l = b ++ [LF] /\
            forallb (fun c => negb (char_eqb c LF)) b = true.
Proof.
  unfold closed_line. intros H. apply text_eqb_eq in H.
  destruct (span_split (fun c => negb (char_eqb c LF)) l) as [Hb _].
  eexists. split; [|exact Hb]. rewrite <- H. symmetry. apply firstn_skipn.
Qed.

Lemma closed_line_intro (b : text) :
  forallb (fun c => negb (char_eqb c LF)) b = true ->
  closed_line (b ++ [LF]) = true.
Proof.
  intros H. unfold closed_line. rewrite (span_app_all _ b _ H).
  cbn [span]. change (negb (char_eqb LF LF)) with false. cbn iota.
  rewrite Nat.add_0_r, skipn_app, skipn_all, Nat.sub_diag. reflexivity.
Qed.

Lemma readlines_closed (l y : text) :
  closed_line l = true -> readlines (l ++ y) = l :: readlines y.
Proof.
  intros H. destruct (closed_line_inv l H) as (b & -> & Hb).
  unfold readlines. rewrite <- app_assoc. cbn [app].
  now rewrite (readlines_from_body b y Hb []).
Qed.

Lemma readlines_open (l : text) : open_line l = true -> readlines l = [l].
Proof.
  unfold open_line. destruct l as [|c l]; [discriminate|]. intros H.
  unfold readlines. now rewrite (readlines_from_open _ H []).
Qed.

Lemma line_list_cons (l : text) (rest : list text) :
  closed_line l = true -> line_list rest = true ->
  line_list (l :: rest) = true.
Proof.
  intros Hl Hr. cbn [line_list]. rewrite Hl.
  destruct rest; [reflexivity|exact Hr].
Qed.

Lemma line_list_readlines_from (s : text) :
  forall cur, forallb (fun c => negb (char_eqb c LF)) cur = true ->
  line_list (readlines_from cur s) = true.
Proof.
  induction s as [|c s IH]; intros cur Hcur; cbn [readlines_from].
  - destruct cur as [|d cur]; [reflexivity|].
    cbn [line_list]. unfold open_line. rewrite Hcur. apply orb_true_r.
  - destruct (char_eqb c LF) eqn:E.
    + apply char_eqb_eq in E. subst c. apply line_list_cons.
      * now apply closed_line_intro.
      * now apply IH.
    + apply IH. rewrite forallb_app, Hcur. cbn [forallb]. now rewrite E.
Qed.

(** The lines of a text are closed lines, the last one closed or open. *)
Lemma line_list_readlines (s : text) : line_list (readlines s) = true.
Proof. now apply line_list_readlines_from. Qed.

(** Reading the lines of what such lines make gives the lines. *)
Lemma readlines_concat (lines : list text) :
  line_list lines = true -> readlines (concat lines) = lines.
Proof.
  induction lines as [|l rest IH]; intros H; [reflexivity|].
  destruct rest as [|r rest].
  - cbn [concat line_list] in *. apply orb_true_iff in H as [H|H].
    + rewrite (readlines_closed l [] H). reflexivity.
    + rewrite app_nil_r. now apply readlines_open.
  - cbn [line_list] in H. apply andb_true_iff in H as [Hl Hr].
    cbn [concat]. rewrite (readlines_closed _ _ Hl). f_equal.
    apply IH. exact Hr.
Qed.

Lemma line_list_app (x y : list text) :
  forallb closed_line x = true -> line_list y = true ->
  line_list (x ++ y) = true.
Proof.
  induction x as [|l x IH]; intros Hx Hy; [exact Hy|].
  cbn [forallb] in Hx. apply andb_true_iff in Hx as [Hl Hx].
  cbn [app]. apply line_list_cons; [exact Hl|now apply IH].
Qed.

Lemma line_list_firstn (lines : list text) :
  forall k, line_list lines = true -> k < List.length lines ->
  forallb closed_line (firstn k lines) = true.
Proof.
  induction lines as [|l rest IH]; intros k H Hk; [simpl in Hk; lia|].
  destruct k as [|k]; [reflexivity|]. cbn [firstn forallb].
  destruct rest as [|r rest]; [simpl in Hk; lia|].
  cbn [line_list] in H. apply andb_true_iff in H as [Hl Hr].
  rewrite Hl. apply IH; [exact Hr|simpl in Hk |- *; lia].
Qed.

Lemma line_list_skipn (lines : list text) :
  forall k, line_list lines = true -> line_list (skipn k lines) = true.
Proof.
  induction lines as [|l rest IH]; intros k H; [now destruct k|].
  destruct k as [|k]; [exact H|]. cbn [skipn]. apply IH.
  destruct rest as [|r rest]; [reflexivity|].
  cbn [line_list] in H. now apply andb_true_iff in H as [_ Hr].
Qed.

End Lines.

Section RewriteMacroFacts.
Import Script Regex RewriteMacro.

Lemma find_macro_app_none (x y : list text) :
  forall i st, find_macro i st x = None ->
  exists st', find_macro i st (x ++ y) = find_macro (i + List.length x) st' y.
Proof.
  induction x as [|l x IH]; intros i st H.
  - exists st. cbn [app List.length]. now rewrite Nat.add_0_r.
  - cbn [find_macro app] in H |- *. cbn [List.length].
    rewrite Nat.add_succ_r.
    destruct (if contains macro_name l then Some i else st) as [ms|].
    + destruct (text_eqb (strip l) (lit "}") && (ms <? i)); [discriminate|].
      exact (IH _ _ H).
    + exact (IH _ _ H).
Qed.

Lemma find_macro_name_line (m : text) (rest : list text) (j : nat)
  (st : option nat) :
  contains macro_name m = true ->
  find_macro j st (m :: rest) = find_macro (S j) (Some j) rest.
Proof.
  intros H. cbn [find_macro]. rewrite H, Nat.ltb_irrefl, andb_false_r.
  reflexivity.
Qed.

(** After the line of the macro name: lines that neither hold the name nor
    are a lone brace, then a lone brace. *)
Lemma find_macro_block (mid : list text) (e : text) (suf : list text)
  (ms : nat) :
  forallb (fun l => negb (contains macro_name l) &&
                    negb (text_eqb (strip l) (lit "}"))) mid = true ->
  contains macro_name e = false ->
  text_eqb (strip e) (lit "}") = true ->
  forall j, ms < j ->
  find_macro j (Some ms) (mid ++ e :: suf) = Some (ms, j + List.length mid).
Proof.
  intros Hmid He1 He2. induction mid as [|l mid IH]; intros j Hj.
  - cbn [app find_macro List.length]. rewrite He1, He2, Nat.add_0_r.
    replace (ms <? j) with true by (symmetry; now apply Nat.ltb_lt).
    reflexivity.
  - cbn [forallb] in Hmid. apply andb_true_iff in Hmid as [Hl Hmid].
    apply andb_true_iff in Hl as [Hl1 Hl2].
    apply negb_true_iff in Hl1, Hl2.
    cbn [app find_macro List.length]. rewrite Hl1, Hl2. cbn [andb].
    rewrite (IH Hmid (S j)) by lia. f_equal. f_equal. lia.
Qed.

(** Where the loop finds the macro. *)
Lemma find_macro_found (lines : list text) :
  forall i st ms me,
  (forall s, st = Some s -> s < i) ->
  find_macro i st lines = Some (ms, me) ->
  ms < me /\ me < i + List.length lines /\
  ((ms < i /\ st = Some ms) \/
   (i <= ms /\ find_macro i st (firstn (ms - i) lines) = None)).
Proof.
  induction lines as [|l rest IH]; intros i st ms me Hst H; [discriminate|].
  cbn [find_macro] in H. cbn [List.length].
  destruct (contains macro_name l) eqn:El.
  - rewrite Nat.ltb_irrefl, andb_false_r in H.
    destruct (IH (S i) (Some i) ms me) as (H1 & H2 & H3);
      [intros s [= <-]; lia|exact H|].
    split; [exact H1|]. split; [lia|]. right.
    destruct H3 as [[Hlt [= <-]]|[Hle Hnone]].
    + split; [lia|]. now rewrite Nat.sub_diag.
    + split; [lia|].
      replace (ms - i) with (S (ms - S i)) by lia.
      cbn [firstn find_macro]. rewrite El, Nat.ltb_irrefl, andb_false_r.
      exact Hnone.
  - destruct st as [s|].
    + specialize (Hst s eq_refl).
      destruct (text_eqb (strip l) (lit "}") && (s <? i)) eqn:Et.
      * injection H as <- <-. split; [lia|]. split; [lia|]. now left.
      * destruct (IH (S i) (Some s) ms me) as (H1 & H2 & H3);
          [intros s' [= <-]; lia|exact H|].
        split; [exact H1|]. split; [lia|].
        destruct H3 as [[Hlt [= <-]]|[Hle Hnone]].
        -- left. now split.
        -- right. split; [lia|].
           replace (ms - i) with (S (ms - S i)) by lia.
           cbn [firstn find_macro]. rewrite El, Et. exact Hnone.
    + destruct (IH (S i) None ms me) as (H1 & H2 & H3);
        [discriminate|exact H|].
      split; [exact H1|]. split; [lia|].
      destruct H3 as [[_ [=]]|[Hle Hnone]].
      right. split; [lia|].
      replace (ms - i) with (S (ms - S i)) by lia.
      cbn [firstn find_macro]. rewrite El. exact Hnone.
Qed.

Lemma new_macro_lines : forallb closed_line new_macro = true.
Proof. vm_compute. reflexivity. Qed.

(** The macro that was put in is the macro that is found. *)
Lemma find_macro_new_macro (pre suf : list text) :
  find_macro 0 None pre = None ->
  find_macro 0 None (pre ++ new_macro ++ suf) =
  Some (List.length pre, List.length pre + 19).
Proof.
  intros H. destruct (find_macro_app_none pre (new_macro ++ suf) 0 None H)
    as [st' ->]. cbn [Nat.add].
  unfold new_macro at 1. cbn [app].
  rewrite find_macro_name_line by reflexivity.
  match goal with
  | |- find_macro _ _ (?l1 :: ?l2 :: ?l3 :: ?l4 :: ?l5 :: ?l6 :: ?l7 :: ?l8
         :: ?l9 :: ?l10 :: ?l11 :: ?l12 :: ?l13 :: ?l14 :: ?l15 :: ?l16
         :: ?l17 :: ?l18 :: ?e :: suf) = _ =>
    change (l1 :: l2 :: l3 :: l4 :: l5 :: l6 :: l7 :: l8 :: l9 :: l10 :: l11
            :: l12 :: l13 :: l14 :: l15 :: l16 :: l17 :: l18 :: e :: suf)
      with ([l1; l2; l3; l4; l5; l6; l7; l8; l9; l10; l11; l12; l13; l14;
             l15; l16; l17; l18] ++ e :: suf)
  end.
  rewrite find_macro_block; try reflexivity; [|lia].
  f_equal. f_equal. cbn [List.length]. lia.
Qed.

Lemma rewrite_macro_run (content : text) :
  run rewrite_macro content =
  (Done tt,
   {| file :=
        match find_macro 0 None (readlines content) with
        | Some (ms, me) =>
          concat (firstn ms (readlines content) ++ new_macro ++
                  skipn (me + 1) (readlines content))
        | None => content
        end;
      console := [] |}).
Proof.
  unfold run, rewrite_macro, bind, read_file. cbn [file].
  destruct (find_macro 0 None (readlines content)) as [[ms me]|]; reflexivity.
Qed.

(** X11.  rewrite_macro.py never prints and never fails.  Without a line
    that holds the macro name followed, later, by a line that is a lone
    close brace, the file is left as it is.  Otherwise the lines before the
    macro and after its closing brace are kept and the macro written
    between them; the macro is found again at the same place, and a second
    run writes the same file. *)
Theorem rewrite_macro_idempotent (content : text) :
  let lines := readlines content in
  match find_macro 0 None lines with
  | None => written rewrite_macro content = content
  | Some (ms, me) =>
    ms < me /\ me < List.length lines /\
    written rewrite_macro content =
      concat (firstn ms lines) ++ concat new_macro ++
      concat (skipn (me + 1) lines) /\
    find_macro 0 None (readlines (written rewrite_macro content))
      = Some (ms, ms + 19)
  end /\
  run rewrite_macro (written rewrite_macro content) =
  (Done tt, {| file := written rewrite_macro content; console := [] |}).
Proof.
  intros lines. unfold written.
  rewrite (rewrite_macro_run content). cbn [snd file]. fold lines.
  destruct (find_macro 0 None lines) as [[ms me]|] eqn:F.
  - destruct (find_macro_found lines 0 None ms me ltac:(discriminate) F)
      as (H1 & H2 & [[_ [=]]|[_ Hnone]]).
    rewrite Nat.sub_0_r in Hnone. cbn [Nat.add] in H2.
    pose proof (line_list_readlines content) as Hll. fold lines in Hll.
    set (pre := firstn ms lines) in *.
    set (suf := skipn (me + 1) lines).
    assert (Hlen : List.length pre = ms)
      by (unfold pre; rewrite length_firstn; lia).
    assert (Hshape : line_list (pre ++ new_macro ++ suf) = true).
    { apply line_list_app; [apply line_list_firstn; [exact Hll|lia]|].
      apply line_list_app; [exact new_macro_lines|].
      now apply line_list_skipn. }
    assert (Hread : readlines (concat (pre ++ new_macro ++ suf)) =
                    pre ++ new_macro ++ suf)
      by now apply readlines_concat.
    assert (Hfind : find_macro 0 None (pre ++ new_macro ++ suf) =
                    Some (ms, ms + 19)).
    { rewrite (find_macro_new_macro pre suf Hnone). now rewrite Hlen. }
    split.
    + repeat split; try assumption.
      * now rewrite !concat_app.
      * now rewrite Hread.
    + rewrite rewrite_macro_run, Hread, Hfind. do 3 f_equal.
      rewrite firstn_app, <- Hlen, firstn_all, Nat.sub_diag.
      cbn [firstn]. rewrite app_nil_r. f_equal.
      replace (List.length pre + 19 + 1)
        with (List.length pre + List.length new_macro)
        by (change (List.length new_macro) with 20; lia).
      rewrite skipn_app, skipn_all2 by lia. cbn [app].
      replace (List.length pre + List.length new_macro - List.length pre)
        with (List.length new_macro) by lia.
      rewrite skipn_app, skipn_all, Nat.sub_diag. reflexivity.
  - split; [reflexivity|]. rewrite rewrite_macro_run. fold lines.
    now rewrite F.
Qed.

End RewriteMacroFacts.

(** ** Chains of replacements *)

Section Chains.
Import Overlap Chain.

Lemma contains_trans (p q s : text) :
  contains p q = true -> contains q s = true -> contains p s = true.
Proof.
  intros Hp Hq. apply contains_spec in Hp as (a & b & ->).
  apply contains_spec in Hq as (u & v & ->).
  apply contains_spec. exists (u ++ a), (b ++ v).
  now rewrite <- !app_assoc.
Qed.

(** A replacement of a pattern [apart] from [p] leaves an occurrence of
    [p]. *)
Lemma replace_keeps (p old new : text) :
  apart p old = true -> old <> [] ->
  forall s, contains p s = true -> contains p (replace old new s) = true.
Proof.
  intros Hap Hne.
  destruct (apart_inv p old Hap) as (Hno & Hin & Hov).
  assert (H : forall n s, List.length s <= n -> contains p s = true ->
                contains p (replace old new s) = true).
  { induction n as [|n IH]; intros s Hn Hs.
    - destruct s; [|simpl in Hn; lia].
      destruct (contains old []) eqn:E.
      + destruct old; [congruence|discriminate].
      + now rewrite replace_absent.
    - destruct (find_index old s) as [i|] eqn:F.
      + rewrite (replace_first old new s i Hne F).
        rewrite (find_index_split old s i F) in Hs.
        destruct (contains_app_inv _ _ _ Hs)
          as [H|[H|(x' & p1 & p2 & Hx & -> & H1 & H2 & Hy)]].
        * now apply contains_app_l.
        * destruct (contains_app_inv _ _ _ H)
            as [H'|[H'|(x' & p1 & p2 & Hx & -> & H1 & H2 & _)]].
          -- congruence.
          -- apply contains_app_r, contains_app_r. apply IH; [|exact H'].
             rewrite length_skipn.
             destruct (find_index_Some _ _ _ F) as (Hs' & _ & _).
             apply startswith_length in Hs'. rewrite length_skipn in Hs'.
             destruct old; [congruence|simpl in *; lia].
          -- destruct (Hov p1 p2 eq_refl H1 H2) as [_ Hx']. now apply Hx' in Hx.
        * destruct (Hov p1 p2 eq_refl H1 H2) as [Hst _].
          destruct (startswith_app_inv _ _ _ Hy) as [Hy'|(p3 & -> & H3 & _)];
            [congruence|].
          destruct (Hin p1 p3 eq_refl); congruence.
      + apply find_index_None in F. now rewrite replace_absent. }
  intros s. now apply (H (List.length s)).
Qed.

Lemma replace_length_le (old new : text) :
  old <> [] -> List.length old <= List.length new ->
  forall s, List.length s <= List.length (replace old new s).
Proof.
  intros Hne Hlen.
  assert (H : forall n s, List.length s <= n ->
                List.length s <= List.length (replace old new s)).
  { induction n as [|n IH]; intros s Hn.
    - destruct s; [|simpl in Hn; lia]. simpl. lia.
    - destruct (find_index old s) as [i|] eqn:F.
      + rewrite (replace_first old new s i Hne F).
        rewrite (find_index_split old s i F) at 1.
        rewrite !length_app.
        assert (List.length (skipn (i + List.length old) s) <=
                List.length (replace old new (skipn (i + List.length old) s))).
        { apply IH. rewrite length_skipn.
          destruct (find_index_Some _ _ _ F) as (Hs' & _ & _).
          apply startswith_length in Hs'. rewrite length_skipn in Hs'.
          destruct old; [congruence|simpl in *; lia]. }
        lia.
      + apply find_index_None in F. rewrite replace_absent by assumption.
        lia. }
  intros s. now apply (H (List.length s)).
Qed.

Lemma replace_length_lt (old new s : text) :
  old <> [] -> List.length old < List.length new ->
  contains old s = true ->
  List.length s < List.length (replace old new s).
Proof.
  intros Hne Hlen Hs. apply contains_find_index in Hs as [i F].
  rewrite (replace_first old new s i Hne F).
  rewrite (find_index_split old s i F) at 1.
  rewrite !length_app.
  pose proof (replace_length_le old new Hne ltac:(lia)
                (skipn (i + List.length old) s)).
  lia.
Qed.

Lemma nonempty_spec (old : text) : nonempty old = true -> old <> [].
Proof. destruct old; [discriminate|discriminate]. Qed.

Lemma replace_all_cons (old new : text) (rest : list (text * text))
  (s : text) :
  replace_all ((old, new) :: rest) s = replace_all rest (replace old new s).
Proof. reflexivity. Qed.

Lemma replace_all_app (x y : list (text * text)) (s : text) :
  replace_all (x ++ y) s = replace_all y (replace_all x s).
Proof. unfold replace_all. apply fold_left_app. Qed.

(** Steps whose patterns are absent change nothing. *)
Lemma replace_all_absent (steps : list (text * text)) (s : text) :
  forallb (fun '(old, _) => negb (contains old s)) steps = true ->
  replace_all steps s = s.
Proof.
  induction steps as [|[old new] rest IH]; intros H; [reflexivity|].
  cbn [forallb] in H. apply andb_true_iff in H as [H1 H2].
  apply negb_true_iff in H1.
  rewrite replace_all_cons, replace_absent by assumption. now apply IH.
Qed.

Lemma stays_out_spec (p : text) (steps : list (text * text)) :
  stays_out p steps = true ->
  forall s, contains p s = false -> contains p (replace_all steps s) = false.
Proof.
  induction steps as [|[old new] rest IH]; intros H s Hs; [exact Hs|].
  cbn [stays_out forallb] in H. apply andb_true_iff in H as [H1 H2].
  apply andb_true_iff in H1 as [Hne Hap]. apply nonempty_spec in Hne.
  rewrite replace_all_cons. apply IH; [exact H2|].
  now apply replace_creates_none.
Qed.

Lemma taken_out_spec (p : text) (steps : list (text * text)) :
  taken_out p steps = true ->
  forall s, contains p (replace_all steps s) = false.
Proof.
  induction steps as [|[old new] rest IH]; intros H s; [discriminate|].
  cbn [taken_out] in H. rewrite replace_all_cons.
  apply orb_true_iff in H as [H|H]; [|now apply IH].
  apply andb_true_iff in H as [H H3]. apply andb_true_iff in H as [H1 H2].
  apply text_eqb_eq in H1. subst old.
  apply stays_out_spec; [exact H3|]. now apply replace_removes.
Qed.

Lemma survives_spec (p : text) (steps : list (text * text)) :
  survives p steps = true ->
  forall s, contains p s = true -> contains p (replace_all steps s) = true.
Proof.
  induction steps as [|[old new] rest IH]; intros H s Hs; [exact Hs|].
  cbn [survives forallb] in H. apply andb_true_iff in H as [H1 H2].
  apply andb_true_iff in H1 as [Hne H1]. apply nonempty_spec in Hne.
  rewrite replace_all_cons. apply IH; [exact H2|].
  apply orb_true_iff in H1 as [H1|H1].
  - now apply replace_keeps.
  - apply andb_true_iff in H1 as [Heq Hc]. apply text_eqb_eq in Heq.
    subst old. apply (contains_trans p new); [exact Hc|].
    now apply replace_present.
Qed.

Lemma widens_spec (steps : list (text * text)) :
  widens steps = true ->
  forall s, List.length s <= List.length (replace_all steps s).
Proof.
  induction steps as [|[old new] rest IH]; intros H s; [simpl; lia|].
  cbn [widens forallb] in H. apply andb_true_iff in H as [H1 H2].
  apply andb_true_iff in H1 as [Hne Hlen]. apply nonempty_spec in Hne.
  apply Nat.leb_le in Hlen. rewrite replace_all_cons.
  pose proof (replace_length_le old new Hne Hlen s).
  pose proof (IH H2 (replace old new s)). lia.
Qed.

Lemma grows_at_spec (p : text) (steps : list (text * text)) :
  grows_at p steps = true ->
  forall s, contains p s = true ->
  List.length s < List.length (replace_all steps s).
Proof.
  induction steps as [|[old new] rest IH]; intros H s Hs; [discriminate|].
  cbn [grows_at] in H. apply andb_true_iff in H as [H H3].
  apply andb_true_iff in H as [Hne Hlen]. apply nonempty_spec in Hne.
  apply Nat.leb_le in Hlen. rewrite replace_all_cons.
  apply orb_true_iff in H3 as [H3|H3].
  - apply andb_true_iff in H3 as [H3 Hw]. apply andb_true_iff in H3 as [Heq Hlt].
    apply text_eqb_eq in Heq. subst old. apply Nat.ltb_lt in Hlt.
    pose proof (replace_length_lt p new s Hne Hlt Hs).
    pose proof (widens_spec rest Hw (replace p new s)). lia.
  - apply andb_true_iff in H3 as [Hap Hg].
    pose proof (replace_length_le old new Hne Hlen s).
    pose proof (IH Hg (replace old new s)
                  (replace_keeps p old new Hap Hne s Hs)). lia.
Qed.

End Chains.

(** ** fix_modules_final.py *)

Section ModulesFinal.
Import Script Overlap Chain FixModulesFinal.

Lemma written_fix_modules_final (content : text) :
  written fix_modules_final content = replace_all steps content.
Proof. reflexivity. Qed.

Lemma steps_taken_out :
  forallb (fun '(old, _) => taken_out old steps) (macro_steps ++ call_steps)
  = true.
Proof. vm_compute. reflexivity. Qed.

Lemma constructor_survives :
  forallb (fun '(tool_name, _) => survives (constructor tool_name) steps) tools
  = true.
Proof. vm_compute. reflexivity. Qed.

Lemma constructor_grows :
  forallb (fun '(tool_name, _) => grows_at (constructor tool_name) qualify_steps)
    tools = true.
Proof. vm_compute. reflexivity. Qed.

Lemma fix_modules_final_gone (content old new : text) :
  In (old, new) (macro_steps ++ call_steps) ->
  contains old (written fix_modules_final content) = false.
Proof.
  intros Hin. rewrite written_fix_modules_final.
  pose proof steps_taken_out as H. rewrite forallb_forall in H.
  apply (taken_out_spec old steps (H (old, new) Hin)).
Qed.

(** A second run makes none of the replacements of the macro and of its
    calls. *)
Lemma fix_modules_final_again (content : text) :
  written fix_modules_final (written fix_modules_final content) =
  replace_all qualify_steps (written fix_modules_final content).
Proof.
  rewrite (written_fix_modules_final (written _ content)).
  unfold steps. rewrite app_assoc, replace_all_app. f_equal.
  apply replace_all_absent. apply forallb_forall. intros [old new] Hin.
  now rewrite (fix_modules_final_gone content old new Hin).
Qed.

(** X12.  After fix_modules_final.py, whatever the file was, none of the
    texts that its first two stages look for is left: neither of the two
    macro lines with [$theme_type], and no [apply_theme!] call that passes
    [<module>::SlintThemeColors]. *)
Theorem fix_modules_final_effective (content old new : text) :
  In (old, new) (macro_steps ++ call_steps) ->
  contains old (written fix_modules_final content) = false.
Proof. apply fix_modules_final_gone. Qed.

Lemma fix_modules_final_effective_witness :
  contains header_path (written fix_modules_final header_path) = false.
Proof.
  apply (fix_modules_final_effective header_path header_path header_ident).
  left. reflexivity.
Defined.

(** X13.  fix_modules_final.py is not safe to run twice.  When the file
    calls the constructor of one of the eight tool windows, the call is
    still in the file that the script writes, with one more module name
    before it, and so it is after every run; a second run makes only the
    replacements of the third stage and writes a longer file. *)
Theorem fix_modules_final_second_run (content tool_name mod_name : text) :
  In (tool_name, mod_name) tools ->
  contains (constructor tool_name) content = true ->
  let once := written fix_modules_final content in
  let twice := written fix_modules_final once in
  contains (constructor tool_name) once = true /\
  twice = qualify once /\
  List.length once < List.length twice.
Proof.
  intros Hin Hc once twice.
  assert (Honce : contains (constructor tool_name) once = true).
  { unfold once. rewrite written_fix_modules_final.
    pose proof constructor_survives as H. rewrite forallb_forall in H.
    exact (survives_spec _ _ (H _ Hin) content Hc). }
  assert (Htwice : twice = replace_all qualify_steps once)
    by apply fix_modules_final_again.
  split; [exact Honce|]. split; [exact Htwice|].
  rewrite Htwice.
  pose proof constructor_grows as H. rewrite forallb_forall in H.
  exact (grows_at_spec _ _ (H _ Hin) once Honce).
Qed.

Lemma fix_modules_final_second_run_witness :
  let content := lit "let w = PlotToolWindow::new()?;" in
  let once := written fix_modules_final content in
  let twice := written fix_modules_final once in
  contains (constructor (lit "Plot")) once = true /\
  twice = qualify once /\
  List.length once < List.length twice.
Proof.
  apply (fix_modules_final_second_run
           (lit "let w = PlotToolWindow::new()?;") (lit "Plot") (lit "plot")).
  - do 4 right. left. reflexivity.
  - vm_compute. reflexivity.
Defined.

End ModulesFinal.

(** ** Substitution by first matches *)

Section FirstMatch.
Import Regex Matches.

Variable mb : bool -> text -> option nat.
Variable repl : text.
Hypothesis mb_bol : forall b b' s, mb b s = mb b' s.

Lemma sub_from_bol (s : text) (b b' : bool) (k : nat) :
  sub_from mb repl b k s = sub_from mb repl b' k s.
Proof.
  destruct s as [|c s]; [reflexivity|]. destruct k as [|k]; [|reflexivity].
  cbn [sub_from]. now rewrite (mb_bol b b').
Qed.

Lemma sub_from_skipn (k : nat) :
  forall s b, sub_from mb repl b k s = sub_from mb repl b 0 (skipn k s).
Proof.
  induction k as [|k IH]; intros s b; [reflexivity|].
  destruct s as [|c s]; [reflexivity|].
  cbn [sub_from skipn]. rewrite IH. apply sub_from_bol.
Qed.

Lemma sub_none (s : text) :
  forall b, first_match (mb true) s = None -> sub_from mb repl b 0 s = s.
Proof.
  induction s as [|c s IH]; intros b H; [reflexivity|].
  cbn [first_match] in H. cbn [sub_from]. rewrite (mb_bol b true).
  destruct (mb true (c :: s)) as [[|n]|]; try discriminate;
    (destruct (first_match (mb true) s) as [[i n']|]; [discriminate|]);
    now rewrite IH.
Qed.

Lemma sub_first (s : text) :
  forall b i n, first_match (mb true) s = Some (i, n) ->
  sub_from mb repl b 0 s =
  firstn i s ++ repl ++ sub mb repl (skipn (i + n) s).
Proof.
  unfold sub. induction s as [|c s IH]; intros b i n H; [discriminate|].
  cbn [first_match] in H. cbn [sub_from]. rewrite (mb_bol b true).
  destruct (mb true (c :: s)) as [[|n0]|].
  - destruct (first_match (mb true) s) as [[i' n']|]; [|discriminate].
    injection H as <- <-. cbn [firstn app Nat.add skipn]. f_equal.
    now apply IH.
  - injection H as <- <-. cbn [firstn app Nat.add skipn]. f_equal.
    rewrite sub_from_skipn. apply sub_from_bol.
  - destruct (first_match (mb true) s) as [[i' n']|]; [|discriminate].
    injection H as <- <-. cbn [firstn app Nat.add skipn]. f_equal.
    now apply IH.
Qed.

Lemma first_match_Some (s : text) :
  forall i n, first_match (mb true) s = Some (i, n) ->
  mb true (skipn i s) = Some n /\ 0 < n /\ i < List.length s /\
  forall j n', j < i -> mb true (skipn j s) <> Some (S n').
Proof.
  induction s as [|c s IH]; intros i n H; [discriminate|].
  cbn [first_match] in H.
  destruct (mb true (c :: s)) as [[|n0]|] eqn:E.
  - destruct (first_match (mb true) s) as [[i' n']|] eqn:F; [|discriminate].
    injection H as <- <-. destruct (IH i' n' eq_refl) as (H1 & H2 & H3 & H4).
    repeat split; [exact H1|exact H2|simpl; lia|].
    intros [|j] k Hj; [cbn [skipn]; congruence|].
    apply H4. lia.
  - injection H as <- <-. repeat split; [exact E|lia|simpl; lia|].
    intros j k Hj. lia.
  - destruct (first_match (mb true) s) as [[i' n']|] eqn:F; [|discriminate].
    injection H as <- <-. destruct (IH i' n' eq_refl) as (H1 & H2 & H3 & H4).
    repeat split; [exact H1|exact H2|simpl; lia|].
    intros [|j] k Hj; [cbn [skipn]; congruence|].
    apply H4. lia.
Qed.

Lemma first_match_intro (s : text) :
  forall i n, i < List.length s -> mb true (skipn i s) = Some n -> 0 < n ->
  (forall j n', j < i -> mb true (skipn j s) <> Some (S n')) ->
  first_match (mb true) s = Some (i, n).
Proof.
  induction s as [|c s IH]; intros i n Hi Hm Hn Hmin; [simpl in Hi; lia|].
  cbn [first_match]. destruct i as [|i].
  - cbn [skipn] in Hm. rewrite Hm. destruct n; [lia|reflexivity].
  - assert (H0 : forall n', mb true (c :: s) <> Some (S n'))
      by (intros n'; apply (Hmin 0); lia).
    rewrite (IH i n); [|simpl in Hi; lia|exact Hm|exact Hn|].
    + destruct (mb true (c :: s)) as [[|n0]|]; try reflexivity.
      now destruct (H0 n0).
    + intros j n' Hj. apply (Hmin (S j)). lia.
Qed.

End FirstMatch.

(** ** fix_slint.py *)

Section FixSlintFacts.
Import Script Regex Matches FixSlint.

Lemma app_without (x : char) (H : text) :
  forallb (fun c => negb (char_eqb c x)) H = true ->
  forall u Z t, u ++ x :: Z = H ++ t -> List.length H <= List.length u.
Proof.
  induction H as [|h H IH]; intros Hno u Z t E; [simpl; lia|].
  cbn [forallb] in Hno. apply andb_true_iff in Hno as [Hh Hno].
  apply negb_true_iff in Hh.
  destruct u as [|a u].
  - cbn [app] in E. injection E as <- _. now rewrite char_eqb_refl in Hh.
  - cbn [app] in E. injection E as _ E. cbn [List.length].
    pose proof (IH Hno u Z t E). lia.
Qed.

Lemma space_not_slash (ws : text) :
  forallb is_space ws = true ->
  forallb (fun c => negb (char_eqb c slash)) ws = true.
Proof.
  induction ws as [|c ws IH]; intros H; [reflexivity|].
  cbn [forallb] in H |- *. apply andb_true_iff in H as [Hc Hws].
  rewrite (IH Hws), andb_true_r.
  destruct (char_eqb c slash) eqn:E; [|reflexivity].
  apply char_eqb_eq in E. subst c. discriminate.
Qed.

Lemma match_head_shape (t : text) (h : nat) :
  match_head t = Some h ->
  exists ws1 ws2 t',
    t = controls ++ ws1 ++ box ++ ws2 ++ open_brace :: t' /\
    ws1 <> [] /\ forallb is_space ws1 = true /\
    forallb is_space ws2 = true /\
    h = List.length controls + List.length ws1 + List.length box
        + List.length ws2 + 1.
Proof.
  unfold match_head. destruct (startswith t controls) eqn:E1; [|discriminate].
  set (s1 := skipn (List.length controls) t).
  set (n1 := span is_space s1). set (s2 := skipn n1 s1).
  destruct ((0 <? n1) && startswith s2 box) eqn:E2; [|discriminate].
  apply andb_true_iff in E2 as [Hn1 E2]. apply Nat.ltb_lt in Hn1.
  set (s3 := skipn (List.length box) s2).
  set (n2 := span is_space s3).
  destruct (skipn n2 s3) as [|c t'] eqn:E3; [discriminate|].
  destruct (char_eqb c open_brace) eqn:E4; [|discriminate].
  apply char_eqb_eq in E4. subst c. intros [= <-].
  exists (firstn n1 s1), (firstn n2 s3), t'.
  pose proof (span_le is_space s1) as Hl1. fold n1 in Hl1.
  pose proof (span_le is_space s3) as Hl3. fold n2 in Hl3.
  destruct (span_split is_space s1) as [Hs1 _]. fold n1 in Hs1.
  destruct (span_split is_space s3) as [Hs3 _]. fold n2 in Hs3.
  repeat split.
  - rewrite <- E3, (firstn_skipn n2 s3). unfold s3.
    rewrite <- (startswith_inv _ _ E2). unfold s2.
    rewrite (firstn_skipn n1 s1). unfold s1.
    now apply startswith_inv.
  - intros H. apply (f_equal (@List.length char)) in H.
    rewrite length_firstn in H. simpl in H. lia.
  - exact Hs1.
  - exact Hs3.
  - rewrite !length_firstn. unfold n1, n2 in *.
    change (List.length controls) with 20.
    change (List.length box) with 13. lia.
Qed.

Lemma span_box (Y : text) : span is_space (box ++ Y) = 0.
Proof. reflexivity. Qed.

Lemma span_open_brace (Y : text) : span is_space (open_brace :: Y) = 0.
Proof. reflexivity. Qed.

Lemma match_head_intro (ws1 ws2 Y : text) :
  ws1 <> [] -> forallb is_space ws1 = true -> forallb is_space ws2 = true ->
  match_head (controls ++ ws1 ++ box ++ ws2 ++ open_brace :: Y) =
  Some (List.length controls + List.length ws1 + List.length box
        + List.length ws2 + 1).
Proof.
  intros Hne H1 H2. unfold match_head.
  rewrite startswith_app, skipn_app_exact.
  rewrite (span_app_all is_space ws1 _ H1), span_box.
  rewrite skipn_app_plus. cbn [skipn].
  rewrite startswith_app, skipn_app_exact.
  rewrite (span_app_all is_space ws2 _ H2), span_open_brace.
  rewrite skipn_app_plus. cbn [skipn].
  replace (0 <? List.length ws1 + 0) with true
    by (symmetry; apply Nat.ltb_lt; destruct ws1; [congruence|simpl; lia]).
  cbn [andb]. rewrite char_eqb_refl. f_equal. lia.
Qed.

(** The head of a match is all that [match_head] looks at. *)
Lemma match_head_prefix (t : text) (h : nat) :
  match_head t = Some h -> forall Y, match_head (firstn h t ++ Y) = Some h.
Proof.
  intros H Y.
  destruct (match_head_shape t h H) as (ws1 & ws2 & t' & -> & Hne & H1 & H2 & ->).
  replace (controls ++ ws1 ++ box ++ ws2 ++ open_brace :: t')
    with ((controls ++ ws1 ++ box ++ ws2 ++ [open_brace]) ++ t')
    by (now rewrite <- !app_assoc).
  rewrite firstn_app.
  replace (List.length controls + List.length ws1 + List.length box
           + List.length ws2 + 1)
    with (List.length (controls ++ ws1 ++ box ++ ws2 ++ [open_brace]))
    by (rewrite !length_app; simpl; lia).
  rewrite firstn_all, Nat.sub_diag. cbn [firstn]. rewrite app_nil_r.
  rewrite <- !app_assoc. cbn [app].
  rewrite (match_head_intro ws1 ws2 Y Hne H1 H2). f_equal.
  rewrite !length_app. simpl. lia.
Qed.

(** A head that starts before two slashes ends before them. *)
Lemma match_head_before (u Z : text) (h : nat) :
  u <> [] -> match_head (u ++ slash :: slash :: Z) = Some h ->
  h <= List.length u.
Proof.
  intros Hu H.
  destruct (match_head_shape _ h H) as (ws1 & ws2 & t' & E & Hne & H1 & H2 & ->).
  set (rest := lit " Research Controls" ++ ws1 ++ box ++ ws2 ++ [open_brace]).
  assert (Hrest : forallb (fun c => negb (char_eqb c slash)) rest = true).
  { unfold rest. rewrite !forallb_app.
    rewrite (space_not_slash ws1 H1), (space_not_slash ws2 H2). reflexivity. }
  assert (E' : u ++ slash :: slash :: Z = slash :: slash :: rest ++ t').
  { rewrite E. unfold rest. rewrite <- !app_assoc. reflexivity. }
  assert (Hlen : List.length controls + List.length ws1 + List.length box
                 + List.length ws2 + 1 = 2 + List.length rest).
  { unfold rest. rewrite !length_app. simpl. lia. }
  rewrite Hlen. clear Hlen E.
  destruct u as [|a u]; [congruence|].
  destruct u as [|b u].
  - cbn [app] in E'. injection E' as _ E'. exfalso.
    unfold rest in E'. discriminate E'.
  - cbn [app] in E'. injection E' as _ _ E'.
    pose proof (app_without slash rest Hrest u (slash :: Z) t' E').
    cbn [List.length]. lia.
Qed.

Lemma match_research_bol (b b' : bool) (s : text) :
  match_research b s = match_research b' s.
Proof. reflexivity. Qed.

(** The replacement matches the pattern, from its first character to its
    last. *)
Lemma match_research_replacement (X : text) :
  match_research true (research_replacement ++ X) =
  Some (List.length research_replacement).
Proof. vm_compute. reflexivity. Qed.

Lemma research_replacement_length : 0 < List.length research_replacement.
Proof. apply Nat.ltb_lt. vm_compute. reflexivity. Qed.

Lemma research_replacement_slashes (X : text) :
  research_replacement ++ X =
  slash :: slash :: skipn 2 research_replacement ++ X.
Proof. reflexivity. Qed.

Lemma match_research_component (Y : text) (n : nat) :
  match_research true Y = Some n -> contains component Y = true.
Proof.
  unfold match_research. destruct (match_head Y) as [h|]; [|discriminate].
  destruct (find_index component (skipn h Y)) as [k|] eqn:F; [|discriminate].
  intros _. apply (contains_skipn _ _ h). now apply (find_index_contains _ _ k).
Qed.

Lemma skipn_app_short (k : nat) (x y : text) :
  k <= List.length x -> skipn k (x ++ y) = skipn k x ++ y.
Proof.
  intros H. rewrite skipn_app.
  replace (k - List.length x) with 0 by lia. reflexivity.
Qed.

(** A match that starts before a match does not start before the
    replacement put for it. *)
Lemma match_research_before (u Y X : text) (n : nat) :
  u <> [] -> match_research true Y = Some n ->
  forall n', match_research true (u ++ research_replacement ++ X) = Some (S n') ->
  exists k, match_research true (u ++ Y) = Some (S k).
Proof.
  intros Hu HY n' H. unfold match_research in H.
  destruct (match_head (u ++ research_replacement ++ X)) as [h|] eqn:Hh;
    [|discriminate].
  clear H. pose proof Hh as Hh'.
  rewrite research_replacement_slashes in Hh'.
  apply (match_head_before u _ h Hu) in Hh'.
  pose proof (match_head_prefix _ h Hh (skipn h u ++ Y)) as Hp.
  rewrite firstn_app in Hp.
  replace (h - List.length u) with 0 in Hp by lia.
  cbn [firstn] in Hp. rewrite app_nil_r, app_assoc, firstn_skipn in Hp.
  unfold match_research. rewrite Hp.
  rewrite (skipn_app_short h u Y Hh').
  assert (Hc : contains component (skipn h u ++ Y) = true)
    by (apply contains_app_r; exact (match_research_component Y n HY)).
  apply contains_find_index in Hc as [k Hk]. rewrite Hk.
  exists (h + k + 29). f_equal.
  change (List.length component) with 30. lia.
Qed.

Lemma research_sub_idempotent (n : nat) :
  forall s, List.length s <= n ->
  sub match_research research_replacement
    (sub match_research research_replacement s) =
  sub match_research research_replacement s.
Proof.
  induction n as [|n IH]; intros s Hn.
  - destruct s; [reflexivity|simpl in Hn; lia].
  - destruct (first_match (match_research true) s) as [[i L]|] eqn:FM.
    + destruct (first_match_Some match_research s i L FM)
        as (Hm & HL & Hi & Hmin).
      unfold sub at 2 3.
      rewrite (sub_first match_research research_replacement
                 match_research_bol s true i L FM).
      set (pre := firstn i s).
      set (X := sub match_research research_replacement (skipn (i + L) s)).
      assert (Hpre : List.length pre = i)
        by (unfold pre; rewrite length_firstn; lia).
      assert (FM' : first_match (match_research true)
                      (pre ++ research_replacement ++ X) =
                    Some (i, List.length research_replacement)).
      { apply first_match_intro.
        - rewrite !length_app.
          pose proof research_replacement_length. lia.
        - rewrite <- Hpre, skipn_app_exact.
          apply match_research_replacement.
        - exact research_replacement_length.
        - intros j n' Hj Hbad.
          rewrite skipn_app_short in Hbad by lia.
          assert (Hu : skipn j pre <> []).
          { intros E. apply (f_equal (@List.length char)) in E.
            rewrite length_skipn in E. simpl in E. lia. }
          destruct (match_research_before (skipn j pre) (skipn i s) X L
                      Hu Hm n' Hbad) as [k Hk].
          apply (Hmin j k Hj). rewrite <- Hk. f_equal.
          rewrite <- (firstn_skipn i s) at 1. fold pre.
          apply skipn_app_short. lia. }
      unfold sub at 1.
      rewrite (sub_first match_research research_replacement
                 match_research_bol _ true i _ FM').
      rewrite firstn_app, <- Hpre, firstn_all, Nat.sub_diag.
      cbn [firstn]. rewrite app_nil_r. f_equal. f_equal.
      rewrite app_assoc, <- length_app, skipn_app_exact.
      unfold X. apply IH. rewrite length_skipn. lia.
    + unfold sub.
      now rewrite !(sub_none match_research research_replacement
                      match_research_bol s true FM).
Qed.

Lemma fix_slint_run (content : text) :
  run fix_slint content =
  (Done tt,
   {| file := sub match_research research_replacement content;
      console := [lit "Fixed writing_tools.slint"] |}).
Proof. reflexivity. Qed.

(** X14.  fix_slint.py can be run again: it always ends with its message,
    and on the file that a run wrote a second run writes the same file.
    Where the first run found the research controls, the second finds the
    text that the first put there, and puts it there again. *)
Theorem fix_slint_idempotent (content : text) :
  run fix_slint (written fix_slint content) =
  (Done tt,
   {| file := written fix_slint content;
      console := [lit "Fixed writing_tools.slint"] |}).
Proof.
  rewrite fix_slint_run. unfold written. rewrite fix_slint_run.
  cbn [snd file]. do 2 f_equal.
  apply (research_sub_idempotent (List.length content)). lia.
Qed.

End FixSlintFacts.

(** ** Counting occurrences *)

Section Counting.
Import Overlap Regex Matches.

Lemma occurrences_app (q x y : text) :
  occurrences q x + occurrences q y <= occurrences q (x ++ y).
Proof.
  induction x as [|c x IH]; [simpl; lia|].
  cbn [app occurrences].
  destruct (startswith (c :: x) q) eqn:E.
  - change (c :: x ++ y) with ((c :: x) ++ y).
    rewrite (startswith_app_l _ y _ E). lia.
  - destruct (startswith (c :: x ++ y) q); lia.
Qed.

Lemma occurrences_contains (q s : text) :
  q <> [] -> contains q s = true -> 1 <= occurrences q s.
Proof.
  intros Hq. induction s as [|c s IH]; intros H.
  - destruct q; [congruence|discriminate].
  - rewrite contains_cons in H. cbn [occurrences].
    destruct (startswith (c :: s) q); [lia|].
    cbn [orb] in H. pose proof (IH H). lia.
Qed.

Lemma occurrences_positive (q s : text) :
  1 <= occurrences q s -> contains q s = true.
Proof.
  induction s as [|c s IH]; intros H; [simpl in H; lia|].
  rewrite contains_cons. cbn [occurrences] in H.
  destruct (startswith (c :: s) q); [reflexivity|].
  cbn [orb]. apply IH. lia.
Qed.

Lemma occurrences_skipn (q : text) (n : nat) :
  forall t, (forall i, i < n -> startswith (skipn i t) q = false) ->
  occurrences q t = occurrences q (skipn n t).
Proof.
  induction n as [|n IH]; intros t H; [reflexivity|].
  destruct t as [|c t]; [reflexivity|].
  cbn [occurrences skipn]. rewrite (H 0 ltac:(lia) : startswith (c :: t) q = false).
  cbn [Nat.add]. apply IH. intros i Hi. apply (H (S i)). lia.
Qed.

(** Taking an untouched span out loses no occurrence. *)
Lemma occurrences_delete (q a t : text) (n : nat) :
  untouched q t n ->
  occurrences q (a ++ t) <= occurrences q a + occurrences q (skipn n t).
Proof.
  intros [HA HB]. induction a as [|c a IH].
  - cbn [app occurrences]. rewrite (occurrences_skipn q n t HA). lia.
  - cbn [app occurrences].
    destruct (startswith (c :: a ++ t) q) eqn:E; [|lia].
    change (c :: a ++ t) with ((c :: a) ++ t) in E.
    destruct (startswith_app_inv _ _ _ E) as [H|(p2 & Hq & Hne & _)].
    + rewrite H. lia.
    + exfalso. rewrite (HB (c :: a)) in E; [discriminate|discriminate|].
      rewrite Hq, length_app. destruct p2; [congruence|simpl; lia].
Qed.

Lemma occurrences_sub (mb : bool -> text -> option nat) (q : text) :
  (forall b b' s, mb b s = mb b' s) ->
  (forall t n, mb true t = Some n -> untouched q t n) ->
  forall s, occurrences q s <= occurrences q (sub mb [] s).
Proof.
  intros Hbol Hun.
  assert (H : forall k s, List.length s <= k ->
                occurrences q s <= occurrences q (sub mb [] s)).
  { induction k as [|k IH]; intros s Hk.
    - destruct s; [simpl; lia|simpl in Hk; lia].
    - destruct (first_match (mb true) s) as [[i n]|] eqn:FM.
      + destruct (first_match_Some mb s i n FM) as (Hm & Hn & Hi & _).
        unfold sub at 1. rewrite (sub_first mb [] Hbol s true i n FM).
        cbn [app].
        pose proof (occurrences_delete q (firstn i s) (skipn i s) n
                      (Hun _ _ Hm)) as Hd.
        rewrite firstn_skipn, skipn_skipn, (Nat.add_comm n i) in Hd.
        pose proof (IH (skipn (i + n) s)) as Hr.
        rewrite length_skipn in Hr. specialize (Hr ltac:(lia)).
        pose proof (occurrences_app q (firstn i s)
                      (sub mb [] (skipn (i + n) s))).
        lia.
      + unfold sub. rewrite (sub_none mb [] Hbol s true FM). lia. }
  intros s. now apply (H (List.length s)).
Qed.

Lemma occurrences_replace (q old new : text) :
  old <> [] ->
  (forall t, startswith t old = true -> untouched q t (List.length old)) ->
  forall s,
  occurrences q s + (if contains old s then occurrences q new else 0)
  <= occurrences q (replace old new s).
Proof.
  intros Hne Hun.
  assert (H : forall k s, List.length s <= k ->
    occurrences q s + (if contains old s then occurrences q new else 0)
    <= occurrences q (replace old new s)).
  { induction k as [|k IH]; intros s Hk.
    - destruct s; [|simpl in Hk; lia].
      destruct (contains old []) eqn:E.
      + destruct old; [congruence|discriminate].
      + rewrite replace_absent by assumption. lia.
    - destruct (find_index old s) as [i|] eqn:F.
      + rewrite (find_index_contains _ _ _ F).
        rewrite (replace_first old new s i Hne F).
        destruct (find_index_Some _ _ _ F) as (Hs & Hi & _).
        pose proof (occurrences_delete q (firstn i s) (skipn i s)
                      (List.length old) (Hun _ Hs)) as Hd.
        rewrite firstn_skipn, skipn_skipn,
          (Nat.add_comm (List.length old) i) in Hd.
        pose proof (IH (skipn (i + List.length old) s)) as Hr.
        rewrite length_skipn in Hr.
        assert (Hl : 0 < List.length old)
          by (destruct old; [congruence|simpl; lia]).
        specialize (Hr ltac:(lia)).
        pose proof (occurrences_app q (firstn i s)
          (new ++ replace old new (skipn (i + List.length old) s))).
        pose proof (occurrences_app q new
          (replace old new (skipn (i + List.length old) s))).
        lia.
      + apply find_index_None in F. rewrite F.
        rewrite replace_absent by assumption. lia. }
  intros s. now apply (H (List.length s)).
Qed.

End Counting.

(** ** fix_imports.py *)

Section FixImportsFacts.
Import Script Overlap Regex Matches Pattern FixImports.

Lemma first_match_needs (mb : bool -> text -> option nat) (a : text) :
  (forall t n, mb true t = Some n -> startswith t a = true) ->
  forall s, contains a s = false -> first_match (mb true) s = None.
Proof.
  intros Hm. induction s as [|c s IH]; intros H; [reflexivity|].
  rewrite contains_cons in H. apply orb_false_iff in H as [H1 H2].
  cbn [first_match]. rewrite (IH H2).
  destruct (mb true (c :: s)) as [n|] eqn:E; [|reflexivity].
  rewrite (Hm _ _ E) in H1. discriminate.
Qed.

Lemma match_items_literal (a : text) (p : list item) :
  forall t, match_items (literal a ++ p) t = true -> startswith t a = true.
Proof.
  induction a as [|x a IH]; intros t H; [reflexivity|].
  destruct t as [|c t]; [discriminate|].
  cbn [literal map app match_items] in H.
  apply andb_true_iff in H as [H1 H2]. apply char_eqb_eq in H1. subst c.
  cbn [startswith]. rewrite char_eqb_refl. exact (IH t H2).
Qed.

Lemma literal_match_items (a : text) :
  forall t, startswith t a = true -> match_items (literal a) t = true.
Proof.
  induction a as [|x a IH]; intros t H; [reflexivity|].
  destruct t as [|c t]; [discriminate|].
  cbn [startswith] in H. apply andb_true_iff in H as [H1 H2].
  apply char_eqb_eq in H1. subst c.
  cbn [literal map match_items]. rewrite char_eqb_refl. exact (IH t H2).
Qed.

Lemma match_line_bol (p : list item) (b b' : bool) (s : text) :
  match_line p b s = match_line p b' s.
Proof. reflexivity. Qed.

Lemma match_struct_bol (b b' : bool) (s : text) :
  match_struct b s = match_struct b' s.
Proof. reflexivity. Qed.

Lemma match_line_head (a : text) (p : list item) (t : text) (n : nat) :
  match_line (literal a ++ p) true t = Some n -> startswith t a = true.
Proof.
  unfold match_line.
  destruct (match_items (literal a ++ p) t) eqn:E; [|discriminate].
  intros _. exact (match_items_literal a p t E).
Qed.

Lemma match_struct_head (t : text) (n : nat) :
  match_struct true t = Some n -> startswith t struct_head = true.
Proof.
  unfold match_struct. now destruct (startswith t struct_head).
Qed.

Lemma sub_line_absent (a : text) (p : list item) (s : text) :
  contains a s = false -> sub (match_line (literal a ++ p)) [] s = s.
Proof.
  intros H. unfold sub.
  apply (sub_none _ [] (match_line_bol _)).
  apply (first_match_needs _ a); [apply match_line_head|exact H].
Qed.

Lemma remove_imports_absent (content : text) :
  forallb (fun h => negb (contains h content)) heads = true ->
  remove_imports content = content.
Proof.
  intros H. cbn [heads forallb] in H.
  repeat (apply andb_true_iff in H as [?H H]).
  repeat match goal with
         | K : negb _ = true |- _ => apply negb_true_iff in K
         end.
  unfold remove_imports.
  assert (H4 : sub match_struct [] content = content).
  { unfold sub. apply (sub_none _ [] match_struct_bol).
    apply (first_match_needs _ struct_head);
      [apply match_struct_head|assumption]. }
  rewrite H4.
  rewrite (sub_line_absent theme_head from_styles content) by assumption.
  rewrite (sub_line_absent colors_head from_styles content) by assumption.
  now rewrite (sub_line_absent both_head from_styles content) by assumption.
Qed.

Lemma written_fix_imports (content : text) :
  written fix_imports content =
  replace std_widgets replacement (remove_imports content).
Proof. reflexivity. Qed.

(** Reading [q] where a text matches. *)
Lemma compatible_head (p : list item) :
  forall t q, match_items p t = true -> startswith t q = true ->
  compatible p q = true.
Proof.
  induction p as [|it p IH]; intros t q Hm Hs; [reflexivity|].
  destruct q as [|k q]; [now destruct it|].
  destruct t as [|c t]; [discriminate|].
  cbn [startswith] in Hs. apply andb_true_iff in Hs as [Hk Hs].
  apply char_eqb_eq in Hk. subst k.
  destruct it as [a|]; cbn [match_items compatible] in *.
  - apply andb_true_iff in Hm as [Ha Hm]. rewrite Ha. exact (IH t q Hm Hs).
  - apply andb_true_iff in Hm as [_ Hm]. exact (IH t q Hm Hs).
Qed.

Lemma match_items_skipn (i : nat) :
  forall p t, match_items p t = true ->
  match_items (skipn i p) (skipn i t) = true.
Proof.
  induction i as [|i IH]; intros p t H; [exact H|].
  destruct p as [|it p]; [reflexivity|].
  destruct t as [|c t]; [now destruct it|].
  cbn [skipn]. apply IH.
  destruct it; cbn [match_items] in H;
    now apply andb_true_iff in H as [_ H].
Qed.

Lemma startswith_drop (u t q : text) :
  startswith (u ++ t) q = true -> List.length u < List.length q ->
  startswith t (skipn (List.length u) q) = true.
Proof.
  intros H Hlen.
  destruct (startswith_app_inv _ _ _ H) as [Hu|(p2 & -> & _ & Ht)].
  - apply startswith_length in Hu. lia.
  - now rewrite skipn_app_exact.
Qed.

Lemma compatible_before (p : list item) (q t u : text) :
  forallb (fun e => negb (compatible p (skipn e q)))
    (seq 1 (List.length q - 1)) = true ->
  match_items p t = true ->
  u <> [] -> List.length u < List.length q ->
  startswith (u ++ t) q = false.
Proof.
  intros Hc Hm Hu Hlen.
  destruct (startswith (u ++ t) q) eqn:E; [|reflexivity].
  apply startswith_drop in E; [|exact Hlen].
  pose proof (compatible_head p t _ Hm E) as Hcomp.
  rewrite forallb_forall in Hc.
  specialize (Hc (List.length u)). rewrite Hcomp in Hc.
  assert (Hin : In (List.length u) (seq 1 (List.length q - 1)))
    by (apply in_seq; destruct u; [congruence|simpl in *; lia]).
  apply Hc in Hin. discriminate.
Qed.

Lemma clear_of_untouched (q : text) (p : list item) (t : text) :
  clear_of q p = true -> match_items p t = true ->
  untouched q t (List.length p).
Proof.
  unfold clear_of. intros H Hm. apply andb_true_iff in H as [HA HB].
  split.
  - intros i Hi. destruct (startswith (skipn i t) q) eqn:E; [|reflexivity].
    pose proof (compatible_head _ _ _ (match_items_skipn i p t Hm) E) as Hc.
    rewrite forallb_forall in HA. specialize (HA i). rewrite Hc in HA.
    assert (Hin : In i (seq 0 (List.length p))) by (apply in_seq; lia).
    apply HA in Hin. discriminate.
  - intros u Hu Hlen. exact (compatible_before p q t u HB Hm Hu Hlen).
Qed.

Lemma match_line_untouched (q : text) (p : list item) (t : text) (n : nat) :
  clear_of q p = true -> match_line p true t = Some n -> untouched q t n.
Proof.
  intros Hc. unfold match_line.
  destruct (match_items p t) eqn:E; [|discriminate].
  intros [= <-]. now apply clear_of_untouched.
Qed.

Lemma literal_untouched (q old t : text) :
  clear_of q (literal old) = true -> startswith t old = true ->
  untouched q t (List.length old).
Proof.
  intros Hc Hs.
  replace (List.length old) with (List.length (literal old))
    by apply length_map.
  apply clear_of_untouched; [exact Hc|now apply literal_match_items].
Qed.

Lemma match_struct_shape (t : text) (n : nat) :
  match_struct true t = Some n ->
  exists body rest,
    t = struct_head ++ body ++ close_brace :: LF :: rest /\
    forallb (fun c => negb (char_eqb c close_brace)) body = true /\
    n = List.length struct_head + List.length body + 2.
Proof.
  unfold match_struct.
  destruct (startswith t struct_head) eqn:E1; [|discriminate].
  set (s1 := skipn (List.length struct_head) t).
  set (cls := fun c => negb (char_eqb c close_brace)).
  destruct ((0 <? span cls s1) &&
            startswith (skipn (span cls s1) s1) [close_brace; LF]) eqn:E2;
    [|discriminate].
  apply andb_true_iff in E2 as [_ E2]. intros [= <-].
  exists (firstn (span cls s1) s1),
         (skipn 2 (skipn (span cls s1) s1)).
  destruct (span_split cls s1) as [Hb _].
  pose proof (span_le cls s1) as Hle.
  repeat split.
  - apply startswith_inv in E2. cbn [List.length app] in E2.
    rewrite <- E2, firstn_skipn. now apply startswith_inv.
  - exact Hb.
  - rewrite length_firstn.
    change (List.length struct_head) with 29. lia.
Qed.

Lemma guarded_stop (x rest : text) :
  forallb (fun c => negb (char_eqb c close_brace)) x = true ->
  forall q, existsb (fun c => char_eqb c close_brace) q = true ->
  guarded q = true ->
  startswith (x ++ close_brace :: LF :: rest) q = false.
Proof.
  induction x as [|a x IH]; intros Hx q He Hg.
  - destruct q as [|c q]; [discriminate|].
    cbn [app startswith]. cbn [guarded] in Hg.
    apply andb_true_iff in Hg as [Hg _].
    destruct (char_eqb c close_brace) eqn:Ec; [|reflexivity].
    cbn [andb]. destruct q as [|d q]; [discriminate|].
    cbn [startswith]. apply negb_true_iff in Hg. now rewrite Hg.
  - cbn [forallb] in Hx. apply andb_true_iff in Hx as [Ha Hx].
    apply negb_true_iff in Ha.
    destruct q as [|c q]; [discriminate|].
    cbn [app startswith].
    destruct (char_eqb c a) eqn:Eca; [|reflexivity].
    apply char_eqb_eq in Eca. subst c. cbn [andb].
    cbn [existsb] in He. rewrite Ha in He. cbn [orb] in He.
    cbn [guarded] in Hg. apply andb_true_iff in Hg as [_ Hg].
    exact (IH Hx q He Hg).
Qed.

Lemma forallb_skipn (f : char -> bool) (i : nat) :
  forall x, forallb f x = true -> forallb f (skipn i x) = true.
Proof.
  induction i as [|i IH]; intros x H; [exact H|].
  destruct x as [|c x]; [reflexivity|].
  cbn [forallb] in H. apply andb_true_iff in H as [_ H].
  cbn [skipn]. now apply IH.
Qed.

Lemma struct_head_no_brace :
  forallb (fun c => negb (char_eqb c close_brace)) struct_head = true.
Proof. reflexivity. Qed.

Lemma match_struct_untouched (q t : text) (n : nat) :
  clear_of_struct q = true -> match_struct true t = Some n ->
  untouched q t n.
Proof.
  unfold clear_of_struct. intros Hc Hm.
  apply andb_true_iff in Hc as [Hc HB]. apply andb_true_iff in Hc as [Hc H0].
  apply andb_true_iff in Hc as [He Hg].
  pose proof (match_struct_head t n Hm) as Hhead.
  destruct (match_struct_shape t n Hm) as (body & rest & -> & Hbody & ->).
  split.
  - intros i Hi.
    set (x := struct_head ++ body).
    assert (Hx : forallb (fun c => negb (char_eqb c close_brace)) x = true)
      by (unfold x; now rewrite forallb_app, struct_head_no_brace, Hbody).
    assert (Hlen : List.length x = List.length struct_head + List.length body)
      by (unfold x; apply length_app).
    replace (struct_head ++ body ++ close_brace :: LF :: rest)
      with (x ++ close_brace :: LF :: rest)
      by (unfold x; now rewrite <- app_assoc).
    destruct (Nat.le_gt_cases i (List.length x)) as [Hle|Hgt].
    + rewrite skipn_app_short by exact Hle.
      apply guarded_stop; [now apply forallb_skipn|exact He|exact Hg].
    + replace i with (List.length x + 1) by lia.
      rewrite skipn_app_plus. cbn [skipn].
      destruct q as [|c q]; [discriminate|].
      cbn [startswith]. apply negb_true_iff in H0.
      now rewrite H0.
  - intros u Hu Hlen.
    apply (compatible_before (literal struct_head) q _ u HB);
      [now apply literal_match_items|exact Hu|exact Hlen].
Qed.

Lemma clear_of_checks :
  forallb
    (fun q =>
       clear_of_struct q &&
       clear_of q (literal theme_head ++ from_styles) &&
       clear_of q (literal colors_head ++ from_styles) &&
       clear_of q (literal both_head ++ from_styles))
    [std_widgets; colors_import] = true.
Proof. vm_compute. reflexivity. Qed.

Lemma colors_import_clear_of_std :
  clear_of colors_import (literal std_widgets) = true.
Proof. vm_compute. reflexivity. Qed.

(** The removals lose no occurrence of the two texts. *)
Lemma occurrences_remove_imports (q content : text) :
  In q [std_widgets; colors_import] ->
  occurrences q content <= occurrences q (remove_imports content).
Proof.
  intros Hin. pose proof clear_of_checks as H.
  rewrite forallb_forall in H. specialize (H q Hin).
  apply andb_true_iff in H as [H H4]. apply andb_true_iff in H as [H H3].
  apply andb_true_iff in H as [H1 H2].
  unfold remove_imports.
  pose proof (occurrences_sub match_struct q match_struct_bol
                (fun t n => match_struct_untouched q t n H1) content) as K1.
  set (c1 := sub match_struct [] content) in *.
  pose proof (occurrences_sub _ q (match_line_bol _)
                (fun t n => match_line_untouched q _ t n H2) c1) as K2.
  set (c2 := sub (match_line (literal theme_head ++ from_styles)) [] c1) in *.
  pose proof (occurrences_sub _ q (match_line_bol _)
                (fun t n => match_line_untouched q _ t n H3) c2) as K3.
  set (c3 := sub (match_line (literal colors_head ++ from_styles)) [] c2) in *.
  pose proof (occurrences_sub _ q (match_line_bol _)
                (fun t n => match_line_untouched q _ t n H4) c3) as K4.
  lia.
Qed.

(** X15.  On a file that holds none of the four texts with which the lines
    removed by fix_imports.py start, the script removes nothing: it writes
    the file with the two imports put after every import of the standard
    widgets. *)
Theorem fix_imports_first_run (content : text) :
  forallb (fun h => negb (contains h content)) heads = true ->
  written fix_imports content = replace std_widgets replacement content.
Proof.
  intros H. rewrite written_fix_imports.
  now rewrite (remove_imports_absent content H).
Qed.

Lemma fix_imports_first_run_witness :
  written fix_imports std_widgets =
  replace std_widgets replacement std_widgets.
Proof.
  apply (fix_imports_first_run std_widgets). vm_compute. reflexivity.
Defined.

(** X16.  fix_imports.py is not safe to run twice.  Whatever else the file
    holds, when it holds the import of the standard widgets the file that
    the script writes holds it too, and holds the import of
    [SlintThemeColors] from [theme_types.slint] at one more place at
    least: every run adds that import again. *)
Theorem fix_imports_adds_import (content : text) :
  contains std_widgets content = true ->
  contains std_widgets (written fix_imports content) = true /\
  occurrences colors_import content
  < occurrences colors_import (written fix_imports content).
Proof.
  intros H. rewrite written_fix_imports.
  assert (Hstd : contains std_widgets (remove_imports content) = true).
  { apply occurrences_positive.
    pose proof (occurrences_remove_imports std_widgets content
                  ltac:(left; reflexivity)).
    pose proof (occurrences_contains std_widgets content
                  ltac:(discriminate) H).
    lia. }
  split.
  - apply (contains_trans _ replacement); [vm_compute; reflexivity|].
    apply replace_present; [discriminate|exact Hstd].
  - pose proof (occurrences_remove_imports colors_import content
                  ltac:(right; left; reflexivity)) as H1.
    pose proof (occurrences_replace colors_import std_widgets replacement
                  ltac:(discriminate)
                  (fun t => literal_untouched _ _ t colors_import_clear_of_std)
                  (remove_imports content)) as H2.
    rewrite Hstd in H2.
    change (occurrences colors_import replacement) with 1 in H2.
    lia.
Qed.

Lemma fix_imports_adds_import_witness :
  contains std_widgets (written fix_imports std_widgets) = true /\
  occurrences colors_import std_widgets
  < occurrences colors_import (written fix_imports std_widgets).
Proof.
  apply (fix_imports_adds_import std_widgets). vm_compute. reflexivity.
Defined.

End FixImportsFacts.

(** ** fix_tool_windows.py, lines 20-284 *)

Section ToolWindowFacts.
Import Script Overlap Chain Regex Matches Pattern FixToolWindows ToolWindowEdits.

Lemma occurrences_replace_le (q old new : text) :
  nonempty old = true -> clear_of q (literal old) = true ->
  forall s, occurrences q s <= occurrences q (replace old new s).
Proof.
  intros Hne Hc s. apply nonempty_spec in Hne.
  pose proof (occurrences_replace q old new Hne
                (fun t => literal_untouched q old t Hc) s).
  lia.
Qed.

Lemma occurrences_replace_all (q : text) (steps : list (text * text)) :
  forallb (fun '(old, _) => nonempty old && clear_of q (literal old)) steps
  = true ->
  forall s, occurrences q s <= occurrences q (replace_all steps s).
Proof.
  induction steps as [|[old new] rest IH]; intros H s; [simpl; lia|].
  cbn [forallb] in H. apply andb_true_iff in H as [H1 H2].
  apply andb_true_iff in H1 as [Hne Hc].
  rewrite replace_all_cons.
  pose proof (occurrences_replace_le q old new Hne Hc s).
  pose proof (IH H2 (replace old new s)). lia.
Qed.

(** A replacement after a prefix in which the pattern does not start. *)
Lemma replace_from_after (old new : text) (n : nat) :
  forall t, (forall i, i < n -> startswith (skipn i t) old = false) ->
  replace_from old new 0 t =
  firstn n t ++ replace_from old new 0 (skipn n t).
Proof.
  induction n as [|n IH]; intros t H; [reflexivity|].
  destruct t as [|c t]; [reflexivity|].
  rewrite (replace_from_miss old new c t (H 0 ltac:(lia))).
  cbn [firstn skipn app]. f_equal. apply IH.
  intros i Hi. apply (H (S i)). lia.
Qed.

Lemma replace_keeps_prefix (old new x t : text) :
  nonempty old = true -> clear_of old (literal x) = true ->
  startswith t x = true -> startswith (replace old new t) x = true.
Proof.
  intros Hne Hc Ht. destruct old as [|o old]; [discriminate|].
  destruct (literal_untouched (o :: old) x t Hc Ht) as [HA _].
  unfold replace. rewrite (replace_from_after _ new _ t HA).
  rewrite (startswith_inv _ _ Ht) at 1.
  rewrite firstn_app, firstn_all, Nat.sub_diag. cbn [firstn].
  rewrite app_nil_r. apply startswith_app.
Qed.

Lemma replace_all_keeps_prefix (x : text) (steps : list (text * text)) :
  forallb (fun '(old, _) => nonempty old && clear_of old (literal x)) steps
  = true ->
  forall t, startswith t x = true ->
  startswith (replace_all steps t) x = true.
Proof.
  induction steps as [|[old new] rest IH]; intros H t Ht; [exact Ht|].
  cbn [forallb] in H. apply andb_true_iff in H as [H1 H2].
  apply andb_true_iff in H1 as [Hne Hc].
  rewrite replace_all_cons. apply IH; [exact H2|].
  now apply replace_keeps_prefix.
Qed.

(** Cutting a text after a character that [q] does not hold loses no
    occurrence of [q]. *)
Lemma occurrences_cut (q : text) (c : char) (b : text) :
  q <> [] -> existsb (char_eqb c) q = false ->
  forall a, occurrences q ((a ++ [c]) ++ b)
            <= occurrences q (a ++ [c]) + occurrences q b.
Proof.
  intros Hq Hc.
  assert (Hin : forall x y, q = (x ++ [c]) ++ y -> False).
  { intros x y E. rewrite E in Hc.
    rewrite <- app_assoc, existsb_app in Hc. cbn [app existsb] in Hc.
    rewrite char_eqb_refl in Hc. cbn [orb] in Hc.
    now rewrite orb_true_r in Hc. }
  induction a as [|x a IH].
  - cbn [app occurrences].
    destruct (startswith (c :: b) q) eqn:E; [|lia].
    exfalso. destruct q as [|q0 q]; [congruence|].
    cbn [startswith] in E. apply andb_true_iff in E as [E _].
    apply char_eqb_eq in E. subst q0. apply (Hin [] q). reflexivity.
  - cbn [app occurrences].
    destruct (startswith (x :: (a ++ [c]) ++ b) q) eqn:E; [|lia].
    change (x :: (a ++ [c]) ++ b) with (((x :: a) ++ [c]) ++ b) in E.
    destruct (startswith_app_inv _ _ _ E) as [H|(p2 & Hp & _ & _)].
    + cbn [app] in H. rewrite H. lia.
    + exfalso. exact (Hin (x :: a) p2 Hp).
Qed.

(** Where the block is put: at the start of the text, or after a
    semicolon. *)
Lemma assemble_shape (content_without_macro slint_content : text) :
  exists a b,
    assemble content_without_macro slint_content =
      a ++ [LF; LF] ++ slint_content ++ [LF; LF] ++ b /\
    content_without_macro = a ++ b /\
    (a = [] \/ exists a', a = a' ++ lit ";").
Proof.
  unfold assemble.
  set (e := Z.to_nat
              (py_find_from (lit ";") (py_rfind (lit "use ") content_without_macro)
                 content_without_macro + 1)).
  exists (firstn e content_without_macro), (skipn e content_without_macro).
  split; [reflexivity|]. split; [symmetry; apply firstn_skipn|].
  unfold e, py_find_from.
  set (len := Z.of_nat (List.length content_without_macro)).
  set (start := if (_ <? 0)%Z then _ else _).
  assert (Hstart : (0 <= start)%Z).
  { unfold start.
    destruct (py_rfind (lit "use ") content_without_macro <? 0)%Z eqn:E;
      [lia|]. apply Z.ltb_ge in E. exact E. }
  destruct (len <? start)%Z; [now left|].
  destruct (find_index (lit ";") (skipn (Z.to_nat start) content_without_macro))
    as [k|] eqn:F; [|now left].
  right. destruct (find_index_Some _ _ _ F) as (Hs & _ & _).
  rewrite skipn_skipn in Hs.
  replace (Z.to_nat (start + Z.of_nat k + 1))
    with (S (k + Z.to_nat start)) by lia.
  set (j := k + Z.to_nat start) in *.
  exists (firstn j content_without_macro).
  destruct (skipn j content_without_macro) as [|c rest] eqn:E;
    [discriminate|].
  cbn [lit startswith] in Hs. apply andb_true_iff in Hs as [Hs _].
  apply char_eqb_eq in Hs.
  rewrite <- (firstn_skipn j content_without_macro) at 1.
  rewrite E.
  replace (S j) with (List.length (firstn j content_without_macro) + 1).
  - rewrite firstn_app_2. cbn [firstn]. now rewrite <- Hs.
  - rewrite length_firstn.
    assert (j < List.length content_without_macro).
    { apply (f_equal (@List.length char)) in E.
      rewrite length_skipn in E. simpl in E. lia. }
    lia.
Qed.

Lemma spaces_span (t : text) (i : nat) :
  i < span is_space t ->
  exists c rest, skipn i t = c :: rest /\ is_space c = true.
Proof.
  revert i. induction t as [|c t IH]; intros i H; [simpl in H; lia|].
  cbn [span] in H. destruct (is_space c) eqn:E; [|lia].
  destruct i as [|i]; [now exists c, t|].
  cbn [skipn]. apply IH. lia.
Qed.

Lemma startswith_space (q : text) (c : char) (rest : text) :
  nonempty q = true -> forallb (fun c => negb (is_space c)) q = true ->
  is_space c = true -> startswith (c :: rest) q = false.
Proof.
  intros Hne Hq Hc. destruct q as [|q0 q]; [discriminate|].
  cbn [forallb] in Hq. apply andb_true_iff in Hq as [Hq _].
  cbn [startswith]. destruct (char_eqb q0 c) eqn:E; [|reflexivity].
  apply char_eqb_eq in E. subst q0. rewrite Hc in Hq. discriminate.
Qed.

(** No occurrence of [q] starts in what the texts after the first
    match. *)
Lemma match_rest_inside (q : text) (segs : list text) :
  nonempty q = true -> forallb (fun c => negb (is_space c)) q = true ->
  forallb (fun seg => clear_of q (literal seg)) segs = true ->
  forall t n, match_rest segs t = Some n ->
  forall i, i < n -> startswith (skipn i t) q = false.
Proof.
  intros Hne Hq. induction segs as [|seg segs IH]; intros Hc t n Hm i Hi.
  - injection Hm as <-. lia.
  - cbn [forallb] in Hc. apply andb_true_iff in Hc as [Hseg Hc].
    cbn [match_rest] in Hm.
    set (n0 := span is_space t) in *.
    destruct ((0 <? n0) && startswith (skipn n0 t) seg) eqn:E;
      [|discriminate].
    apply andb_true_iff in E as [_ Hs].
    destruct (match_rest segs (skipn (List.length seg) (skipn n0 t)))
      as [k|] eqn:Hk; [|discriminate].
    injection Hm as <-.
    destruct (Nat.lt_ge_cases i n0) as [H1|H1].
    + destruct (spaces_span t i H1) as (c & rest & -> & Hsp).
      now apply startswith_space.
    + replace i with ((i - n0) + n0) by lia. rewrite <- skipn_skipn.
      destruct (Nat.lt_ge_cases (i - n0) (List.length seg)) as [H2|H2].
      * destruct (literal_untouched q seg _ Hseg Hs) as [HA _].
        now apply HA.
      * replace (i - n0) with ((i - n0 - List.length seg) + List.length seg)
          by lia.
        rewrite <- skipn_skipn. apply (IH Hc _ k Hk). lia.
Qed.

Lemma match_segments_untouched (q : text) (segs : list text) (t : text)
  (n : nat) :
  clear_of_segments q segs = true ->
  match_segments segs true t = Some n -> untouched q t n.
Proof.
  unfold clear_of_segments. intros Hc Hm.
  apply andb_true_iff in Hc as [Hc Hsegs]. apply andb_true_iff in Hc as [Hne Hq].
  destruct segs as [|seg segs]; [discriminate|].
  cbn [forallb] in Hsegs. apply andb_true_iff in Hsegs as [Hseg Hsegs].
  cbn [match_segments] in Hm.
  destruct (startswith t seg) eqn:Hs; [|discriminate].
  destruct (match_rest segs (skipn (List.length seg) t)) as [k|] eqn:Hk;
    [|discriminate].
  injection Hm as <-.
  destruct (literal_untouched q seg t Hseg Hs) as [HA HB].
  split; [|exact HB].
  intros i Hi. destruct (Nat.lt_ge_cases i (List.length seg)) as [H1|H1].
  - now apply HA.
  - replace i with ((i - List.length seg) + List.length seg) by lia.
    rewrite <- skipn_skipn.
    apply (match_rest_inside q segs Hne Hq Hsegs _ k Hk). lia.
Qed.

Lemma occurrences_sub_first (q : text) (segs : list text) (repl s : text) :
  clear_of_segments q segs = true ->
  occurrences q s <= occurrences q (sub_first (match_segments segs) repl s).
Proof.
  intros Hc. unfold sub_first.
  destruct (first_match (match_segments segs true) s) as [[i n]|] eqn:FM;
    [|lia].
  destruct (first_match_Some (match_segments segs) s i n FM) as (Hm & _).
  pose proof (occurrences_delete q (firstn i s) (skipn i s) n
                (match_segments_untouched q segs _ n Hc Hm)) as Hd.
  rewrite firstn_skipn, skipn_skipn, (Nat.add_comm n i) in Hd.
  pose proof (occurrences_app q (firstn i s) (repl ++ skipn (i + n) s)).
  pose proof (occurrences_app q repl (skipn (i + n) s)).
  lia.
Qed.

Lemma theme_argument_methods :
  forallb
    (fun '(tool_name, tool_var, tool_type) =>
       clear_of_segments theme_argument (pattern1 tool_name tool_var) &&
       clear_of_segments theme_argument (pattern2 tool_var tool_type))
    tools = true.
Proof. vm_compute. reflexivity. Qed.

Lemma occurrences_update_methods (s : text) :
  occurrences theme_argument s
  <= occurrences theme_argument (update_methods s).
Proof.
  unfold update_methods. pose proof theme_argument_methods as H.
  revert s. induction tools as [|[[tool_name tool_var] tool_type] rest IH];
    intros s; [simpl; lia|].
  cbn [forallb] in H. apply andb_true_iff in H as [H1 H2].
  apply andb_true_iff in H1 as [Hp1 Hp2].
  cbn [fold_left].
  set (s1 := sub_first (match_segments (pattern1 tool_name tool_var))
               (replacement1 tool_name tool_var tool_type) s).
  set (s2 := sub_first (match_segments (pattern2 tool_var tool_type))
               (replacement2 tool_name tool_var tool_type) s1).
  pose proof (occurrences_sub_first theme_argument _
                (replacement1 tool_name tool_var tool_type) s Hp1) as K1.
  pose proof (occurrences_sub_first theme_argument _
                (replacement2 tool_name tool_var tool_type) s1 Hp2) as K2.
  pose proof (IH H2 s2) as K3. fold s1 in K1. fold s2 in K2. lia.
Qed.

Lemma occurrences_add_imports (s : text) :
  occurrences theme_argument s <= occurrences theme_argument (add_imports s).
Proof.
  unfold add_imports.
  destruct (contains (lit "use slint::ComponentHandle;") s); [lia|].
  apply occurrences_replace_le; vm_compute; reflexivity.
Qed.

Lemma occurrences_add_helpers (s : text) :
  occurrences theme_argument s <= occurrences theme_argument (add_helpers s).
Proof.
  unfold add_helpers.
  destruct (contains (lit "static ACTIVE_TOOL_WINDOWS") s); [lia|].
  apply occurrences_replace_le; vm_compute; reflexivity.
Qed.

Lemma edit_slint_steps (s : text) : edit_slint s = replace_all slint_steps s.
Proof. reflexivity. Qed.

Lemma theme_argument_close_requested :
  clear_of theme_argument (literal close_requested) = true.
Proof. vm_compute. reflexivity. Qed.

Lemma occurrences_edit_slint (s : text) :
  contains close_requested s = true ->
  occurrences theme_argument s < occurrences theme_argument (edit_slint s).
Proof.
  intros H. rewrite edit_slint_steps. unfold slint_steps.
  rewrite !replace_all_cons.
  set (s1 := replace theme_import (theme_import ++ slint_struct) s).
  assert (K1 : occurrences theme_argument s <= occurrences theme_argument s1)
    by (apply occurrences_replace_le; vm_compute; reflexivity).
  assert (H1 : contains close_requested s1 = true)
    by (apply replace_keeps;
          [vm_compute; reflexivity|discriminate|exact H]).
  pose proof (occurrences_replace theme_argument close_requested
                (strip callback_code) ltac:(discriminate)
                (fun t => literal_untouched _ _ t
                            theme_argument_close_requested) s1) as K2.
  rewrite H1 in K2.
  change (occurrences theme_argument (strip callback_code)) with 1 in K2.
  pose proof (occurrences_replace_all theme_argument color_steps
                ltac:(vm_compute; reflexivity)
                (replace close_requested (strip callback_code) s1)) as K3.
  lia.
Qed.

Lemma edit_slint_keeps (s : text) :
  startswith s slint_macro = true -> contains close_requested s = true ->
  startswith (edit_slint s) slint_macro = true /\
  contains close_requested (edit_slint s) = true.
Proof.
  intros Hs Hc. rewrite edit_slint_steps. split.
  - apply replace_all_keeps_prefix; [vm_compute; reflexivity|exact Hs].
  - apply survives_spec; [vm_compute; reflexivity|exact Hc].
Qed.

Lemma written_fix_tool_windows (content : text) (i : nat) :
  find_index slint_macro content = Some i ->
  run fix_tool_windows content =
  (Done tt,
   {| file := edits (firstn i content) (skipn i content);
      console := [lit "Done!"] |}).
Proof.
  intros F.
  destruct (fix_tool_windows_present edits content
              (find_index_contains _ _ _ F)) as (j & Hj & Hrun).
  unfold slint_macro in F. rewrite F in Hj. injection Hj as <-.
  exact Hrun.
Qed.

(** X17.  fix_tool_windows.py is not safe to run twice.  On a file whose
    part from the first [slint::slint! {] on holds
    [callback close_requested();], the run ends with [Done!]; the file
    written holds [(SlintThemeColors)], the argument of the callback that
    the script declares, at more places than the file read; and it is again
    such a file: every run declares the callback again. *)
Theorem fix_tool_windows_adds_callback (content : text) (i : nat) :
  find_index slint_macro content = Some i ->
  contains close_requested (skipn i content) = true ->
  let out := written fix_tool_windows content in
  run fix_tool_windows content =
    (Done tt, {| file := out; console := [lit "Done!"] |}) /\
  occurrences theme_argument content < occurrences theme_argument out /\
  exists j, find_index slint_macro out = Some j /\
            contains close_requested (skipn j out) = true.
Proof.
  intros F Hc out.
  pose proof (written_fix_tool_windows content i F) as Hrun.
  assert (Hout : out = edits (firstn i content) (skipn i content))
    by (unfold out, written; now rewrite Hrun).
  split; [now rewrite Hout|].
  destruct (find_index_Some _ _ _ F) as (Hs & _ & _).
  set (cwm := firstn i content) in *. set (sl := skipn i content) in *.
  set (cwm' := update_methods (add_helpers (add_imports cwm))).
  assert (Hed : edits cwm sl = assemble cwm' (edit_slint sl)) by reflexivity.
  destruct (assemble_shape cwm' (edit_slint sl))
    as (a & b & Hasm & Hsplit & Ha).
  destruct (edit_slint_keeps sl Hs Hc) as [Hs' Hc'].
  rewrite Hout, Hed, Hasm. split.
  - (* the count *)
    assert (K0 : occurrences theme_argument content
                 <= occurrences theme_argument cwm
                    + occurrences theme_argument sl).
    { rewrite <- (firstn_skipn i content) at 1. fold cwm sl.
      apply (occurrences_delete theme_argument cwm sl 0).
      split; [intros k Hk; lia|].
      intros u Hu Hlen.
      apply (compatible_before (literal slint_macro) theme_argument sl u);
        [vm_compute; reflexivity|now apply literal_match_items
        |exact Hu|exact Hlen]. }
    pose proof (occurrences_edit_slint sl Hc) as K1.
    assert (K2 : occurrences theme_argument cwm
                 <= occurrences theme_argument cwm').
    { pose proof (occurrences_add_imports cwm).
      pose proof (occurrences_add_helpers (add_imports cwm)).
      pose proof (occurrences_update_methods (add_helpers (add_imports cwm))).
      unfold cwm'. lia. }
    assert (K3 : occurrences theme_argument cwm'
                 <= occurrences theme_argument a
                    + occurrences theme_argument b).
    { rewrite Hsplit. destruct Ha as [->|[a' ->]]; [simpl; lia|].
      apply occurrences_cut; [discriminate|reflexivity]. }
    pose proof (occurrences_app theme_argument a
                  ([LF; LF] ++ edit_slint sl ++ [LF; LF] ++ b)).
    pose proof (occurrences_app theme_argument [LF; LF]
                  (edit_slint sl ++ [LF; LF] ++ b)).
    pose proof (occurrences_app theme_argument (edit_slint sl)
                  ([LF; LF] ++ b)).
    pose proof (occurrences_app theme_argument [LF; LF] b).
    lia.
  - (* the file written is such a file again *)
    set (x := a ++ [LF; LF]).
    replace (a ++ [LF; LF] ++ edit_slint sl ++ [LF; LF] ++ b)
      with (x ++ edit_slint sl ++ [LF; LF] ++ b)
      by (unfold x; now rewrite <- app_assoc).
    assert (Hcont : contains slint_macro (x ++ edit_slint sl ++ [LF; LF] ++ b)
                    = true).
    { apply contains_app_r, contains_app_l.
      now apply contains_startswith. }
    apply contains_find_index in Hcont as [j Hj]. exists j.
    split; [exact Hj|].
    destruct (find_index_Some _ _ _ Hj) as (_ & _ & Hmin).
    assert (Hle : j <= List.length x).
    { destruct (Nat.le_gt_cases j (List.length x)) as [H|H]; [exact H|].
      specialize (Hmin (List.length x) H).
      rewrite skipn_app_exact in Hmin.
      rewrite (startswith_app_l _ ([LF; LF] ++ b) _ Hs') in Hmin.
      discriminate. }
    rewrite skipn_app_short by exact Hle.
    apply contains_app_r, contains_app_l. exact Hc'.
Qed.

Lemma fix_tool_windows_adds_callback_witness :
  let content := lit "slint::slint! { callback close_requested(); }" in
  let out := written fix_tool_windows content in
  run fix_tool_windows content =
    (Done tt, {| file := out; console := [lit "Done!"] |}) /\
  occurrences theme_argument content < occurrences theme_argument out /\
  exists j, find_index slint_macro out = Some j /\
            contains close_requested (skipn j out) = true.
Proof.
  apply (fix_tool_windows_adds_callback
           (lit "slint::slint! { callback close_requested(); }") 0).
  - vm_compute. reflexivity.
  - vm_compute. reflexivity.
Defined.

End ToolWindowFacts.

(** ** Where fix_tool_windows.py puts the block *)

Section Assemble.
Import Overlap ToolWindowEdits.

Lemma rfind_index_absent (p s : text) :
  contains p s = false -> rfind_index p s = None.
Proof.
  induction s as [|c s IH]; intros H.
  - cbn [rfind_index]. cbn [contains] in H. rewrite orb_false_r in H.
    now rewrite H.
  - rewrite contains_cons in H. apply orb_false_iff in H as [H1 H2].
    cbn [rfind_index]. now rewrite (IH H2), H1.
Qed.

(** X18.  When the part of the file before the first [slint::slint! {]
    holds no [use ], the search for the semicolon of the last import starts
    at index -1, that is at the last character: fix_tool_windows.py puts
    the block after the whole part when the part ends with a semicolon, and
    before the whole part otherwise. *)
Theorem assemble_without_import (content_without_macro slint_content : text) :
  contains (lit "use ") content_without_macro = false ->
  assemble content_without_macro slint_content =
  if endswith content_without_macro (lit ";")
  then content_without_macro ++ [LF; LF] ++ slint_content ++ [LF; LF]
  else [LF; LF] ++ slint_content ++ [LF; LF] ++ content_without_macro.
Proof.
  intros H. unfold assemble, py_rfind.
  rewrite (rfind_index_absent _ _ H). unfold py_find_from.
  change (-1 <? 0)%Z with true. cbv iota.
  destruct content_without_macro as [|c0 rest] eqn:E; [reflexivity|].
  rewrite <- E.
  assert (Hne : content_without_macro <> []) by (rewrite E; discriminate).
  destruct (exists_last Hne) as (x & c & Hx).
  clear E H Hne c0 rest. subst content_without_macro.
  rewrite length_app. cbn [List.length].
  replace (Z.max 0 (-1 + Z.of_nat (List.length x + 1)))
    with (Z.of_nat (List.length x)) by lia.
  replace (Z.of_nat (List.length x + 1) <? Z.of_nat (List.length x))%Z
    with false by (symmetry; apply Z.ltb_ge; lia).
  rewrite Nat2Z.id, skipn_app_exact.
  unfold endswith. rewrite length_app. cbn [List.length].
  change (List.length (lit ";")) with 1.
  replace (1 <=? List.length x + 1) with true
    by (symmetry; apply Nat.leb_le; lia).
  replace (List.length x + 1 - 1) with (List.length x) by lia.
  rewrite skipn_app_exact. cbn [andb find_index].
  destruct (startswith [c] (lit ";")) eqn:Es.
  - replace (Z.to_nat (Z.of_nat (List.length x) + Z.of_nat 0 + 1))
      with (List.length (x ++ [c])) by (rewrite length_app; simpl; lia).
    rewrite firstn_all, skipn_all, !app_nil_r. reflexivity.
  - cbn [startswith option_map]. reflexivity.
Qed.

Lemma assemble_without_import_witness :
  assemble (lit "fn main() {}") (lit "slint::slint! {}") =
  if endswith (lit "fn main() {}") (lit ";")
  then lit "fn main() {}" ++ [LF; LF] ++ lit "slint::slint! {}" ++ [LF; LF]
  else [LF; LF] ++ lit "slint::slint! {}" ++ [LF; LF] ++ lit "fn main() {}".
Proof.
  apply (assemble_without_import (lit "fn main() {}") (lit "slint::slint! {}")).
  vm_compute. reflexivity.
Defined.

End Assemble.

(** ** A second run of fix_build.py *)

Section FixBuildAgain.
Import Script Overlap Chain Pattern RewriteMacro FixBuild.

Lemma occurrences_in_app (q : text) (x y : list text) :
  occurrences_in q (x ++ y) = occurrences_in q x + occurrences_in q y.
Proof. unfold occurrences_in. now rewrite map_app, list_sum_app. Qed.

Lemma occurrences_in_cons (q l : text) (rest : list text) :
  occurrences_in q (l :: rest) = occurrences q l + occurrences_in q rest.
Proof. reflexivity. Qed.

(** The text has at least the occurrences of its lines. *)
Lemma occurrences_concat_ge (q : text) (lines : list text) :
  occurrences_in q lines <= occurrences q (concat lines).
Proof.
  induction lines as [|l rest IH]; [unfold occurrences_in; simpl; lia|].
  rewrite occurrences_in_cons. cbn [concat].
  pose proof (occurrences_app q l (concat rest)). lia.
Qed.

(** A text without line feed does not occur across the lines. *)
Lemma occurrences_concat_le (q : text) (lines : list text) :
  q <> [] -> existsb (char_eqb LF) q = false ->
  line_list lines = true ->
  occurrences q (concat lines) <= occurrences_in q lines.
Proof.
  intros Hq Hlf. induction lines as [|l rest IH]; intros H;
    [unfold occurrences_in; simpl; lia|].
  rewrite occurrences_in_cons. cbn [concat].
  destruct rest as [|r rest].
  - cbn [concat occurrences_in map list_sum]. rewrite app_nil_r. lia.
  - cbn [line_list] in H. apply andb_true_iff in H as [Hl Hr].
    destruct (closed_line_inv l Hl) as (b & -> & _).
    pose proof (occurrences_cut q LF (concat (r :: rest)) Hq Hlf b).
    pose proof (IH Hr). lia.
Qed.

Lemma occurrences_in_set_line (q v : text) :
  forall (lines : list text) (i : nat),
  occurrences q (nth i lines []) <= occurrences q v ->
  occurrences_in q lines <= occurrences_in q (set_line i v lines).
Proof.
  induction lines as [|l rest IH]; intros i H; [destruct i; simpl; lia|].
  destruct i as [|i]; cbn [set_line nth] in *; rewrite !occurrences_in_cons.
  - lia.
  - pose proof (IH i H). lia.
Qed.

Lemma struct_head_checks :
  forallb (fun old => clear_of struct_head (literal old))
    [lit "=> {"; lit ";"; lit "};"] = true.
Proof. vm_compute. reflexivity. Qed.

Lemma struct_head_replace (old new s : text) :
  In old [lit "=> {"; lit ";"; lit "};"] ->
  occurrences struct_head s <= occurrences struct_head (replace old new s).
Proof.
  intros Hin. pose proof struct_head_checks as H.
  rewrite forallb_forall in H. specialize (H old Hin).
  apply occurrences_replace_le; [|exact H].
  destruct Hin as [<-|[<-|[<-|[]]]]; reflexivity.
Qed.

Lemma occurrences_in_close_body (lines : list text) :
  occurrences_in struct_head lines
  <= occurrences_in struct_head (close_body lines).
Proof.
  induction lines as [|l rest IH]; [simpl; lia|].
  cbn [close_body].
  set (l' := if contains (lit "$window.invoke_set_theme(slint_colors);") l
             then replace (lit ";") [] l else l).
  assert (Hl : occurrences struct_head l <= occurrences struct_head l').
  { unfold l'. destruct (contains _ l); [|lia].
    apply struct_head_replace. right; left; reflexivity. }
  destruct (text_eqb (strip l') (lit "};")); rewrite !occurrences_in_cons.
  - pose proof (struct_head_replace (lit "};") (lit "}};") l'
                  ltac:(right; right; left; reflexivity)). lia.
  - lia.
Qed.

Lemma occurrences_in_fix_macro (lines : list text) :
  occurrences_in struct_head lines
  <= occurrences_in struct_head (fix_macro lines).
Proof.
  unfold fix_macro.
  destruct (first_from (contains (lit "macro_rules! apply_theme")) 0 lines)
    as [macro_start|]; [|lia].
  destruct (first_from (contains (lit "=> {")) macro_start lines)
    as [body_start|]; [|lia].
  set (lines' := set_line body_start _ lines).
  assert (H1 : occurrences_in struct_head lines
               <= occurrences_in struct_head lines').
  { apply occurrences_in_set_line. apply struct_head_replace.
    left; reflexivity. }
  rewrite occurrences_in_app.
  pose proof (occurrences_in_close_body (skipn body_start lines')).
  rewrite <- (firstn_skipn body_start lines') in H1 at 1.
  rewrite occurrences_in_app in H1. lia.
Qed.

Lemma occurrences_in_insert_at (q : text) (i : nat) (ins lines : list text) :
  occurrences_in q (insert_at i ins lines) =
  occurrences_in q lines + occurrences_in q ins.
Proof.
  unfold insert_at. rewrite !occurrences_in_app.
  rewrite <- (firstn_skipn i lines) at 3. rewrite occurrences_in_app. lia.
Qed.

Lemma first_block_import_line (lines : list text) :
  first_block lines =
  match import_line lines with
  | Some i => insert_at (i + 1) insertion lines
  | None => lines
  end.
Proof.
  unfold first_block, import_line.
  now destruct (first_from (contains (lit "slint::slint! {")) 0 lines).
Qed.

Lemma occurrences_in_other_blocks (q : text) (lines : list text) :
  occurrences_in q lines <= occurrences_in q (other_blocks lines).
Proof.
  unfold other_blocks.
  generalize (tl (indices (contains (lit "slint::slint! {")) 0 lines)).
  intros blocks. revert lines.
  induction blocks as [|b blocks IH]; intros lines; [simpl; lia|].
  cbn [fold_left].
  destruct (first_from (contains std_widgets) b lines) as [i|].
  - pose proof (IH (insert_at (i + 1) [theme_import] lines)) as H.
    rewrite occurrences_in_insert_at in H. lia.
  - apply IH.
Qed.

Lemma written_fix_build (content : text) :
  written fix_build content =
  concat (other_blocks (first_block (fix_macro (readlines content)))).
Proof. reflexivity. Qed.

(** X19.  fix_build.py is not safe to run twice.  When its search for the
    import of the first block succeeds, on the lines as the macro fix left
    them, the file written holds [struct SlintThemeColors {] at more
    places than the file read: the struct is declared again by every such
    run, whatever the file holds already. *)
Theorem fix_build_inserts_again (content : text) (i : nat) :
  import_line (fix_macro (readlines content)) = Some i ->
  occurrences struct_head content
  < occurrences struct_head (written fix_build content).
Proof.
  intros H. rewrite written_fix_build.
  set (lines0 := readlines content) in *.
  set (lines1 := fix_macro lines0) in *.
  pose proof (occurrences_concat_le struct_head lines0 ltac:(discriminate)
                ltac:(reflexivity) (line_list_readlines content)) as K0.
  unfold lines0 in K0 at 1. rewrite concat_readlines in K0.
  pose proof (occurrences_in_fix_macro lines0) as K1. fold lines1 in K1.
  assert (K2 : occurrences_in struct_head (first_block lines1) =
               occurrences_in struct_head lines1 + 1).
  { rewrite first_block_import_line, H, occurrences_in_insert_at.
    reflexivity. }
  pose proof (occurrences_in_other_blocks struct_head (first_block lines1))
    as K3.
  pose proof (occurrences_concat_ge struct_head
                (other_blocks (first_block lines1))) as K4.
  lia.
Qed.

Lemma fix_build_inserts_again_witness :
  let content :=
    lit "slint::slint! {
    import { Button } from " ++ dq ++ lit "std-widgets.slint" ++ dq ++ lit ";
}
" in
  occurrences struct_head content
  < occurrences struct_head (written fix_build content).
Proof.
  apply (fix_build_inserts_again _ 1). vm_compute. reflexivity.
Defined.

End FixBuildAgain.

(** ** fix_conflicts.py *)

Section FixConflictsFacts.
Import Script Overlap Chain RefactorModules.

Lemma keeps_braces_spec (steps : list (text * text)) :
  keeps_braces steps = true ->
  forall s, weight (replace_all steps s) = weight s.
Proof.
  induction steps as [|[old new] rest IH]; intros H s; [reflexivity|].
  cbn [keeps_braces forallb] in H. apply andb_true_iff in H as [H1 H2].
  apply andb_true_iff in H1 as [Hne Heq].
  apply nonempty_spec in Hne. apply text_eqb_eq in Heq.
  rewrite replace_all_cons, (IH H2). now apply weight_replace.
Qed.

Lemma theme_type_no_brace (i : nat) (tool_name theme_type : text) :
  nth_error FixConflicts.tools i = Some (tool_name, theme_type) ->
  filter is_brace theme_type = [].
Proof.
  intros H. apply nth_error_In in H. cbn [FixConflicts.tools In] in H.
  repeat (destruct H as [H|H]; [injection H as <- <-; reflexivity|]).
  destruct H.
Qed.

Lemma weight_rename_part (i : nat) (part new_content : text) :
  weight (FixConflicts.rename_part i part new_content) =
  (weight new_content + 1 + weight part)%Z.
Proof.
  unfold FixConflicts.rename_part.
  destruct (nth_error FixConflicts.tools i) as [[tool_name theme_type]|] eqn:E.
  - pose proof (theme_type_no_brace i _ _ E) as Hb.
    rewrite !weight_app.
    rewrite weight_replace;
      [|discriminate|rewrite !filter_app, Hb; reflexivity].
    rewrite weight_replace;
      [|discriminate|rewrite !filter_app, Hb; reflexivity].
    change (weight FixConflicts.file_sep) with 1%Z. lia.
  - rewrite !weight_app. change (weight FixConflicts.file_sep) with 1%Z. lia.
Qed.

Lemma weight_rename_loop (parts : list text) :
  forall (i : nat) (new_content : text),
  weight (FixConflicts.rename_loop i parts new_content) =
  (weight new_content
   + fold_right (fun q acc => 1 + weight q + acc) 0 parts)%Z.
Proof.
  induction parts as [|part rest IH]; intros i new_content.
  - cbn [FixConflicts.rename_loop fold_right]. lia.
  - cbn [FixConflicts.rename_loop fold_right].
    rewrite IH, weight_rename_part. lia.
Qed.

Lemma written_fix_conflicts (content : text) :
  written FixConflicts.fix_conflicts content =
  replace_all (FixConflicts.arm_steps ++ FixConflicts.call_steps)
    (let parts := split FixConflicts.file_sep (FixConflicts.fix_macro content) in
     FixConflicts.rename_loop 0 (tl parts) (hd [] parts)).
Proof. rewrite replace_all_app. reflexivity. Qed.

Lemma weight_fix_macro (content : text) :
  weight (FixConflicts.fix_macro content) = weight content.
Proof.
  unfold FixConflicts.fix_macro.
  rewrite !weight_replace; try discriminate; reflexivity.
Qed.

(** X20.  fix_conflicts.py keeps the brace balance of the file: the file
    written has as many open braces minus close braces as the file read,
    whatever the file holds and however many blocks it has. *)
Theorem fix_conflicts_weight (content : text) :
  run FixConflicts.fix_conflicts content =
    (Done tt,
     {| file := written FixConflicts.fix_conflicts content; console := [] |})
  /\ weight (written FixConflicts.fix_conflicts content) = weight content.
Proof.
  split; [reflexivity|].
  rewrite written_fix_conflicts.
  rewrite keeps_braces_spec by (vm_compute; reflexivity).
  cbv zeta.
  pose proof (join_split FixConflicts.file_sep
                (FixConflicts.fix_macro content) ltac:(discriminate)) as Hjoin.
  pose proof (split_length FixConflicts.file_sep
                (FixConflicts.fix_macro content)) as Hlen.
  destruct (split FixConflicts.file_sep (FixConflicts.fix_macro content))
    as [|p parts]; [simpl in Hlen; lia|].
  cbn [hd tl]. rewrite weight_rename_loop.
  rewrite <- (weight_fix_macro content), <- Hjoin.
  symmetry. apply weight_join.
Qed.

Lemma fix_conflicts_patterns_gone :
  forallb
    (fun '(tool_name, _) =>
       taken_out (FixConflicts.arm_pattern tool_name)
         (FixConflicts.arm_steps ++ FixConflicts.call_steps) &&
       taken_out (FixConflicts.call_pattern tool_name)
         (FixConflicts.arm_steps ++ FixConflicts.call_steps))
    FixConflicts.tools = true.
Proof. vm_compute. reflexivity. Qed.

(** X21.  After fix_conflicts.py, whatever the file was, no invocation of
    [apply_theme!] with two arguments of the forms that the script looks
    for is left: for each of the eight tools, neither the match arm
    [ToolWindowHandle::<Tool>(w) => apply_theme!(w, colors)] nor the call
    [apply_theme!(&<tool>_window, &colors);]. *)
Theorem fix_conflicts_effective (content tool_name theme_type : text) :
  In (tool_name, theme_type) FixConflicts.tools ->
  contains (FixConflicts.arm_pattern tool_name)
    (written FixConflicts.fix_conflicts content) = false /\
  contains (FixConflicts.call_pattern tool_name)
    (written FixConflicts.fix_conflicts content) = false.
Proof.
  intros Hin. pose proof fix_conflicts_patterns_gone as H.
  rewrite forallb_forall in H. specialize (H _ Hin). cbv beta iota in H.
  apply andb_true_iff in H as [H1 H2].
  rewrite written_fix_conflicts. split.
  - exact (taken_out_spec _ _ H1 _).
  - exact (taken_out_spec _ _ H2 _).
Qed.

Lemma fix_conflicts_effective_witness :
  contains (FixConflicts.arm_pattern (lit "Plot"))
    (written FixConflicts.fix_conflicts
       (FixConflicts.arm_pattern (lit "Plot"))) = false /\
  contains (FixConflicts.call_pattern (lit "Plot"))
    (written FixConflicts.fix_conflicts
       (FixConflicts.arm_pattern (lit "Plot"))) = false.
Proof.
  apply (fix_conflicts_effective (FixConflicts.arm_pattern (lit "Plot"))
           (lit "Plot") (lit "PlotThemeColors")).
  do 4 right. left. reflexivity.
Defined.

End FixConflictsFacts.

(** ** patch_theme_listener.py and patch_theme_listener_logs.py: the
    snippet of a second run *)

Section Snippet.
Import Script Overlap PatchThemeListener.

(** The loop prints the lines from the first one that holds
    ['pub fn new'], and stops. *)
Lemma snippet_at (n : nat) (before : list text) (line : text)
  (after : list text) (w : world) :
  (forall l, In l before -> contains (lit "pub fn new") l = false) ->
  contains (lit "pub fn new") line = true ->
  snippet n (before ++ line :: after) w =
  (Done tt,
   {| file := file w;
      console := console w ++ [concat (firstn n (line :: after))] |}).
Proof.
  intros Hb Hl. induction before as [|l before IH]; cbn [app snippet].
  - rewrite Hl. reflexivity.
  - rewrite (Hb l (or_introl eq_refl)). apply IH.
    intros l' Hin. apply Hb. now right.
Qed.

(** A text without line feed that occurs in a file occurs in one of its
    lines. *)
Lemma first_line_with (q : text) (lines : list text) :
  1 <= occurrences_in q lines ->
  exists before line after,
    lines = before ++ line :: after /\
    (forall l, In l before -> contains q l = false) /\
    contains q line = true.
Proof.
  induction lines as [|l lines IH]; intros H.
  - unfold occurrences_in in H. simpl in H. lia.
  - destruct (contains q l) eqn:E.
    + exists [], l, lines. repeat split; [intros l' []|exact E].
    + rewrite occurrences_in_cons in H.
      assert (H0 : occurrences q l = 0).
      { destruct (occurrences q l) eqn:Eo; [reflexivity|].
        assert (Hc : contains q l = true)
          by (apply occurrences_positive; lia).
        congruence. }
      destruct (IH ltac:(lia)) as (before & line & after & -> & Hb & Hl).
      exists (l :: before), line, after. repeat split; [|exact Hl].
      intros l' [<-|Hin]; [exact E|now apply Hb].
Qed.

Lemma readlines_with (q content : text) :
  q <> [] -> existsb (char_eqb LF) q = false ->
  contains q content = true ->
  exists before line after,
    readlines content = before ++ line :: after /\
    (forall l, In l before -> contains q l = false) /\
    contains q line = true.
Proof.
  intros Hne Hlf Hc. apply first_line_with.
  pose proof (occurrences_contains q content Hne Hc) as H1.
  pose proof (occurrences_concat_le q (readlines content) Hne Hlf
                (line_list_readlines content)) as H2.
  rewrite concat_readlines in H2. lia.
Qed.

(** The last branch of both scripts on a file that holds
    ['pub fn new']: nothing is written, and three entries are printed, the
    third one the [n] lines from the first line with ['pub fn new']. *)
Lemma not_found_snippet (n : nat) (content : text) :
  contains (lit "pub fn new") content = true ->
  exists before line after,
    readlines content = before ++ line :: after /\
    (forall l, In l before -> contains (lit "pub fn new") l = false) /\
    contains (lit "pub fn new") line = true /\
    not_found n (readlines content) {| file := content; console := [] |} =
    (Done tt,
     {| file := content;
        console := [lit "Target block not found. Could not patch file.";
                    lit "Snippet around expected location:";
                    concat (firstn n (line :: after))] |}).
Proof.
  intros Hc.
  destruct (readlines_with (lit "pub fn new") content ltac:(discriminate)
              eq_refl Hc) as (before & line & after & Hr & Hb & Hl).
  exists before, line, after. repeat split; try assumption.
  rewrite Hr. unfold not_found, bind, print. cbn [file console app].
  rewrite (snippet_at n before line after _ Hb Hl). reflexivity.
Qed.

Lemma new_in_replacement :
  contains (lit "pub fn new") replacement_block = true.
Proof. vm_compute. reflexivity. Qed.

Lemma new_in_replacement_logs :
  contains (lit "pub fn new") replacement_block_logs = true.
Proof. vm_compute. reflexivity. Qed.

(** X3.  On a file that holds the constructor block, patch_theme_listener.py
    writes the file with every such block replaced and prints its success
    line; the block is then gone, and a second run writes nothing: it
    prints that the block was not found, the heading of the snippet, and
    one more entry, the ten lines (or what there is of them) from the
    first line of the file that holds ['pub fn new']. *)
Theorem patch_theme_listener_twice (content : text) :
  contains target_block content = true ->
  let out := written patch_theme_listener content in
  run patch_theme_listener content =
    (Done tt,
     {| file := replace target_block replacement_block content;
        console := [lit "Successfully patched individual_tool_windows.rs"] |}) /\
  contains target_block out = false /\
  contains replacement_block out = true /\
  exists before line after,
    readlines out = before ++ line :: after /\
    (forall l, In l before -> contains (lit "pub fn new") l = false) /\
    contains (lit "pub fn new") line = true /\
    run patch_theme_listener out =
    (Done tt,
     {| file := out;
        console := [lit "Target block not found. Could not patch file.";
                    lit "Snippet around expected location:";
                    concat (firstn 10 (line :: after))] |}).
Proof.
  intros H out.
  assert (Hrun : run patch_theme_listener content =
    (Done tt,
     {| file := replace target_block replacement_block content;
        console := [lit "Successfully patched individual_tool_windows.rs"] |}))
    by (rewrite patch_theme_listener_run, H; reflexivity).
  assert (Hw : out = replace target_block replacement_block content)
    by (unfold out, written; now rewrite Hrun).
  assert (Hgone : contains target_block out = false)
    by (rewrite Hw; apply replace_removes, apart_target_replacement).
  assert (Hthere : contains replacement_block out = true)
    by (rewrite Hw; apply replace_present; [discriminate|exact H]).
  split; [exact Hrun|]. split; [exact Hgone|]. split; [exact Hthere|].
  rewrite patch_theme_listener_run, Hgone.
  apply not_found_snippet.
  exact (contains_trans _ _ _ new_in_replacement Hthere).
Qed.

(** X22.  On a file that holds the constructor block and not the patch
    without logs, patch_theme_listener_logs.py takes its first branch; the
    file it writes holds the patch with logs and neither the block nor the
    patch without logs, so a second run writes nothing: it prints that the
    block was not found, the heading of the snippet, and one more entry,
    the twenty lines (or what there is of them) from the first line of the
    file that holds ['pub fn new']. *)
Theorem patch_theme_listener_logs_twice (content : text) :
  contains target_block content = true ->
  contains replacement_block content = false ->
  let out := written patch_theme_listener_logs content in
  run patch_theme_listener_logs content =
    (Done tt,
     {| file := replace target_block replacement_block_logs content;
        console :=
          [lit "Successfully patched individual_tool_windows.rs with logging"] |})
  /\ contains target_block out = false
  /\ contains replacement_block out = false
  /\ contains replacement_block_logs out = true
  /\ exists before line after,
       readlines out = before ++ line :: after /\
       (forall l, In l before -> contains (lit "pub fn new") l = false) /\
       contains (lit "pub fn new") line = true /\
       run patch_theme_listener_logs out =
       (Done tt,
        {| file := out;
           console := [lit "Target block not found. Could not patch file.";
                       lit "Snippet around expected location:";
                       concat (firstn 20 (line :: after))] |}).
Proof.
  intros Ht Hp out.
  assert (Hrun : run patch_theme_listener_logs content =
    (Done tt,
     {| file := replace target_block replacement_block_logs content;
        console :=
          [lit "Successfully patched individual_tool_windows.rs with logging"] |}))
    by (rewrite patch_theme_listener_logs_run, Ht; reflexivity).
  assert (Hout : out = replace target_block replacement_block_logs content)
    by (unfold out, written; now rewrite Hrun).
  assert (H1 : contains target_block out = false)
    by (rewrite Hout; apply replace_removes, apart_target_logs).
  assert (H2 : contains replacement_block out = false)
    by (rewrite Hout; apply replace_creates_none;
          [exact apart_replacement_logs|discriminate|exact Hp]).
  assert (H3 : contains replacement_block_logs out = true)
    by (rewrite Hout; apply replace_present; [discriminate|exact Ht]).
  split; [exact Hrun|]. split; [exact H1|]. split; [exact H2|].
  split; [exact H3|].
  rewrite patch_theme_listener_logs_run, H1, H2.
  apply not_found_snippet.
  exact (contains_trans _ _ _ new_in_replacement_logs H3).
Qed.

End Snippet.

(** A file that is the constructor block: the second run prints the first
    lines of the patch. *)
Lemma patch_theme_listener_twice_witness :
  exists before line after,
    readlines
      (Script.written PatchThemeListener.patch_theme_listener
         PatchThemeListener.target_block) = before ++ line :: after /\
    (forall l, In l before -> contains (lit "pub fn new") l = false) /\
    contains (lit "pub fn new") line = true /\
    Script.run PatchThemeListener.patch_theme_listener
      (Script.written PatchThemeListener.patch_theme_listener
         PatchThemeListener.target_block) =
    (Script.Done tt,
     {| Script.file :=
          Script.written PatchThemeListener.patch_theme_listener
            PatchThemeListener.target_block;
        Script.console :=
          [lit "Target block not found. Could not patch file.";
           lit "Snippet around expected location:";
           concat (firstn 10 (line :: after))] |}).
Proof.
  destruct (patch_theme_listener_twice PatchThemeListener.target_block
              eq_refl) as (_ & _ & _ & H).
  exact H.
Defined.

Lemma patch_theme_listener_logs_twice_witness :
  exists before line after,
    readlines
      (Script.written PatchThemeListener.patch_theme_listener_logs
         PatchThemeListener.target_block) = before ++ line :: after /\
    (forall l, In l before -> contains (lit "pub fn new") l = false) /\
    contains (lit "pub fn new") line = true /\
    Script.run PatchThemeListener.patch_theme_listener_logs
      (Script.written PatchThemeListener.patch_theme_listener_logs
         PatchThemeListener.target_block) =
    (Script.Done tt,
     {| Script.file :=
          Script.written PatchThemeListener.patch_theme_listener_logs
            PatchThemeListener.target_block;
        Script.console :=
          [lit "Target block not found. Could not patch file.";
           lit "Snippet around expected location:";
           concat (firstn 20 (line :: after))] |}).
Proof.
  destruct (patch_theme_listener_logs_twice PatchThemeListener.target_block
              eq_refl eq_refl) as (_ & _ & _ & _ & H).
  exact H.
Defined.

(** ** Occurrences and the cuts of a text *)

Section Cuts.
Import Overlap.

Lemma find_index_intro (p s : text) (i : nat) :
  startswith (skipn i s) p = true ->
  (forall j, j < i -> startswith (skipn j s) p = false) ->
  find_index p s = Some i.
Proof.
  intros Hi Hmin.
  destruct (find_index p s) as [k|] eqn:E.
  - destruct (find_index_Some _ _ _ E) as (Hk & _ & Hkmin).
    destruct (Nat.lt_trichotomy k i) as [H|[H|H]].
    + rewrite (Hmin k H) in Hk. discriminate.
    + now subst.
    + rewrite (Hkmin i H) in Hi. discriminate.
  - apply find_index_None in E.
    apply contains_startswith in Hi. apply contains_skipn in Hi. congruence.
Qed.

Lemma find_index_app (p x y : text) (i : nat) :
  find_index p x = Some i -> find_index p (x ++ y) = Some i.
Proof.
  intros H.
  pose proof (find_index_prefix p x (skipn (i + List.length p) x ++ y) i H)
    as Hp.
  now rewrite app_assoc, firstn_skipn in Hp.
Qed.

(** A pattern absent from [x] starts nowhere in [x ++ y] but where it
    would go over the end of [x]. *)
Lemma absent_starts (old x y : text) (i : nat) :
  contains old x = false -> i + List.length old <= List.length x ->
  startswith (skipn i (x ++ y)) old = false.
Proof.
  intros Hx Hi.
  destruct (startswith (skipn i (x ++ y)) old) eqn:E; [|reflexivity].
  rewrite skipn_app_le in E by lia.
  apply startswith_app_short in E; [|rewrite length_skipn; lia].
  apply contains_startswith, contains_skipn in E. congruence.
Qed.

(** [replace] works on the two sides of a cut that no occurrence of the
    pattern goes over. *)
Lemma replace_cut (old new y : text) :
  old <> [] ->
  forall n x, List.length x <= n ->
  (forall i, i < List.length x -> List.length x < i + List.length old ->
     startswith (skipn i (x ++ y)) old = false) ->
  replace old new (x ++ y) = replace old new x ++ replace old new y.
Proof.
  intros Hne. induction n as [|n IH]; intros x Hn Hcut.
  - destruct x; [|simpl in Hn; lia].
    cbn [app]. rewrite (replace_absent old new []); [reflexivity|].
    destruct old; [congruence|reflexivity].
  - destruct (find_index old x) as [k|] eqn:F.
    + destruct (find_index_Some _ _ _ F) as (Hk & _ & _).
      apply startswith_length in Hk. rewrite length_skipn in Hk.
      assert (Hold : 0 < List.length old)
        by (destruct old; [congruence|simpl; lia]).
      rewrite (replace_first old new (x ++ y) k Hne (find_index_app _ _ _ _ F)).
      rewrite (replace_first old new x k Hne F).
      rewrite firstn_app. replace (k - List.length x) with 0 by lia.
      cbn [firstn]. rewrite app_nil_r, skipn_app_le by lia.
      rewrite IH.
      * now rewrite <- !app_assoc.
      * rewrite length_skipn. lia.
      * intros i Hi1 Hi2. rewrite length_skipn in Hi1, Hi2.
        rewrite <- skipn_app_le, skipn_skipn by lia.
        apply Hcut; lia.
    + apply find_index_None in F.
      rewrite (replace_absent old new x F).
      destruct old as [|o old]; [congruence|]. unfold replace.
      rewrite (replace_from_after (o :: old) new (List.length x) (x ++ y)).
      * rewrite firstn_app, Nat.sub_diag, firstn_all. cbn [firstn].
        now rewrite app_nil_r, skipn_app_exact.
      * intros i Hi.
        destruct (Nat.le_gt_cases (i + List.length (o :: old)) (List.length x)).
        -- now apply absent_starts.
        -- now apply Hcut.
Qed.

(** An occurrence that starts in [x] and goes over its end splits the
    pattern. *)
Lemma over_the_end (old x y : text) (i : nat) :
  i < List.length x -> List.length x < i + List.length old ->
  startswith (skipn i (x ++ y)) old = true ->
  exists p1 p2, old = p1 ++ p2 /\ p1 <> [] /\ p2 <> [] /\
    x = firstn i x ++ p1 /\ startswith y p2 = true.
Proof.
  intros Hi1 Hi2 H. rewrite skipn_app_le in H by lia.
  destruct (startswith_app_inv _ _ _ H) as [Hx|(p2 & Hp & Hne & Hy)].
  - apply startswith_length in Hx. rewrite length_skipn in Hx. lia.
  - exists (skipn i x), p2. repeat split; try assumption.
    + intros E. apply (f_equal (@List.length char)) in E.
      rewrite length_skipn in E. simpl in E. lia.
    + now rewrite firstn_skipn.
Qed.

(** A text [N] that is [apart] from the pattern cuts the text for
    [replace]. *)
Lemma replace_across (old new N : text) :
  apart old N = true ->
  forall a b,
  replace old new (a ++ N ++ b) = replace old new a ++ N ++ replace old new b.
Proof.
  intros Hap a b.
  pose proof (apart_nonempty _ _ Hap) as Hne.
  destruct (apart_inv old N Hap) as (HN & Hin & Hov).
  rewrite (replace_cut old new (N ++ b) Hne (List.length a) a (le_n _)).
  - f_equal.
    rewrite (replace_cut old new b Hne (List.length N) N (le_n _)).
    + now rewrite (replace_absent old new N HN).
    + intros i Hi1 Hi2.
      destruct (startswith (skipn i (N ++ b)) old) eqn:E; [|reflexivity].
      destruct (over_the_end old N b i Hi1 Hi2 E)
        as (p1 & p2 & Hp & H1 & H2 & HNeq & _).
      destruct (Hov p1 p2 Hp H1 H2) as [_ Hno]. now apply Hno in HNeq.
  - intros i Hi1 Hi2.
    destruct (startswith (skipn i (a ++ N ++ b)) old) eqn:E; [|reflexivity].
    destruct (over_the_end old a (N ++ b) i Hi1 Hi2 E)
      as (p1 & p2 & Hp & H1 & H2 & _ & Hy).
    destruct (Hov p1 p2 Hp H1 H2) as [Hno _].
    destruct (startswith_app_inv _ _ _ Hy) as [Hy'|(p3 & Hp3 & H3 & _)];
      [congruence|].
    subst p2. destruct (Hin p1 p3 Hp); congruence.
Qed.

Lemma borderless_inv (p : text) :
  borderless p = true ->
  forall p1 p2, p = p1 ++ p2 -> p1 <> [] -> p2 <> [] ->
  startswith p p2 = false.
Proof.
  unfold borderless. intros H p1 p2 Hp H1 H2.
  rewrite forallb_forall in H. specialize (H (List.length p1)).
  rewrite Hp, length_app, skipn_app_exact in H. rewrite <- Hp in H.
  destruct p1; [congruence|]. destruct p2; [congruence|].
  apply negb_true_iff, H, in_seq. simpl. lia.
Qed.

(** A pattern that no proper part of itself starts and ends is found
    first where it is put after a text without it. *)
Lemma find_index_at (p x y : text) :
  borderless p = true -> contains p x = false ->
  find_index p (x ++ p ++ y) = Some (List.length x).
Proof.
  intros Hb Hx. apply find_index_intro.
  - rewrite skipn_app_exact. apply startswith_app.
  - intros j Hj.
    destruct (Nat.le_gt_cases (j + List.length p) (List.length x)).
    + now apply absent_starts.
    + destruct (startswith (skipn j (x ++ p ++ y)) p) eqn:E; [|reflexivity].
      destruct (over_the_end p x (p ++ y) j Hj H E)
        as (p1 & p2 & Hp & H1 & H2 & _ & Hy).
      apply startswith_app_short in Hy.
      * rewrite (borderless_inv p Hb p1 p2 Hp H1 H2) in Hy. discriminate.
      * apply (f_equal (@List.length char)) in Hp.
        rewrite length_app in Hp. lia.
Qed.

Lemma split_at (sep x y : text) :
  sep <> [] -> borderless sep = true -> contains sep x = false ->
  split sep (x ++ sep ++ y) = x :: split sep y.
Proof.
  intros Hne Hb Hx.
  rewrite (split_first sep (x ++ sep ++ y) (List.length x) Hne
             (find_index_at sep x y Hb Hx)).
  rewrite firstn_app, Nat.sub_diag, firstn_all. cbn [firstn].
  rewrite app_nil_r, app_assoc, <- length_app, skipn_app_exact. reflexivity.
Qed.

End Cuts.

(** ** refactor_listviews.py: a file with the anchor twice *)

Section StructureTwice.
Import Script Overlap RefactorListviews.

Lemma apart_hierarchy_anchor : apart original_hierarchy anchor = true.
Proof. vm_compute. reflexivity. Qed.

Lemma apart_anchor_replacement : apart anchor hierarchy_replacement = true.
Proof. vm_compute. reflexivity. Qed.

Lemma borderless_anchor : borderless anchor = true.
Proof. vm_compute. reflexivity. Qed.

(** The replacement of line 76 neither makes nor moves an anchor: the
    script on a text cut at its first two anchors. *)
Lemma refactor_listviews_twice (pre seg tail : text) :
  contains anchor pre = false -> contains anchor seg = false ->
  replace original_hierarchy hierarchy_replacement
    (pre ++ anchor ++ seg ++ anchor ++ tail) =
  replace original_hierarchy hierarchy_replacement pre ++ anchor ++
  replace original_hierarchy hierarchy_replacement seg ++ anchor ++
  replace original_hierarchy hierarchy_replacement tail /\
  split anchor
    (replace original_hierarchy hierarchy_replacement
       (pre ++ anchor ++ seg ++ anchor ++ tail)) =
  replace original_hierarchy hierarchy_replacement pre ::
  replace original_hierarchy hierarchy_replacement seg ::
  split anchor (replace original_hierarchy hierarchy_replacement tail) /\
  run refactor_listviews (pre ++ anchor ++ seg ++ anchor ++ tail) =
  (Done tt,
   {| file :=
        replace original_hierarchy hierarchy_replacement pre ++ anchor ++
        rewrite_structure
          (replace original_hierarchy hierarchy_replacement seg);
      console := [lit "Refactored ListViews in writing_tools.slint"] |}).
Proof.
  intros Hpre Hseg.
  assert (Hcut : replace original_hierarchy hierarchy_replacement
    (pre ++ anchor ++ seg ++ anchor ++ tail) =
    replace original_hierarchy hierarchy_replacement pre ++ anchor ++
    replace original_hierarchy hierarchy_replacement seg ++ anchor ++
    replace original_hierarchy hierarchy_replacement tail).
  { rewrite (replace_across _ hierarchy_replacement _ apart_hierarchy_anchor
               pre (seg ++ anchor ++ tail)).
    now rewrite (replace_across _ hierarchy_replacement _
                   apart_hierarchy_anchor seg tail). }
  assert (Hsplit : split anchor
    (replace original_hierarchy hierarchy_replacement
       (pre ++ anchor ++ seg ++ anchor ++ tail)) =
    replace original_hierarchy hierarchy_replacement pre ::
    replace original_hierarchy hierarchy_replacement seg ::
    split anchor (replace original_hierarchy hierarchy_replacement tail)).
  { rewrite Hcut.
    rewrite split_at;
      [|discriminate|exact borderless_anchor
       |apply replace_creates_none;
          [exact apart_anchor_replacement|discriminate|exact Hpre]].
    rewrite split_at;
      [|discriminate|exact borderless_anchor
       |apply replace_creates_none;
          [exact apart_anchor_replacement|discriminate|exact Hseg]].
    reflexivity. }
  split; [exact Hcut|]. split; [exact Hsplit|].
  unfold run, refactor_listviews, bind, read_file, write_file, print.
  cbn [file console app]. unfold structure_step. rewrite Hsplit.
  pose proof (split_length anchor
    (replace original_hierarchy hierarchy_replacement tail)) as Hl.
  destruct (split anchor
    (replace original_hierarchy hierarchy_replacement tail)) as [|p ps];
    [simpl in Hl; lia|].
  reflexivity.
Qed.

(** C9, as amended.  On every input in which the anchor occurs at offset
    [i] first and again [j] characters after the end of that occurrence,
    the script writes the text before the first occurrence with the hierarchy list of
    line 76 replaced in it, one copy of the anchor, and the segment between
    the two occurrences after the replacement of line 76 and the five
    replacements of lines 125-129; it prints its one line.  Nothing of the
    text from the second occurrence on reaches the file, whatever that
    text is.  The text before the first occurrence is written as it was
    when it does not hold the hierarchy list. *)
Theorem structure_step_drops_tail (input : text) (i j : nat) :
  let fix_hierarchy := replace original_hierarchy hierarchy_replacement in
  let after := skipn (i + List.length anchor) input in
  let output :=
    fix_hierarchy (firstn i input) ++ anchor ++
    rewrite_structure (fix_hierarchy (firstn j after)) in
  find_index anchor input = Some i ->
  find_index anchor after = Some j ->
  input = firstn i input ++ anchor ++ firstn j after ++ anchor ++
          skipn (j + List.length anchor) after /\
  run refactor_listviews input =
    (Done tt,
     {| file := output;
        console := [lit "Refactored ListViews in writing_tools.slint"] |}) /\
  (forall tail,
     written refactor_listviews
       (firstn i input ++ anchor ++ firstn j after ++ anchor ++ tail)
     = output) /\
  List.length (split anchor (fix_hierarchy input)) >= 3 /\
  (contains original_hierarchy (firstn i input) = false ->
   output = firstn i input ++ anchor ++
            rewrite_structure (fix_hierarchy (firstn j after))).
Proof.
  intros fix_hierarchy after output Hi Hj.
  assert (Hin : input = firstn i input ++ anchor ++ firstn j after ++ anchor ++
                        skipn (j + List.length anchor) after).
  { rewrite (find_index_split anchor input i Hi) at 1. fold after.
    now rewrite (find_index_split anchor after j Hj) at 1. }
  assert (Hpre : contains anchor (firstn i input) = false)
    by (apply find_index_gap; [discriminate|exact Hi]).
  assert (Hseg : contains anchor (firstn j after) = false)
    by (apply find_index_gap; [discriminate|exact Hj]).
  split; [exact Hin|]. split; [|split; [|split]].
  - rewrite Hin at 1.
    apply (refactor_listviews_twice _ _ _ Hpre Hseg).
  - intros tail. unfold written.
    destruct (refactor_listviews_twice _ _ tail Hpre Hseg) as (_ & _ & ->).
    reflexivity.
  - rewrite Hin. unfold fix_hierarchy.
    destruct (refactor_listviews_twice _ _
                (skipn (j + List.length anchor) after) Hpre Hseg)
      as (_ & -> & _).
    cbn [List.length].
    pose proof (split_length anchor
      (replace original_hierarchy hierarchy_replacement
         (skipn (j + List.length anchor) after))).
    lia.
  - intros Habs. unfold output, fix_hierarchy at 1.
    now rewrite (replace_absent _ _ _ Habs).
Qed.

End StructureTwice.

(** The anchor twice: the second component is lost. *)
Lemma structure_step_drops_tail_witness :
  Script.run RefactorListviews.refactor_listviews
    (lit "a export component StructureTool { model: [1]; } export component StructureTool2 { }")
  = (Script.Done tt,
     {| Script.file :=
          lit "a export component StructureTool { for item in [1]: } ";
        Script.console :=
          [lit "Refactored ListViews in writing_tools.slint"] |}).
Proof.
  destruct (structure_step_drops_tail
    (lit "a export component StructureTool { model: [1]; } export component StructureTool2 { }")
    2 17 eq_refl eq_refl) as (_ & H & _).
  rewrite H. vm_compute. reflexivity.
Defined.

(** C9 as stated fails: with the hierarchy list before the first anchor,
    what the script writes before the anchor is not the text that was
    there. *)
Lemma structure_step_hierarchy_before :
  find_index RefactorListviews.anchor RefactorListviews.hierarchy_then_twice =
    Some (List.length RefactorListviews.original_hierarchy + 1) /\
  find_index RefactorListviews.anchor
    (skipn (List.length RefactorListviews.original_hierarchy + 1 +
            List.length RefactorListviews.anchor)
       RefactorListviews.hierarchy_then_twice) = Some 3 /\
  Script.written RefactorListviews.refactor_listviews
    RefactorListviews.hierarchy_then_twice =
  RefactorListviews.hierarchy_replacement ++
  lit " export component StructureTool a " /\
  startswith
    (Script.written RefactorListviews.refactor_listviews
       RefactorListviews.hierarchy_then_twice)
    (firstn (List.length RefactorListviews.original_hierarchy + 1)
       RefactorListviews.hierarchy_then_twice) = false.
Proof. repeat split; vm_compute; reflexivity. Qed.

(** ** fix_build.py then fix_conflicts.py on the one-line macro, with any
    body *)

Section MacroBody.
Import Script Overlap Chain MacroScenario.

Lemma seams_inv (p a b : text) :
  seams p a b = true ->
  forall p1 p2, p = p1 ++ p2 -> p1 <> [] -> p2 <> [] ->
  (forall x', a <> x' ++ p1) /\ startswith b p2 = false.
Proof.
  unfold seams. intros H p1 p2 Hp H1 H2.
  rewrite forallb_forall in H. specialize (H (List.length p1)).
  rewrite Hp, length_app, skipn_app_exact, firstn_app, firstn_all,
    Nat.sub_diag in H.
  cbn [firstn] in H. rewrite app_nil_r in H.
  destruct p1 as [|c p1]; [congruence|]. destruct p2 as [|d p2]; [congruence|].
  assert (Hin : In (List.length (c :: p1))
                   (seq 1 (List.length (c :: p1) + List.length (d :: p2) - 1)))
    by (apply in_seq; simpl; lia).
  apply H, andb_true_iff in Hin as [Ha Hb].
  split; [|now apply negb_true_iff in Hb].
  intros x' Heq. apply negb_true_iff in Ha. unfold endswith in Ha.
  rewrite Heq, length_app in Ha.
  replace (List.length x' + List.length (c :: p1) - List.length (c :: p1))
    with (List.length x' + 0) in Ha by lia.
  rewrite skipn_app_plus in Ha. cbn [skipn] in Ha.
  rewrite <- (app_nil_r (c :: p1)) in Ha at 3.
  rewrite startswith_app, andb_true_r in Ha.
  apply Nat.leb_gt in Ha. lia.
Qed.

(** Between [a] and [b], a text without the pattern brings no
    occurrence. *)
Lemma absent_after (p N b : text) (a : text) :
  seams p a b = true ->
  contains p N = false -> contains p b = false ->
  contains p (N ++ b) = false.
Proof.
  intros Hs HN Hb.
  destruct (contains p (N ++ b)) eqn:E; [|reflexivity].
  destruct (contains_app_inv _ _ _ E)
    as [H|[H|(x' & p1 & p2 & _ & Hp & H1 & H2 & Hy)]]; try congruence.
  destruct (seams_inv p a b Hs p1 p2 Hp H1 H2) as [_ Hno]. congruence.
Qed.

Lemma absent_middle (p a N b : text) :
  seams p a b = true ->
  contains p a = false -> contains p N = false -> contains p b = false ->
  contains p (a ++ N ++ b) = false.
Proof.
  intros Hs Ha HN Hb.
  destruct (contains p (a ++ N ++ b)) eqn:E; [|reflexivity].
  destruct (contains_app_inv _ _ _ E)
    as [H|[H|(x' & p1 & p2 & Hx & Hp & H1 & H2 & _)]].
  - congruence.
  - rewrite (absent_after p N b a Hs HN Hb) in H. discriminate.
  - destruct (seams_inv p a b Hs p1 p2 Hp H1 H2) as [Hno _].
    now apply Hno in Hx.
Qed.

(** [replace] in a text put between [a] and [b] works on [a] alone when
    the pattern is neither in the text nor in [b]. *)
Lemma replace_middle (old new a N b : text) :
  old <> [] -> seams old a b = true ->
  contains old N = false -> contains old b = false ->
  replace old new (a ++ N ++ b) = replace old new a ++ N ++ b.
Proof.
  intros Hne Hs HN Hb.
  rewrite (replace_cut old new (N ++ b) Hne (List.length a) a (le_n _)).
  - now rewrite (replace_absent old new (N ++ b) (absent_after _ _ _ a Hs HN Hb)).
  - intros i Hi1 Hi2.
    destruct (startswith (skipn i (a ++ N ++ b)) old) eqn:E; [|reflexivity].
    destruct (over_the_end old a (N ++ b) i Hi1 Hi2 E)
      as (p1 & p2 & Hp & H1 & H2 & Ha & _).
    destruct (seams_inv old a b Hs p1 p2 Hp H1 H2) as [Hno _].
    now apply Hno in Ha.
Qed.

Lemma lstrip_snoc (c : char) :
  is_space c = false ->
  forall x, exists u, lstrip (x ++ [c]) = u ++ [c].
Proof.
  intros Hc. induction x as [|a x IH]; cbn [app lstrip].
  - rewrite Hc. now exists [].
  - destruct (is_space a); [exact IH|]. now exists (a :: x).
Qed.

(** [strip] keeps a first character that is not whitespace. *)
Lemma strip_head (c : char) (s : text) :
  is_space c = false -> exists t, strip (c :: s) = c :: t.
Proof.
  intros Hc. unfold strip. cbn [lstrip]. rewrite Hc. cbn [rev].
  destruct (lstrip_snoc c Hc (rev s)) as [u ->].
  exists (rev u). rewrite rev_app_distr. reflexivity.
Qed.

(** The loops of fix_build.py on a file of one line. *)
Lemma fix_macro_one_line (l : text) :
  contains (lit "macro_rules! apply_theme") l = true ->
  contains (lit "=> {") l = true ->
  FixBuild.fix_macro [l] =
  FixBuild.close_body [replace (lit "=> {") (lit "=> {{") l].
Proof.
  intros H1 H2. unfold FixBuild.fix_macro, FixBuild.first_from.
  cbn [skipn FixBuild.first_index]. rewrite H1.
  cbn [option_map Nat.add skipn FixBuild.first_index]. rewrite H2.
  reflexivity.
Qed.

Lemma close_body_one_line (l : text) :
  contains (lit "$window.invoke_set_theme(slint_colors);") l = false ->
  text_eqb (strip l) (lit "};") = false ->
  FixBuild.close_body [l] = [l].
Proof.
  intros H1 H2. cbn [FixBuild.close_body]. rewrite H1. cbv zeta.
  now rewrite H2.
Qed.

Lemma fix_build_one_line (l : text) :
  RewriteMacro.open_line l = true ->
  contains (lit "macro_rules! apply_theme") l = true ->
  contains (lit "=> {") l = true ->
  contains (lit "$window.invoke_set_theme(slint_colors);")
    (replace (lit "=> {") (lit "=> {{") l) = false ->
  text_eqb (strip (replace (lit "=> {") (lit "=> {{") l)) (lit "};") = false ->
  contains (lit "slint::slint! {") (replace (lit "=> {") (lit "=> {{") l)
    = false ->
  written FixBuild.fix_build l = replace (lit "=> {") (lit "=> {{") l.
Proof.
  intros Ho H1 H2 H3 H4 H5.
  unfold written, run, FixBuild.fix_build, bind, read_file, write_file.
  cbn [file console snd]. rewrite (readlines_open l Ho).
  rewrite (fix_macro_one_line l H1 H2), (close_body_one_line _ H3 H4).
  assert (Hb : FixBuild.first_block [replace (lit "=> {") (lit "=> {{") l] =
               [replace (lit "=> {") (lit "=> {{") l]).
  { unfold FixBuild.first_block, FixBuild.first_from.
    cbn [skipn FixBuild.first_index]. now rewrite H5. }
  rewrite Hb.
  assert (Ho' : FixBuild.other_blocks [replace (lit "=> {") (lit "=> {{") l] =
                [replace (lit "=> {") (lit "=> {{") l]).
  { unfold FixBuild.other_blocks. cbn [FixBuild.indices]. now rewrite H5. }
  rewrite Ho'. cbn [concat]. apply app_nil_r.
Qed.

Lemma searched_absent (body p : text) :
  forallb (fun p => negb (contains p body)) searched = true ->
  In p searched -> contains p body = false.
Proof.
  intros H Hin. rewrite forallb_forall in H.
  now apply negb_true_iff, H.
Qed.

(** The texts that the scripts look for cannot lie across the ends of the
    body, before and after the edits of the header. *)
Lemma searched_seams :
  forallb
    (fun p =>
       seams p (lit "macro_rules! apply_theme { ($window:expr, $colors:expr) => { ")
               (lit " }; }") &&
       seams p (lit "macro_rules! apply_theme { ($window:expr, $colors:expr) => {{ ")
               (lit " }; }") &&
       seams p (lit "macro_rules! apply_theme { ($window:expr, $colors:expr, $theme_type:ty) => {{ ")
               (lit " }; }") &&
       negb (contains p (lit " }; }")))
    (lit "($window:expr, $colors:expr) => {{" :: searched) = true.
Proof. vm_compute. reflexivity. Qed.

Lemma searched_heads :
  forallb
    (fun p =>
       negb (contains p
         (lit "macro_rules! apply_theme { ($window:expr, $colors:expr) => {{ ")) &&
       negb (contains p
         (lit "macro_rules! apply_theme { ($window:expr, $colors:expr, $theme_type:ty) => {{ ")))
    (tl searched) = true.
Proof. vm_compute. reflexivity. Qed.

Lemma strip_first (l : text) (c : char) :
  nth_error l 0 = Some c -> is_space c = false ->
  nth_error (strip l) 0 = Some c.
Proof.
  destruct l as [|d l]; [discriminate|]. intros [= ->] Hc.
  destruct (strip_head c l Hc) as [t ->]. reflexivity.
Qed.

Lemma open_line_app (a b : text) :
  a <> [] ->
  forallb (fun c => negb (char_eqb c LF)) a = true ->
  forallb (fun c => negb (char_eqb c LF)) b = true ->
  RewriteMacro.open_line (a ++ b) = true.
Proof.
  intros Hne Ha Hb. destruct a as [|c a]; [congruence|].
  cbn [app RewriteMacro.open_line].
  change (c :: a ++ b) with ((c :: a) ++ b). now rewrite forallb_app, Ha, Hb.
Qed.

Lemma no_lf_forallb (s : text) :
  existsb (char_eqb LF) s = false ->
  forallb (fun c => negb (char_eqb c LF)) s = true.
Proof.
  induction s as [|c s IH]; [reflexivity|].
  cbn [existsb forallb]. intros H. apply orb_false_iff in H as [Hc Hs].
  now rewrite char_eqb_sym, Hc, IH.
Qed.

(** C6, as amended.  With any body that has no line feed and none of the
    texts that the two scripts look for, fix_build.py doubles the opening
    brace of the one-line macro and fix_conflicts.py inserts the parameter:
    the closing brace is not doubled, and the result is not the text of the
    scenario. *)
Theorem macro_signature_rewrite (body : text) :
  existsb (char_eqb LF) body = false ->
  forallb (fun p => negb (contains p body)) searched = true ->
  written FixBuild.fix_build (macro_with body) =
    lit "macro_rules! apply_theme { ($window:expr, $colors:expr) => {{ "
    ++ body ++ lit " }; }" /\
  written FixConflicts.fix_conflicts
    (written FixBuild.fix_build (macro_with body)) =
    lit "macro_rules! apply_theme { ($window:expr, $colors:expr, $theme_type:ty) => {{ "
    ++ body ++ lit " }; }" /\
  written FixConflicts.fix_conflicts
    (written FixBuild.fix_build (macro_with body)) <>
    lit "macro_rules! apply_theme { ($window:expr, $colors:expr, $theme_type:ty) => {{ "
    ++ body ++ lit " }}; }".
Proof.
  intros Hlf Hs.
  set (head0 :=
    lit "macro_rules! apply_theme { ($window:expr, $colors:expr) => { ").
  set (head1 :=
    lit "macro_rules! apply_theme { ($window:expr, $colors:expr) => {{ ").
  set (head2 :=
    lit "macro_rules! apply_theme { ($window:expr, $colors:expr, $theme_type:ty) => {{ ").
  set (tail := lit " }; }").
  set (h1 := lit "($window:expr, $colors:expr) => {{").
  assert (Hbody : forall p, In p searched -> contains p body = false)
    by (intros p Hp; now apply (searched_absent body p Hs)).
  assert (Hseams : forall p, In p (h1 :: searched) ->
    seams p head0 tail = true /\ seams p head1 tail = true /\
    seams p head2 tail = true /\ contains p tail = false).
  { intros p Hp. pose proof searched_seams as H.
    rewrite forallb_forall in H. specialize (H p Hp).
    apply andb_true_iff in H as [H H4]. apply andb_true_iff in H as [H H3].
    apply andb_true_iff in H as [H1 H2]. apply negb_true_iff in H4.
    now repeat split. }
  assert (Hheads : forall p, In p (tl searched) ->
    contains p head1 = false /\ contains p head2 = false).
  { intros p Hp. pose proof searched_heads as H.
    rewrite forallb_forall in H. specialize (H p Hp).
    apply andb_true_iff in H as [H1 H2].
    apply negb_true_iff in H1, H2. now split. }
  assert (Htl : forall p, In p (tl searched) -> In p (h1 :: searched))
    by (intros p Hp; right; right; exact Hp).
  assert (Habs1 : forall p, In p (tl searched) ->
    contains p (head1 ++ body ++ tail) = false).
  { intros p Hp. destruct (Hseams p (Htl p Hp)) as (_ & S1 & _ & T).
    destruct (Hheads p Hp) as [C1 _].
    apply absent_middle; try assumption. apply Hbody. now right. }
  assert (Habs2 : forall p, In p (tl searched) ->
    contains p (head2 ++ body ++ tail) = false).
  { intros p Hp. destruct (Hseams p (Htl p Hp)) as (_ & _ & S2 & T).
    destruct (Hheads p Hp) as [_ C2].
    apply absent_middle; try assumption. apply Hbody. now right. }
  (* the edit of the opening brace *)
  assert (Hc1 : replace (lit "=> {") (lit "=> {{") (macro_with body) =
                head1 ++ body ++ tail).
  { unfold macro_with. fold head0 tail.
    destruct (Hseams (lit "=> {") (or_intror (or_introl eq_refl)))
      as (S0 & _ & _ & T).
    assert (Hne : lit "=> {" <> []) by discriminate.
    rewrite (replace_middle (lit "=> {") (lit "=> {{") head0 body tail Hne S0
               (Hbody _ (or_introl eq_refl)) T).
    reflexivity. }
  (* fix_build.py *)
  assert (Hbuild : written FixBuild.fix_build (macro_with body) =
                   head1 ++ body ++ tail).
  { rewrite <- Hc1. apply fix_build_one_line.
    - unfold macro_with. apply open_line_app; [discriminate|reflexivity|].
      rewrite forallb_app. now rewrite (no_lf_forallb body Hlf).
    - unfold macro_with. apply contains_app_l. vm_compute. reflexivity.
    - unfold macro_with. apply contains_app_l. vm_compute. reflexivity.
    - rewrite Hc1. apply Habs1. left. reflexivity.
    - rewrite Hc1.
      assert (Hn : nth_error (strip (head1 ++ body ++ tail)) 0 = Some 109%N)
        by (apply strip_first; reflexivity).
      destruct (strip (head1 ++ body ++ tail)) as [|d t]; [discriminate|].
      injection Hn as ->. reflexivity.
    - rewrite Hc1. apply Habs1. right; left. reflexivity. }
  (* fix_conflicts.py *)
  assert (Hconf : written FixConflicts.fix_conflicts (head1 ++ body ++ tail) =
                  head2 ++ body ++ tail).
  { rewrite written_fix_conflicts.
    assert (Hm : FixConflicts.fix_macro (head1 ++ body ++ tail) =
                 head2 ++ body ++ tail).
    { unfold FixConflicts.fix_macro. fold h1.
      destruct (Hseams h1 (or_introl eq_refl)) as (_ & S1 & _ & T).
      assert (Hh1 : contains h1 body = false).
      { destruct (contains h1 body) eqn:E; [|reflexivity].
        assert (Hin : contains (lit "=> {") h1 = true)
          by (vm_compute; reflexivity).
        pose proof (contains_trans _ _ _ Hin E) as Hc.
        rewrite (Hbody (lit "=> {") (or_introl eq_refl)) in Hc.
        discriminate. }
      assert (Hne : h1 <> []) by discriminate.
      rewrite (replace_middle h1
                 (lit "($window:expr, $colors:expr, $theme_type:ty) => {{")
                 head1 body tail Hne S1 Hh1 T).
      change (replace h1
                (lit "($window:expr, $colors:expr, $theme_type:ty) => {{")
                head1) with head2.
      rewrite (replace_absent (lit "let slint_colors = SlintThemeColors {"));
        [|apply Habs2; right; right; left; reflexivity].
      apply replace_absent. apply Habs2.
      right; right; right; left. reflexivity. }
    rewrite Hm.
    rewrite (split_absent FixConflicts.file_sep (head2 ++ body ++ tail));
      [|discriminate|apply Habs2; right; left; reflexivity].
    cbn [hd tl FixConflicts.rename_loop].
    apply replace_all_absent. apply forallb_forall.
    intros [old new] Hin. apply negb_true_iff, Habs2.
    do 4 right. apply (in_map fst) in Hin. exact Hin. }
  rewrite Hbuild, Hconf. repeat split.
  intros H. apply app_inv_head in H. apply app_inv_head in H. discriminate.
Qed.

End MacroBody.

(** The body of the scenario. *)
Lemma macro_signature_rewrite_witness :
  Script.written FixConflicts.fix_conflicts
    (Script.written FixBuild.fix_build MacroScenario.macro_one_line) =
  lit "macro_rules! apply_theme { ($window:expr, $colors:expr, $theme_type:ty) => {{ BODY }; }".
Proof.
  destruct (macro_signature_rewrite (lit "BODY") eq_refl eq_refl)
    as (_ & H & _).
  exact H.
Defined.
